(** * The MNIST feed-forward network of [assignments/mp1/src/mnist.py]

    A shallow embedding of class [NeuralNetwork] and of the fragment of numpy
    it uses, followed by the properties of the repository's specification
    that concern it.

    Modelling choices.
    - A two-dimensional float array is a record of its shape and its rows.
      Array entries are real numbers: [np.exp] and [np.log] have no binary64
      counterpart here, so array arithmetic is the exact arithmetic that the
      floating-point code approximates.  Scalar arithmetic on Python floats
      that needs only [+ - * /] is written over an interface [Float] with two
      instances, the reals and IEEE binary64.
    - What exact arithmetic leaves out.  An array of reals holds no inf and
      no nan, and no exponential underflows.  So [np.log] and the division
      of [get_cost] are the code's on their domain only (positive entries,
      a divisor that is not zero): the theorems on the value of the cost
      assume that domain.  The softmax of the code shifts by the maximum of
      the whole batch; where that makes binary64 underflow, the code
      returns nan and the model a probability: the properties of the
      output distribution and of the predictions are stated for exact
      arithmetic, and the underflow itself is a theorem of its own.  The
      learning rate is a real as well: the theorems on runs of [fit] that
      return assume decay_rate >= 0, for which no factor of the decay is
      zero in either arithmetic.
    - Python names hold references.  Arrays live in a store; a method that
      assigns through a mask or a slice updates the store at the reference
      it was given, so two names of one array see the same update.
    - An exception ends the computation: a method is a function from the
      world (store and standard output) to a result or an exception.  An
      exception carries no world: a theorem that a call raises says which
      exception, and nothing on what the call did to the store before.
    - One-dimensional integer arrays (labels, predictions, index sets) are
      never mutated by the class and are lists of integers.
    - The draws of [np.random.uniform] are an argument of the constructor. *)

From Stdlib Require Import String Floats Uint63.
From Stdlib Require Import Reals Lra Lia ZArith Bool PeanoNat List.
Import ListNotations.

Set Implicit Arguments.

Local Open Scope R_scope.

(* ================================================================= *)
(** * Results and exceptions *)

Inductive exn : Type :=
| ValueError | IndexError | AttributeError | AssertionError | ZeroDivisionError
| UnboundLocalError.

Inductive res (A : Type) : Type :=
| Ok (a : A)
| Raise (e : exn).
Arguments Raise {A} e.

Definition res_bind {A B} (r : res A) (k : A -> res B) : res B :=
  match r with Ok a => k a | Raise e => Raise e end.

(* ================================================================= *)
(** * Two-dimensional arrays *)

Record ndarray : Type := mkarr { nrows : nat; ncols : nat; rows : list (list R) }.

(** [a[i, j]]; the rows are read with default 0, so every record denotes
    the array of its shape whose entries are what [get] reads. *)
Definition get (a : ndarray) (i j : nat) : R := nth j (nth i (rows a) []) 0.

(** The array of shape (r, c) with entry [f i j] at (i, j). *)
Definition tab (r c : nat) (f : nat -> nat -> R) : ndarray :=
  mkarr r c (map (fun i => map (fun j => f i j) (seq 0 c)) (seq 0 r)).

Definition Rltb (x y : R) : bool := if Rlt_dec x y then true else false.
Definition Rleb (x y : R) : bool := if Rle_dec x y then true else false.

Definition Rsum (l : list R) : R := fold_right Rplus 0 l.

(** Sum of [f k] for k < n. *)
Definition sigma (n : nat) (f : nat -> R) : R := Rsum (map f (seq 0 n)).

Module np.

Definition full (r c : nat) (v : R) : ndarray := tab r c (fun _ _ => v).
Definition zeros (r c : nat) : ndarray := full r c 0.
Definition ones (r c : nat) : ndarray := full r c 1.

(** [a.T] *)
Definition T (a : ndarray) : ndarray :=
  tab (ncols a) (nrows a) (fun i j => get a j i).

(** [a.dot(b)]: the inner dimensions must agree. *)
Definition dot (a b : ndarray) : res ndarray :=
  if (ncols a =? nrows b)%nat
  then Ok (tab (nrows a) (ncols b)
             (fun i j => sigma (ncols a) (fun k => get a i k * get b k j)))
  else Raise ValueError.

(** A unary ufunc, and an array combined with a scalar. *)
Definition map (f : R -> R) (a : ndarray) : ndarray :=
  tab (nrows a) (ncols a) (fun i j => f (get a i j)).

Definition exp (a : ndarray) : ndarray := map Rtrigo_def.exp a.

(** [np.log], for arrays with positive entries.  Elsewhere numpy returns
    -inf or nan, which an array of reals does not hold, and [ln] returns 0:
    what is proved of a logarithm assumes positive entries. *)
Definition log (a : ndarray) : ndarray := map ln a.
Definition square (a : ndarray) : ndarray := map (fun x => x * x) a.
Definition neg (a : ndarray) : ndarray := map Ropp a.
Definition add_scalar (a : ndarray) (s : R) : ndarray := map (fun x => x + s) a.
Definition mul_scalar (a : ndarray) (s : R) : ndarray := map (fun x => x * s) a.
Definition scalar_mul (s : R) (a : ndarray) : ndarray := map (fun x => s * x) a.
Definition tanh (a : ndarray) : ndarray := map Rtrigo_def.tanh a.
Definition scalar_sub (s : R) (a : ndarray) : ndarray := map (fun x => s - x) a.

(** Broadcasting of one dimension: equal sizes, or one of them is 1. *)
Definition bdim (m n : nat) : option nat :=
  if (m =? n)%nat then Some m
  else if (m =? 1)%nat then Some n
  else if (n =? 1)%nat then Some m
  else None.

(** The index read in a dimension of size n when the result index is i. *)
Definition bidx (n i : nat) : nat := if (n =? 1)%nat then 0%nat else i.

(** A binary ufunc with broadcasting. *)
Definition zipw (f : R -> R -> R) (a b : ndarray) : res ndarray :=
  match bdim (nrows a) (nrows b), bdim (ncols a) (ncols b) with
  | Some r, Some c =>
      Ok (tab r c (fun i j =>
            f (get a (bidx (nrows a) i) (bidx (ncols a) j))
              (get b (bidx (nrows b) i) (bidx (ncols b) j))))
  | _, _ => Raise ValueError
  end.

Definition add := zipw Rplus.
Definition sub := zipw Rminus.
Definition mul := zipw Rmult.
Definition div := zipw Rdiv.

(** The entries in row-major order. *)
Definition flat (a : ndarray) : list R :=
  flat_map (fun i => List.map (fun j => get a i j) (seq 0 (ncols a)))
           (seq 0 (nrows a)).

(** [np.sum(a)] and [np.sum(a, axis=0)]; the latter, a vector of length
    [ncols a], is kept as an array of one row, which is how it
    broadcasts against a matrix. *)
Definition sum (a : ndarray) : R := Rsum (flat a).

Definition sum_axis0 (a : ndarray) : ndarray :=
  tab 1 (ncols a) (fun _ j => sigma (nrows a) (fun i => get a i j)).

(** [np.max(a)] over all entries; an array without entries has no maximum. *)
Definition max (a : ndarray) : res R :=
  match flat a with
  | [] => Raise ValueError
  | x :: l => Ok (fold_left Rmax l x)
  end.

(** Index of the first maximal entry of a non-empty list. *)
Fixpoint argmax_from (l : list R) (i best : nat) (bv : R) : nat :=
  match l with
  | [] => best
  | x :: l' => if Rltb bv x then argmax_from l' (S i) i x
               else argmax_from l' (S i) best bv
  end.

Definition argmax_list (l : list R) : nat :=
  match l with
  | [] => 0%nat
  | x :: l' => argmax_from l' 1 0 x
  end.

(** [np.argmax(a, axis=0)]: one row index per column. *)
Definition argmax_axis0 (a : ndarray) : res (list Z) :=
  if (nrows a =? 0)%nat then Raise ValueError
  else Ok (List.map
             (fun j => Z.of_nat
                (argmax_list (List.map (fun i => get a i j) (seq 0 (nrows a)))))
             (seq 0 (ncols a))).

(** The slices [a[:, 1:]] and [a[1:, :]]. *)
Definition cols_from1 (a : ndarray) : ndarray :=
  tab (nrows a) (ncols a - 1) (fun i j => get a i (S j)).

Definition rows_from1 (a : ndarray) : ndarray :=
  tab (nrows a - 1) (ncols a) (fun i j => get a (S i) j).

(** Indexing with an integer array: [a[idx]] picks rows, [a[:, idx]]
    picks columns; both copy.  The indices are those of [array_split]
    over [range], so none is negative. *)
Definition take_rows (a : ndarray) (idx : list nat) : res ndarray :=
  if forallb (fun k => k <? nrows a)%nat idx
  then Ok (tab (length idx) (ncols a) (fun i j => get a (nth i idx 0%nat) j))
  else Raise IndexError.

Definition take_cols (a : ndarray) (idx : list nat) : res ndarray :=
  if forallb (fun k => k <? ncols a)%nat idx
  then Ok (tab (nrows a) (length idx) (fun i j => get a i (nth j idx 0%nat)))
  else Raise IndexError.

(** An index array with what matters of its dtype: [integer] is false for
    an array of floats, which numpy refuses as an index whatever it holds,
    an empty array included. *)
Record index_array : Type := mkidx { integer : bool; indices : list nat }.

(** [a[idx]] and [a[:, idx]] for an index array. *)
Definition getitem_rows (a : ndarray) (idx : index_array) : res ndarray :=
  if integer idx then take_rows a (indices idx) else Raise IndexError.

Definition getitem_cols (a : ndarray) (idx : index_array) : res ndarray :=
  if integer idx then take_cols a (indices idx) else Raise IndexError.

(** [np.array_split(range(n), k)]: k consecutive runs, the first
    [n mod k] of them one longer than the others.  The runs are slices of
    [np.array(range(n))], an array of integers unless the range is empty:
    an array built from an empty sequence has dtype float64. *)
Fixpoint split_from (start : nat) (sizes : list nat) : list (list nat) :=
  match sizes with
  | [] => []
  | s :: sizes' => seq start s :: split_from (start + s)%nat sizes'
  end.

Definition array_split_range (n k : nat) : res (list index_array) :=
  if (k =? 0)%nat then Raise ValueError
  else Ok (List.map (mkidx (negb (n =? 0)%nat))
             (split_from 0 (repeat (S (n / k)) (n mod k)
                            ++ repeat (n / k) (k - n mod k))%nat)).

(** A Python index into a dimension of size n: negative indices count
    from the end. *)
Definition index (k : Z) (n : nat) : res nat :=
  if ((0 <=? k) && (k <? Z.of_nat n))%Z then Ok (Z.to_nat k)
  else if ((- Z.of_nat n <=? k) && (k <? 0))%Z then Ok (Z.to_nat (k + Z.of_nat n))
  else Raise IndexError.

(** The array [a] after [a[i, j] = v]. *)
Definition set (a : ndarray) (i j : nat) (v : R) : ndarray :=
  tab (nrows a) (ncols a)
      (fun r c => if ((r =? i) && (c =? j))%nat then v else get a r c).

(** The array [a] after [a[mask] = v], the mask being [p] entrywise. *)
Definition set_where (p : R -> bool) (v : R) (a : ndarray) : ndarray :=
  map (fun x => if p x then v else x) a.

(** Whether an array of shape [b] broadcasts to the shape (r, c) of the
    target of an in-place operation. *)
Definition fits (r c : nat) (b : ndarray) : bool :=
  ((nrows b =? r) || (nrows b =? 1))%nat && ((ncols b =? c) || (ncols b =? 1))%nat.

(** The array [a] after [a += b]. *)
Definition iadd (a b : ndarray) : res ndarray :=
  if fits (nrows a) (ncols a) b
  then Ok (tab (nrows a) (ncols a) (fun i j =>
             get a i j + get b (bidx (nrows b) i) (bidx (ncols b) j)))
  else Raise ValueError.

(** The array [a] after [a[:, 1:] += b]. *)
Definition iadd_cols_from1 (a b : ndarray) : res ndarray :=
  if fits (nrows a) (ncols a - 1) b
  then Ok (tab (nrows a) (ncols a) (fun i j =>
             match j with
             | O => get a i 0
             | S j' => get a i j + get b (bidx (nrows b) i) (bidx (ncols b) j')
             end))
  else Raise ValueError.

(** The array [a] after [a[:, 1:] = x] and after [a[1:, :] = x], for [x]
    of the shape of the slice. *)
Definition set_cols_from1 (a x : ndarray) : ndarray :=
  tab (nrows a) (ncols a)
      (fun i j => match j with O => get a i 0 | S j' => get x i j' end).

Definition set_rows_from1 (a x : ndarray) : ndarray :=
  tab (nrows a) (ncols a)
      (fun i j => match i with O => get a 0 j | S i' => get x i' j end).

End np.

(* ================================================================= *)
(** * The world: store of arrays and standard output *)

Definition ref : Type := nat.
Bind Scope nat_scope with ref.

Inductive pyval : Type :=
| PStr (s : string)
| PStrs (l : list string)
| PInt (n : Z)
| PFloat (x : R).

(** A printed line: the text, with the arguments of [format] if any. *)
Definition line : Type := (string * list pyval)%type.

Record world : Type := mkworld { heap : list ndarray; stdout : list line }.

Definition M (A : Type) : Type := world -> res (A * world).

Definition ret {A} (a : A) : M A := fun w => Ok (a, w).

Definition bind {A B} (m : M A) (k : A -> M B) : M B :=
  fun w => match m w with
           | Ok (a, w') => k a w'
           | Raise e => Raise e
           end.

Definition lift {A} (r : res A) : M A :=
  fun w => match r with Ok a => Ok (a, w) | Raise e => Raise e end.

Declare Scope py_scope.
Delimit Scope py_scope with py.
Notation "x <- m ;; k" := (bind m (fun x => k))
  (at level 61, m at next level, right associativity) : py_scope.
Notation "' p <- m ;; k" := (bind m (fun x => let 'p := x in k))
  (at level 61, p pattern, m at next level, right associativity) : py_scope.
Notation "m ;; k" := (bind m (fun _ => k))
  (at level 61, right associativity) : py_scope.
Local Open Scope py_scope.

Definition arr0 : ndarray := mkarr 0 0 [].

Fixpoint upd (r : nat) (a : ndarray) (h : list ndarray) : list ndarray :=
  match h, r with
  | [], _ => []
  | _ :: h', O => a :: h'
  | x :: h', S r' => x :: upd r' a h'
  end.

(** Binding a fresh array to a name, reading and overwriting through a name. *)
Definition alloc (a : ndarray) : M ref :=
  fun w => Ok (length (heap w), mkworld (heap w ++ [a]) (stdout w)).

Definition load (r : ref) : M ndarray :=
  fun w => Ok (nth r (heap w) arr0, w).

Definition store (r : ref) (a : ndarray) : M unit :=
  fun w => Ok (tt, mkworld (upd r a (heap w)) (stdout w)).

Definition print (s : string) (args : list pyval) : M unit :=
  fun w => Ok (tt, mkworld (heap w) (stdout w ++ [(s, args)])).

(** [for x in l: body], threading the variables the body rebinds. *)
Fixpoint for_ {A S} (l : list A) (body : A -> S -> M S) (s : S) : M S :=
  match l with
  | [] => ret s
  | x :: l' => s' <- body x s ;; for_ l' body s'
  end.

(* ================================================================= *)
(** * class NeuralNetwork *)

Record NeuralNetwork : Type := mkNN {
  n_output : nat;
  n_features : nat;
  n_hidden : nat;
  w1 : ref;
  w2 : ref;
  l2 : R;
  epochs : nat;
  learning_rate : R;
  decay_rate : R;
  minibatch_size : nat;
  optimizer : string;
  activation : option string;     (* [None]: the attribute was never set *)
  metrics : list string
}.

Definition set_learning_rate (self : NeuralNetwork) (lr : R) : NeuralNetwork :=
  mkNN (n_output self) (n_features self) (n_hidden self) (w1 self) (w2 self)
       (l2 self) (epochs self) lr (decay_rate self) (minibatch_size self)
       (optimizer self) (activation self) (metrics self).

(** Reading an attribute that was never assigned. *)
Definition getattr_activation (self : NeuralNetwork) : res string :=
  match activation self with
  | Some a => Ok a
  | None => Raise AttributeError
  end.

(** [initialize_weights]; [u1] and [u2] are the uniform draws, in order. *)
Definition initialize_weights (n_output n_features n_hidden : nat)
    (u1 u2 : nat -> R) : M (ref * ref) :=
  w1 <- alloc (np.map (fun x => x / INR (n_features + 1))
                 (tab n_hidden (n_features + 1)
                      (fun i j => u1 (i * (n_features + 1) + j)%nat))) ;;
  w2 <- alloc (np.map (fun x => x / INR (n_hidden + 1))
                 (tab n_output (n_hidden + 1)
                      (fun i j => u2 (i * (n_hidden + 1) + j)%nat))) ;;
  ret (w1, w2).

Definition mem_str (s : string) (l : list string) : bool :=
  existsb (String.eqb s) l.

Definition supported_activations : list string :=
  ["relu"; "tanh"; "sigmoid"]%string.

Definition supported_metrics : list string :=
  ["Accuracy"; "Precision"; "Recall"; "AUC"]%string.

(** [__init__] *)
Definition init (n_output n_features n_hidden : nat) (l2 : R) (epochs : nat)
    (learning_rate decay_rate : R) (minibatch_size : nat)
    (optimizer activation : string) (metrics : list string)
    (u1 u2 : nat -> R) : M NeuralNetwork :=
  '(w1, w2) <- initialize_weights n_output n_features n_hidden u1 u2 ;;
  act <- (if negb (mem_str activation supported_activations) then
            print "Error: unsupported activation requested." [] ;;
            print "Available activations: {}" [PStrs supported_activations] ;;
            ret None
          else ret (Some activation)) ;;
  for_ metrics (fun elem (_ : unit) =>
                  if mem_str elem supported_metrics then ret tt
                  else lift (Raise AssertionError)) tt ;;
  ret (mkNN n_output n_features n_hidden w1 w2 l2 epochs learning_rate
            decay_rate minibatch_size optimizer act metrics).

(** [encode_labels] *)
Definition encode_labels (y : list Z) (num_labels : nat) : M ref :=
  onehot <- alloc (np.zeros num_labels (length y)) ;;
  for_ (seq 0 (length y)) (fun i (_ : unit) =>
      a <- load onehot ;;
      r <- lift (np.index (nth i y 0%Z) (nrows a)) ;;
      store onehot (np.set a r i 1)) tt ;;
  ret onehot.

(** [softmax]: the value [v + logC] that is exponentiated, and the method. *)
Definition softmax_shifted (v : ndarray) : res ndarray :=
  res_bind (np.max v) (fun m =>
  let logC := - m in
  Ok (np.add_scalar v logC)).

Definition softmax (v : ref) : M ref :=
  v_ <- load v ;;
  s <- lift (softmax_shifted v_) ;;
  out <- lift (np.div (np.exp s) (np.sum_axis0 (np.exp s))) ;;
  alloc out.

(** [tanh]: both branches build a new array. *)
Definition tanh (z : ref) (deriv : bool) : M ref :=
  z_ <- load z ;;
  if negb deriv then alloc (np.tanh z_)
  else alloc (np.scalar_sub 1 (np.square (np.tanh z_))).

(** [relu]: both branches assign through a mask into the array they were
    given and return that same array. *)
Definition mask_assign (z : ref) (p : R -> bool) (v : R) : M unit :=
  a <- load z ;;
  store z (np.set_where p v a).

Definition relu (z : ref) (deriv : bool) : M ref :=
  if negb deriv then
    let relud := z in
    mask_assign relud (fun x => Rltb x 0) 0 ;;
    ret relud
  else
    let deriv := z in
    mask_assign deriv (fun x => Rleb x 0) 0 ;;
    mask_assign deriv (fun x => Rltb 0 x) 1 ;;
    ret deriv.

(** [add_bias_unit] *)
Definition add_bias_unit (X : ref) (column : bool) : M ref :=
  X_ <- load X ;;
  if column then
    bias_added <- alloc (np.ones (nrows X_) (ncols X_ + 1)) ;;
    b <- load bias_added ;;
    store bias_added (np.set_cols_from1 b X_) ;;
    ret bias_added
  else
    bias_added <- alloc (np.ones (nrows X_ + 1) (ncols X_)) ;;
    b <- load bias_added ;;
    store bias_added (np.set_rows_from1 b X_) ;;
    ret bias_added.

(** [forward].  The body calls methods of [self] and reads none of its
    attributes; the parameter [do_dropout] is never read and is left out. *)
Definition forward (self : NeuralNetwork) (X w1 w2 : ref)
  : M (ref * ref * ref * ref * ref) :=
  a1 <- add_bias_unit X true ;;
  w1_ <- load w1 ;; a1_ <- load a1 ;;
  z2 <- (d <- lift (np.dot w1_ (np.T a1_)) ;; alloc d) ;;
  a2 <- relu z2 false ;;
  a2 <- add_bias_unit a2 false ;;
  w2_ <- load w2 ;; a2_ <- load a2 ;;
  z3 <- (d <- lift (np.dot w2_ a2_) ;; alloc d) ;;
  a3 <- softmax z3 ;;
  ret (a1, z2, a2, z3, a3).

(** [get_cost].  The division is that of the code for a batch that is not
    empty; on an empty batch numpy divides by zero into inf or nan, and the
    real division returns 0. *)
Definition get_cost (self : NeuralNetwork) (y_enc output w1 w2 : ref) : M R :=
  y_enc_ <- load y_enc ;; output_ <- load output ;;
  w1_ <- load w1 ;; w2_ <- load w2 ;;
  p <- lift (np.mul y_enc_ (np.log output_)) ;;
  let cost := - np.sum p in
  let l2_term := (l2 self / 2) *
                 (np.sum (np.square (np.cols_from1 w1_))
                  + np.sum (np.square (np.cols_from1 w2_))) in
  let cost := cost + l2_term in
  ret (cost / INR (ncols y_enc_)).

(** [backprop] *)
Definition backprop (self : NeuralNetwork) (a1 a2 a3 z2 y_enc w1 w2 : ref)
  : M (ref * ref) :=
  a3_ <- load a3 ;; y_enc_ <- load y_enc ;;
  sigma3 <- (d <- lift (np.sub a3_ y_enc_) ;; alloc d) ;;
  z2 <- add_bias_unit z2 false ;;
  w2_ <- load w2 ;; sigma3_ <- load sigma3 ;;
  l <- lift (np.dot (np.T w2_) sigma3_) ;;
  r <- relu z2 true ;;
  r_ <- load r ;;
  sigma2 <- (d <- lift (np.mul l r_) ;; alloc d) ;;
  sigma2_ <- load sigma2 ;;
  sigma2 <- alloc (np.rows_from1 sigma2_) ;;
  sigma2_ <- load sigma2 ;; a1_ <- load a1 ;;
  grad1 <- (d <- lift (np.dot sigma2_ a1_) ;; alloc d) ;;
  sigma3_ <- load sigma3 ;; a2_ <- load a2 ;;
  grad2 <- (d <- lift (np.dot sigma3_ (np.T a2_)) ;; alloc d) ;;
  w1_ <- load w1 ;; g1 <- load grad1 ;;
  g1' <- lift (np.iadd_cols_from1 g1 (np.mul_scalar (np.cols_from1 w1_) (l2 self))) ;;
  store grad1 g1' ;;
  w2_ <- load w2 ;; g2 <- load grad2 ;;
  g2' <- lift (np.iadd_cols_from1 g2 (np.mul_scalar (np.cols_from1 w2_) (l2 self))) ;;
  store grad2 g2' ;;
  ret (grad1, grad2).

(** [predict] *)
Definition predict (self : NeuralNetwork) (X : ref) : M (list Z) :=
  '(a1, z2, a2, z3, a3) <- forward self X (w1 self) (w2 self) ;;
  a3_ <- load a3 ;;
  y_pred <- lift (np.argmax_axis0 a3_) ;;
  ret y_pred.

(* ================================================================= *)
(** * Python float scalars *)

(** The arithmetic [accuracy] does on Python floats. *)
Class Float (F : Type) : Type := {
  of_int : Z -> F;          (* the float of a Python int *)
  fadd : F -> F -> F;
  fsub : F -> F -> F;
  fmul : F -> F -> F;
  fdiv : F -> F -> F        (* by a non-zero divisor *)
}.

#[export] Instance real_Float : Float R :=
  {| of_int := IZR; fadd := Rplus; fsub := Rminus; fmul := Rmult; fdiv := Rdiv |}.

(** IEEE 754 binary64, round to nearest even: the floats of Python. *)
#[export] Instance binary64_Float : Float float :=
  {| of_int := fun z =>
       if (z <? 0)%Z then PrimFloat.opp (PrimFloat.of_uint63 (Uint63.of_Z (- z)))
       else PrimFloat.of_uint63 (Uint63.of_Z z);
     fadd := PrimFloat.add; fsub := PrimFloat.sub;
     fmul := PrimFloat.mul; fdiv := PrimFloat.div |}.

(** [a - b] on one-dimensional integer arrays, with broadcasting. *)
Definition sub1d (a b : list Z) : res (list Z) :=
  match np.bdim (length a) (length b) with
  | Some n => Ok (map (fun i => (nth (np.bidx (length a) i) a 0 - nth (np.bidx (length b) i) b 0)%Z)
                      (seq 0 n))
  | None => Raise ValueError
  end.

(** [a[i]] for i >= 0. *)
Definition item (a : list Z) (i : nat) : res Z :=
  match nth_error a i with
  | Some x => Ok x
  | None => Raise IndexError
  end.

(** [accuracy] *)
Definition accuracy {F} `{Float F} (self : NeuralNetwork) (X_train : ref)
    (y_train : list Z) : M F :=
  y_train_pred <- predict self X_train ;;
  diffs <- lift (sub1d y_train_pred y_train) ;;
  count <- for_ (seq 0 (length y_train)) (fun i count =>
             d <- lift (item diffs i) ;;
             if negb (d =? 0)%Z then ret (fadd count (of_int 1)) else ret count)
           (of_int 0) ;;
  if (length y_train =? 0)%nat then lift (Raise ZeroDivisionError)
  else ret (fsub (of_int 100)
                 (fdiv (fmul count (of_int 100))
                       (of_int (Z.of_nat (length y_train))))).

(* ================================================================= *)
(** * fit *)

(** The local variables of [fit] that its loops rebind, with [self]. *)
Record fit_vars : Type := mkvars {
  v_self : NeuralNetwork;
  prev_grad_w1 : ref;
  prev_grad_w2 : ref;
  costs : list R;
  grad_1_li : list ref;
  grad_2_li : list ref;
  cost : option R                 (* [None]: not yet bound *)
}.

(** [self.w += - (w_update + prev_grad_w)] *)
Definition descend (w w_update prev_grad_w : ref) : M unit :=
  u <- load w_update ;; p <- load prev_grad_w ;;
  t <- lift (np.add u p) ;;
  w_ <- load w ;;
  w' <- lift (np.iadd w_ (np.neg t)) ;;
  store w w'.

(** The body of [for idx in mini]. *)
Definition fit_minibatch (X_data y_enc : ref) (idx : np.index_array) (s : fit_vars)
  : M fit_vars :=
  let self := v_self s in
  (* feed forward *)
  X_d <- load X_data ;;
  xb <- (b <- lift (np.getitem_rows X_d idx) ;; alloc b) ;;
  '(a1, z2, a2, z3, a3) <- forward self xb (w1 self) (w2 self) ;;
  y_e <- load y_enc ;;
  yb <- (b <- lift (np.getitem_cols y_e idx) ;; alloc b) ;;
  cost <- get_cost self yb a3 (w1 self) (w2 self) ;;
  let costs := costs s ++ [cost] in
  (* compute gradient via backpropagation *)
  y_e <- load y_enc ;;
  yb <- (b <- lift (np.getitem_cols y_e idx) ;; alloc b) ;;
  '(grad1, grad2) <- backprop self a1 a2 a3 z2 yb (w1 self) (w2 self) ;;
  let grad_1_li := grad_1_li s ++ [grad1] in
  let grad_2_li := grad_2_li s ++ [grad2] in
  (* update parameters *)
  g1 <- load grad1 ;;
  w1_update <- alloc (np.scalar_mul (learning_rate self) g1) ;;
  g2 <- load grad2 ;;
  w2_update <- alloc (np.scalar_mul (learning_rate self) g2) ;;
  descend (w1 self) w1_update (prev_grad_w1 s) ;;
  descend (w2 self) w2_update (prev_grad_w2 s) ;;
  ret (mkvars self w1_update w2_update costs grad_1_li grad_2_li (Some cost)).

(** [np.linalg.norm] of a list of arrays. *)
Definition linalg_norm (l : list ref) : M R :=
  sq <- for_ l (fun g acc => g_ <- load g ;; ret (acc + np.sum (np.square g_))) 0 ;;
  ret (sqrt sq).

Definition Reqb (x y : R) : bool := if Req_dec_T x y then true else false.

(** The body of [for i in range(self.epochs)].  The factor of the decay is
    a real here and a binary64 number in the code, where it can round to
    zero without being zero (1 + (-0.1) * 10): for decay_rate >= 0 it is
    at least 1 in both. *)
Definition fit_epoch (X : ref) (y : list Z) (X_data y_enc : ref)
    (y_data : list Z) (print_progress : bool) (i : nat) (s : fit_vars)
  : M fit_vars :=
  let self := v_self s in
  let d := 1 + decay_rate self * INR i in
  self <- (if Reqb d 0 then lift (Raise ZeroDivisionError)
           else ret (set_learning_rate self (learning_rate self / d))) ;;
  mini <- lift (np.array_split_range (length y_data) (minibatch_size self)) ;;
  s <- for_ mini (fit_minibatch X_data y_enc)
         (mkvars self (prev_grad_w1 s) (prev_grad_w2 s) (costs s)
                 (grad_1_li s) (grad_2_li s) (cost s)) ;;
  if print_progress && ((i + 1) mod 1 =? 0)%nat then
    print "Epoch: {}" [PInt (Z.of_nat (i + 1))] ;;
    c <- lift (match cost s with Some c => Ok c | None => Raise UnboundLocalError end) ;;
    print "Loss: {}" [PFloat c] ;;
    grad_1_mag <- linalg_norm (grad_1_li s) ;;
    grad_2_mag <- linalg_norm (grad_2_li s) ;;
    acc <- accuracy (v_self s) X y ;;
    print "Training Accuracy: {}" [PFloat acc] ;;
    ret s
  else ret s.

(** The statements of [fit] before its loops: the copies, the one-hot
    labels and the zero "previous gradients". *)
Definition fit_setup (self : NeuralNetwork) (X : ref) (y : list Z)
  : M (ref * ref * fit_vars) :=
  X_ <- load X ;;
  X_data <- alloc X_ ;;
  y_enc <- encode_labels y (n_output self) ;;
  (* previous gradients *)
  w1_ <- load (w1 self) ;;
  prev_grad_w1 <- alloc (np.zeros (nrows w1_) (ncols w1_)) ;;
  w2_ <- load (w2 self) ;;
  prev_grad_w2 <- alloc (np.zeros (nrows w2_) (ncols w2_)) ;;
  print "fitting...now, please wait..." [] ;;
  ret (X_data, y_enc, mkvars self prev_grad_w1 prev_grad_w2 [] [] [] None).

(** [fit] *)
Definition fit (self : NeuralNetwork) (X : ref) (y : list Z)
    (print_progress : bool) : M NeuralNetwork :=
  '(X_data, y_enc, s) <- fit_setup self X y ;;
  let y_data := y in
  s <- for_ (seq 0 (epochs self))
         (fit_epoch X y X_data y_enc y_data print_progress) s ;;
  ret (v_self s).

(* ================================================================= *)
(** * What the methods compute, as functions of array values

    The store effects of each method are separated from the values it
    computes: the definitions below are the values, the lemmas after them
    relate each method to its values and to the arrays it allocates. *)

Definition bias_added_value (X : ndarray) (column : bool) : ndarray :=
  if column then np.set_cols_from1 (np.ones (nrows X) (ncols X + 1)) X
  else np.set_rows_from1 (np.ones (nrows X + 1) (ncols X)) X.

Definition relu_value (deriv : bool) (z : ndarray) : ndarray :=
  if negb deriv then np.set_where (fun x => Rltb x 0) 0 z
  else np.set_where (fun x => Rltb 0 x) 1 (np.set_where (fun x => Rleb x 0) 0 z).

Definition softmax_value (v : ndarray) : res ndarray :=
  res_bind (softmax_shifted v) (fun s =>
  np.div (np.exp s) (np.sum_axis0 (np.exp s))).

(** The five arrays [forward] returns, as the store holds them when it
    returns. *)
Definition forward_values (X w1 w2 : ndarray)
  : res (ndarray * ndarray * ndarray * ndarray * ndarray) :=
  let a1 := bias_added_value X true in
  res_bind (np.dot w1 (np.T a1)) (fun z2 =>
  let z2 := relu_value false z2 in
  let a2 := bias_added_value z2 false in
  res_bind (np.dot w2 a2) (fun z3 =>
  res_bind (softmax_value z3) (fun a3 =>
  Ok (a1, z2, a2, z3, a3)))).

(* ================================================================= *)
(** * Lemmas on arrays and on the store *)

Lemma nrows_tab r c f : nrows (tab r c f) = r.
Proof. reflexivity. Qed.

Lemma ncols_tab r c f : ncols (tab r c f) = c.
Proof. reflexivity. Qed.

Lemma get_tab r c f i j :
  (i < r)%nat -> (j < c)%nat -> get (tab r c f) i j = f i j.
Proof.
  intros Hi Hj. unfold get, tab; simpl.
  rewrite nth_indep with (d' := map (fun j0 => f 0%nat j0) (seq 0 c))
    by (rewrite length_map, length_seq; exact Hi).
  rewrite (map_nth (fun i0 => map (fun j0 => f i0 j0) (seq 0 c)) (seq 0 r) 0%nat i).
  rewrite seq_nth by exact Hi. simpl.
  rewrite nth_indep with (d' := f i 0%nat)
    by (rewrite length_map, length_seq; exact Hj).
  rewrite (map_nth (fun j0 => f i j0) (seq 0 c) 0%nat j).
  rewrite seq_nth by exact Hj. reflexivity.
Qed.

Lemma tab_ext r c f g :
  (forall i j, (i < r)%nat -> (j < c)%nat -> f i j = g i j) ->
  tab r c f = tab r c g.
Proof.
  intros E. unfold tab. f_equal.
  apply map_ext_in. intros i Hi. apply in_seq in Hi.
  apply map_ext_in. intros j Hj. apply in_seq in Hj.
  apply E; lia.
Qed.

Lemma nth_heap_old (h l : list ndarray) r :
  (r < length h)%nat -> nth r (h ++ l) arr0 = nth r h arr0.
Proof. intros. apply app_nth1. assumption. Qed.

Lemma nth_heap_new (h l : list ndarray) k :
  nth (length h + k) (h ++ l) arr0 = nth k l arr0.
Proof. apply app_nth2_plus. Qed.

Lemma nth_heap_new0 (h l : list ndarray) :
  nth (length h) (h ++ l) arr0 = nth 0 l arr0.
Proof. rewrite <- (Nat.add_0_r (length h)) at 1. apply nth_heap_new. Qed.

Lemma length_upd r a h : length (upd r a h) = length h.
Proof.
  revert r; induction h as [|x h IH]; intros [|r]; simpl; auto.
Qed.

Lemma nth_upd_same r a h :
  (r < length h)%nat -> nth r (upd r a h) arr0 = a.
Proof.
  revert r; induction h as [|x h IH]; intros [|r] H; simpl in *; try lia; auto.
  apply IH. lia.
Qed.

Lemma nth_upd_other r r' a h :
  r <> r' -> nth r' (upd r a h) arr0 = nth r' h arr0.
Proof.
  revert r r'; induction h as [|x h IH]; intros [|r] [|r'] H; simpl; auto;
    try congruence.
Qed.

Lemma upd_upd r a b h : upd r b (upd r a h) = upd r b h.
Proof.
  revert r; induction h as [|x h IH]; intros [|r]; simpl; auto.
  f_equal. apply IH.
Qed.

Lemma upd_heap_old (h l : list ndarray) r a :
  (r < length h)%nat -> upd r a (h ++ l) = upd r a h ++ l.
Proof.
  revert r; induction h as [|x h IH]; intros [|r] H; simpl in *; try lia; auto.
  f_equal. apply IH. lia.
Qed.

Lemma upd_heap_new (h l : list ndarray) k a :
  upd (length h + k) a (h ++ l) = h ++ upd k a l.
Proof.
  induction h as [|x h IH]; simpl; auto.
  destruct l; simpl; f_equal; auto.
Qed.

Lemma upd_heap_new0 (h l : list ndarray) a :
  upd (length h) a (h ++ l) = h ++ upd 0 a l.
Proof. rewrite <- (Nat.add_0_r (length h)) at 1. apply upd_heap_new. Qed.

Lemma upd_nth_id r h : upd r (nth r h arr0) h = h.
Proof.
  revert r; induction h as [|x h IH]; intros [|r]; simpl; auto.
  f_equal. apply IH.
Qed.

Ltac heap_norm :=
  repeat (rewrite <- ?app_assoc, ?length_app, ?nth_heap_new, ?nth_heap_new0,
            ?upd_heap_new, ?upd_heap_new0, <- ?Nat.add_assoc;
          cbn [heap stdout length nth upd app Nat.add fst snd]).

(** Reads of arrays that were in the store before the method was entered. *)
Ltac heap_old :=
  repeat match goal with
         | |- context [nth ?r (?h ++ ?l) arr0] =>
             rewrite (@nth_heap_old h l r) by (assumption || lia)
         end.

(** Side conditions on concrete worlds: a valid reference or a shape. *)
Ltac concrete_side :=
  lazymatch goal with
  | |- (_ < _)%nat => cbn; lia
  | |- _ <> _ => cbn; lia
  | |- _ = _ /\ _ = _ => split; reflexivity
  | |- @eq nat _ _ => reflexivity
  | |- @eq ndarray _ _ => reflexivity
  | |- @eq bool _ _ => reflexivity
  end.

(** ** Running a method one statement at a time *)

Lemma bind_bind {A B C} (m : M A) (f : A -> M B) (k : B -> M C) w :
  bind (bind m f) k w = bind m (fun x => bind (f x) k) w.
Proof. unfold bind. destruct (m w) as [[a w']|e]; reflexivity. Qed.

Lemma bind_ret {A B} (a : A) (k : A -> M B) w : bind (ret a) k w = k a w.
Proof. reflexivity. Qed.

Lemma bind_load {B} r (k : ndarray -> M B) w :
  bind (load r) k w = k (nth r (heap w) arr0) w.
Proof. reflexivity. Qed.

Lemma bind_alloc {B} a (k : ref -> M B) w :
  bind (alloc a) k w = k (length (heap w)) (mkworld (heap w ++ [a]) (stdout w)).
Proof. reflexivity. Qed.

Lemma bind_store {B} r a (k : unit -> M B) w :
  bind (store r a) k w = k tt (mkworld (upd r a (heap w)) (stdout w)).
Proof. reflexivity. Qed.

Lemma bind_print {B} s args (k : unit -> M B) w :
  bind (print s args) k w = k tt (mkworld (heap w) (stdout w ++ [(s, args)])).
Proof. reflexivity. Qed.

Lemma bind_lift_ok {A B} (a : A) (k : A -> M B) w : bind (lift (Ok a)) k w = k a w.
Proof. reflexivity. Qed.

Lemma bind_lift_raise {A B} e (k : A -> M B) w :
  bind (lift (Raise e)) k w = Raise e.
Proof. reflexivity. Qed.

Lemma bind_eq {A B} (m : M A) (k : A -> M B) w r :
  m w = r ->
  bind m k w = match r with Ok (a, w') => k a w' | Raise e => Raise e end.
Proof. intros <-. reflexivity. Qed.

Ltac run :=
  repeat (first [ rewrite bind_bind | rewrite bind_load | rewrite bind_alloc
                | rewrite bind_store | rewrite bind_ret | rewrite bind_lift_ok
                | rewrite bind_print ];
          cbv beta; cbn [heap stdout]; heap_norm; heap_old).

(** A statement that may raise: both sides stop there, or go on. *)
Ltac run_case :=
  match goal with
  | |- bind (lift ?r) _ _ = _ =>
      destruct r; [rewrite bind_lift_ok; cbv beta|rewrite bind_lift_raise; reflexivity]
  end; cbn [res_bind].

Ltac run_with E :=
  rewrite (@bind_eq _ _ _ _ _ _ E); cbv beta iota; cbn [heap stdout]; heap_norm; heap_old.

Lemma add_bias_unit_eq X column w :
  add_bias_unit X column w =
  Ok (length (heap w),
      mkworld (heap w ++ [bias_added_value (nth X (heap w) arr0) column]) (stdout w)).
Proof.
  unfold add_bias_unit, bias_added_value. run.
  destruct column; run; reflexivity.
Qed.

Lemma relu_eq z deriv w :
  (z < length (heap w))%nat ->
  relu z deriv w =
  Ok (z, mkworld (upd z (relu_value deriv (nth z (heap w) arr0)) (heap w)) (stdout w)).
Proof.
  intros Hz.
  unfold relu, relu_value, mask_assign.
  destruct deriv; cbn [negb]; run; [|reflexivity].
  rewrite nth_upd_same, upd_upd by assumption. reflexivity.
Qed.

Lemma softmax_eq v w :
  softmax v w =
  match softmax_value (nth v (heap w) arr0) with
  | Ok a => Ok (length (heap w), mkworld (heap w ++ [a]) (stdout w))
  | Raise e => Raise e
  end.
Proof.
  unfold softmax, softmax_value. run.
  run_case. run. run_case. reflexivity.
Qed.

Lemma forward_eq self X w1 w2 w :
  (X < length (heap w))%nat -> (w1 < length (heap w))%nat ->
  (w2 < length (heap w))%nat ->
  let n := length (heap w) in
  forward self X w1 w2 w =
  match forward_values (nth X (heap w) arr0) (nth w1 (heap w) arr0)
                       (nth w2 (heap w) arr0) with
  | Ok (a1, z2, a2, z3, a3) =>
      Ok ((n, n + 1, n + 2, n + 3, n + 4)%nat,
          mkworld (heap w ++ [a1; z2; a2; z3; a3]) (stdout w))
  | Raise e => Raise e
  end.
Proof.
  intros HX Hw1 Hw2 n. subst n.
  unfold forward, forward_values.
  run_with (add_bias_unit_eq X true w). run. run_case. run.
  match goal with
  | |- bind (relu ?z _) _ ?w' = _ =>
      run_with (@relu_eq z false w' ltac:(cbn [heap]; heap_norm; lia))
  end.
  match goal with
  | |- bind (add_bias_unit ?z _) _ ?w' = _ => run_with (add_bias_unit_eq z false w')
  end.
  run. run_case. run.
  match goal with
  | |- bind (softmax ?z) _ ?w' = _ => run_with (softmax_eq z w')
  end.
  destruct (softmax_value _); [|reflexivity].
  cbn [heap stdout]. heap_norm. unfold ret.
  rewrite ?Nat.add_0_r. reflexivity.
Qed.

(** ** Sums, maxima and broadcasting *)

Lemma sigma_ext n f g :
  (forall k, (k < n)%nat -> f k = g k) -> sigma n f = sigma n g.
Proof.
  intros E. unfold sigma. f_equal. apply map_ext_in.
  intros k Hk. apply in_seq in Hk. apply E. lia.
Qed.



Lemma Rsum_nonneg l : Forall (fun x => 0 <= x) l -> 0 <= Rsum l.
Proof.
  induction 1; simpl; lra.
Qed.



Lemma fold_Rmax_ge l x : x <= fold_left Rmax l x.
Proof.
  revert x; induction l as [|y l IH]; intros x; simpl; [lra|].
  eapply Rle_trans; [apply (Rmax_l x y)|apply IH].
Qed.

Lemma fold_Rmax_upper l x y : In y l -> y <= fold_left Rmax l x.
Proof.
  revert x; induction l as [|z l IH]; intros x Hin; simpl; [contradiction|].
  destruct Hin as [->|Hin]; [|apply IH; assumption].
  eapply Rle_trans; [apply (Rmax_r x y)|apply fold_Rmax_ge].
Qed.

Lemma fold_Rmax_in l x : In (fold_left Rmax l x) (x :: l).
Proof.
  revert x; induction l as [|y l IH]; intros x; simpl; [left; reflexivity|].
  destruct (IH (Rmax x y)) as [E|Hin].
  - unfold Rmax in E at 1. destruct (Rle_dec x y); [right; left|left]; exact E.
  - right; right; exact Hin.
Qed.

Lemma in_flat a x :
  In x (np.flat a) <->
  exists i j, (i < nrows a)%nat /\ (j < ncols a)%nat /\ x = get a i j.
Proof.
  unfold np.flat. rewrite in_flat_map. split.
  - intros [i [Hi Hx]]. apply in_map_iff in Hx. destruct Hx as [j [<- Hj]].
    apply in_seq in Hi. apply in_seq in Hj. exists i, j. repeat split; lia.
  - intros [i [j [Hi [Hj ->]]]]. exists i. split; [apply in_seq; lia|].
    apply in_map_iff. exists j. split; [reflexivity|apply in_seq; lia].
Qed.

(** [np.max] returns an entry of the array that bounds every entry. *)
Lemma max_spec a m :
  np.max a = Ok m ->
  (forall i j, (i < nrows a)%nat -> (j < ncols a)%nat -> get a i j <= m) /\
  (exists i j, (i < nrows a)%nat /\ (j < ncols a)%nat /\ m = get a i j).
Proof.
  unfold np.max. destruct (np.flat a) as [|x l] eqn:E; [discriminate|].
  intros H; injection H as <-. split.
  - intros i j Hi Hj.
    assert (Hin : In (get a i j) (x :: l)).
    { rewrite <- E. apply in_flat. exists i, j. auto. }
    destruct Hin as [<-|Hin]; [apply fold_Rmax_ge|apply fold_Rmax_upper; exact Hin].
  - apply in_flat. rewrite E. apply fold_Rmax_in.
Qed.

Lemma max_ok a :
  (0 < nrows a)%nat -> (0 < ncols a)%nat -> exists m, np.max a = Ok m.
Proof.
  intros Hr Hc. unfold np.max.
  destruct (np.flat a) as [|x l] eqn:E; [|eauto].
  exfalso.
  assert (Hin : In (get a 0 0) (np.flat a)) by (apply in_flat; exists 0%nat, 0%nat; auto).
  rewrite E in Hin. exact Hin.
Qed.

Lemma bdim_refl n : np.bdim n n = Some n.
Proof. unfold np.bdim. rewrite Nat.eqb_refl. reflexivity. Qed.

Lemma bdim_1_r n : np.bdim n 1 = Some n.
Proof.
  unfold np.bdim. destruct (n =? 1)%nat eqn:E; [|reflexivity].
  reflexivity.
Qed.

Lemma bidx_lt n i : (i < n)%nat -> np.bidx n i = i.
Proof.
  intros H. unfold np.bidx. destruct (n =? 1)%nat eqn:E; [|reflexivity].
  apply Nat.eqb_eq in E. lia.
Qed.

Lemma get_map f a i j :
  (i < nrows a)%nat -> (j < ncols a)%nat -> get (np.map f a) i j = f (get a i j).
Proof. intros. unfold np.map. apply get_tab; assumption. Qed.

(** ** softmax on values *)

Lemma softmax_value_ok v :
  (0 < nrows v)%nat -> (0 < ncols v)%nat ->
  exists m,
    np.max v = Ok m /\
    softmax_shifted v = Ok (np.add_scalar v (- m)) /\
    softmax_value v =
    Ok (tab (nrows v) (ncols v) (fun i j =>
          exp (get v i j + - m) / sigma (nrows v) (fun k => exp (get v k j + - m)))).
Proof.
  intros Hr Hc. destruct (max_ok v Hr Hc) as [m Hm]. exists m.
  split; [exact Hm|].
  unfold softmax_value, softmax_shifted. rewrite Hm. cbn [res_bind].
  split; [reflexivity|].
  unfold np.div, np.zipw, np.exp, np.add_scalar, np.sum_axis0, np.map.
  rewrite ?nrows_tab, ?ncols_tab, bdim_1_r, bdim_refl. f_equal.
  apply tab_ext. intros i j Hi Hj.
  rewrite !bidx_lt by assumption. cbn [np.bidx Nat.eqb].
  rewrite (get_tab _ (i := 0) (j := j)) by lia.
  rewrite !get_tab by assumption. f_equal.
  apply sigma_ext. intros k Hk. rewrite !get_tab by assumption. reflexivity.
Qed.

(** ** Shapes *)

Lemma nrows_map f a : nrows (np.map f a) = nrows a.
Proof. reflexivity. Qed.
Lemma ncols_map f a : ncols (np.map f a) = ncols a.
Proof. reflexivity. Qed.
Lemma nrows_T a : nrows (np.T a) = ncols a.
Proof. reflexivity. Qed.
Lemma ncols_T a : ncols (np.T a) = nrows a.
Proof. reflexivity. Qed.
Lemma nrows_set_where p v a : nrows (np.set_where p v a) = nrows a.
Proof. reflexivity. Qed.
Lemma ncols_set_where p v a : ncols (np.set_where p v a) = ncols a.
Proof. reflexivity. Qed.
Lemma nrows_relu_value d z : nrows (relu_value d z) = nrows z.
Proof. destruct d; reflexivity. Qed.
Lemma ncols_relu_value d z : ncols (relu_value d z) = ncols z.
Proof. destruct d; reflexivity. Qed.
Lemma nrows_bias_col X : nrows (bias_added_value X true) = nrows X.
Proof. reflexivity. Qed.
Lemma ncols_bias_col X : ncols (bias_added_value X true) = (ncols X + 1)%nat.
Proof. reflexivity. Qed.
Lemma nrows_bias_row X : nrows (bias_added_value X false) = (nrows X + 1)%nat.
Proof. reflexivity. Qed.
Lemma ncols_bias_row X : ncols (bias_added_value X false) = ncols X.
Proof. reflexivity. Qed.
Lemma nrows_cols_from1 a : nrows (np.cols_from1 a) = nrows a.
Proof. reflexivity. Qed.
Lemma ncols_cols_from1 a : ncols (np.cols_from1 a) = (ncols a - 1)%nat.
Proof. reflexivity. Qed.
Lemma nrows_rows_from1 a : nrows (np.rows_from1 a) = (nrows a - 1)%nat.
Proof. reflexivity. Qed.
Lemma ncols_rows_from1 a : ncols (np.rows_from1 a) = ncols a.
Proof. reflexivity. Qed.
Lemma nrows_mul_scalar a s : nrows (np.mul_scalar a s) = nrows a.
Proof. reflexivity. Qed.
Lemma ncols_mul_scalar a s : ncols (np.mul_scalar a s) = ncols a.
Proof. reflexivity. Qed.
Lemma nrows_scalar_mul a s : nrows (np.scalar_mul s a) = nrows a.
Proof. reflexivity. Qed.
Lemma ncols_scalar_mul a s : ncols (np.scalar_mul s a) = ncols a.
Proof. reflexivity. Qed.
Lemma nrows_neg a : nrows (np.neg a) = nrows a.
Proof. reflexivity. Qed.
Lemma ncols_neg a : ncols (np.neg a) = ncols a.
Proof. reflexivity. Qed.
Lemma nrows_zeros r c : nrows (np.zeros r c) = r.
Proof. reflexivity. Qed.
Lemma ncols_zeros r c : ncols (np.zeros r c) = c.
Proof. reflexivity. Qed.

Lemma nrows_log a : nrows (np.log a) = nrows a.
Proof. reflexivity. Qed.
Lemma ncols_log a : ncols (np.log a) = ncols a.
Proof. reflexivity. Qed.
Lemma nrows_square a : nrows (np.square a) = nrows a.
Proof. reflexivity. Qed.
Lemma ncols_square a : ncols (np.square a) = ncols a.
Proof. reflexivity. Qed.

Create Rewrite HintDb shape.
#[export] Hint Rewrite nrows_tab ncols_tab nrows_map ncols_map nrows_T ncols_T
  nrows_set_where ncols_set_where nrows_relu_value ncols_relu_value
  nrows_bias_col ncols_bias_col nrows_bias_row ncols_bias_row
  nrows_cols_from1 ncols_cols_from1 nrows_rows_from1 ncols_rows_from1
  nrows_mul_scalar ncols_mul_scalar nrows_scalar_mul ncols_scalar_mul
  nrows_neg ncols_neg nrows_zeros ncols_zeros nrows_log ncols_log
  nrows_square ncols_square : shape.

Lemma dot_ok a b :
  ncols a = nrows b ->
  np.dot a b =
  Ok (tab (nrows a) (ncols b)
        (fun i j => sigma (ncols a) (fun k => get a i k * get b k j))).
Proof.
  intros E. unfold np.dot. rewrite E, Nat.eqb_refl. reflexivity.
Qed.

Lemma dot_inv a b z :
  np.dot a b = Ok z ->
  z = tab (nrows a) (ncols b)
        (fun i j => sigma (ncols a) (fun k => get a i k * get b k j)).
Proof.
  unfold np.dot. destruct (ncols a =? nrows b)%nat; [|discriminate].
  intros H. injection H as <-. reflexivity.
Qed.

Lemma zipw_ok f a b :
  nrows a = nrows b -> ncols a = ncols b ->
  np.zipw f a b =
  Ok (tab (nrows a) (ncols a) (fun i j => f (get a i j) (get b i j))).
Proof.
  intros Er Ec. unfold np.zipw. rewrite <- Er, <- Ec, !bdim_refl. f_equal.
  apply tab_ext. intros i j Hi Hj. rewrite !bidx_lt by assumption. reflexivity.
Qed.

(** ** forward on values *)

Section ForwardShapes.

Variables (X w1 w2 : ndarray) (N f h C : nat).
Hypothesis HX : nrows X = N /\ ncols X = f.
Hypothesis Hw1 : nrows w1 = h /\ ncols w1 = (f + 1)%nat.
Hypothesis Hw2 : nrows w2 = C /\ ncols w2 = (h + 1)%nat.
Hypothesis HN : (0 < N)%nat.
Hypothesis HC : (0 < C)%nat.

Lemma forward_values_ok :
  exists z2raw z3 a3,
    np.dot w1 (np.T (bias_added_value X true)) = Ok z2raw /\
    np.dot w2 (bias_added_value (relu_value false z2raw) false) = Ok z3 /\
    softmax_value z3 = Ok a3 /\
    forward_values X w1 w2 =
      Ok (bias_added_value X true, relu_value false z2raw,
          bias_added_value (relu_value false z2raw) false, z3, a3) /\
    (nrows z2raw = h /\ ncols z2raw = N) /\
    (nrows z3 = C /\ ncols z3 = N) /\
    (nrows a3 = C /\ ncols a3 = N).
Proof.
  destruct HX as [HX1 HX2], Hw1 as [Hw11 Hw12], Hw2 as [Hw21 Hw22].
  pose proof (dot_ok w1 (np.T (bias_added_value X true))) as E1.
  autorewrite with shape in E1. specialize (E1 ltac:(lia)).
  match type of E1 with _ = Ok ?t => set (z2raw := t) in * end.
  assert (Hz2 : nrows z2raw = h /\ ncols z2raw = N)
    by (unfold z2raw; autorewrite with shape; auto).
  pose proof (dot_ok w2 (bias_added_value (relu_value false z2raw) false)) as E2.
  autorewrite with shape in E2. specialize (E2 ltac:(lia)).
  match type of E2 with _ = Ok ?t => set (z3 := t) in * end.
  assert (Hz3 : nrows z3 = C /\ ncols z3 = N)
    by (unfold z3; autorewrite with shape; split; lia).
  destruct (softmax_value_ok z3) as [m [_ [_ Hs]]]; try lia.
  match type of Hs with _ = Ok ?t => set (a3 := t) in * end.
  exists z2raw, z3, a3. unfold forward_values.
  rewrite E1; cbn [res_bind]. rewrite E2; cbn [res_bind]. rewrite Hs; cbn [res_bind].
  repeat split; try reflexivity; try tauto.
Qed.

End ForwardShapes.

Lemma forward_ok self X w1 w2 w N f h C :
  (X < length (heap w))%nat -> (w1 < length (heap w))%nat ->
  (w2 < length (heap w))%nat ->
  nrows (nth X (heap w) arr0) = N /\ ncols (nth X (heap w) arr0) = f ->
  nrows (nth w1 (heap w) arr0) = h /\ ncols (nth w1 (heap w) arr0) = (f + 1)%nat ->
  nrows (nth w2 (heap w) arr0) = C /\ ncols (nth w2 (heap w) arr0) = (h + 1)%nat ->
  (0 < N)%nat -> (0 < C)%nat ->
  let n := length (heap w) in
  let a1 := bias_added_value (nth X (heap w) arr0) true in
  exists z2raw z3 a3,
    np.dot (nth w1 (heap w) arr0) (np.T a1) = Ok z2raw /\
    np.dot (nth w2 (heap w) arr0)
           (bias_added_value (relu_value false z2raw) false) = Ok z3 /\
    softmax_value z3 = Ok a3 /\
    forward self X w1 w2 w =
      Ok ((n, n + 1, n + 2, n + 3, n + 4)%nat,
          mkworld (heap w ++ [a1; relu_value false z2raw;
                              bias_added_value (relu_value false z2raw) false;
                              z3; a3]) (stdout w)) /\
    (nrows z2raw = h /\ ncols z2raw = N) /\
    (nrows z3 = C /\ ncols z3 = N) /\
    (nrows a3 = C /\ ncols a3 = N).
Proof.
  intros HX Hw1 Hw2 SX Sw1 Sw2 HN HC n a1.
  destruct (@forward_values_ok _ _ _ _ _ _ _ SX Sw1 Sw2 HN HC)
    as [z2raw [z3 [a3 [E1 [E2 [E3 [E4 [S2 [S3 S4]]]]]]]]].
  exists z2raw, z3, a3. repeat split; try tauto.
  rewrite forward_eq by assumption. rewrite E4. reflexivity.
Qed.

(** ** backprop *)

(** The six arrays [backprop] binds to names, as the store holds them when
    it returns: sigma3, the biased z2 after the derivative mask, sigma2,
    sigma2 without its bias row, grad1 and grad2. *)
Definition backprop_values (l2 : R) (a1 a2 a3 z2 y_enc w1 w2 : ndarray)
  : res (ndarray * ndarray * ndarray * ndarray * ndarray * ndarray) :=
  res_bind (np.sub a3 y_enc) (fun sigma3 =>
  let z2b := bias_added_value z2 false in
  res_bind (np.dot (np.T w2) sigma3) (fun l =>
  let r := relu_value true z2b in
  res_bind (np.mul l r) (fun sigma2 =>
  let sigma2' := np.rows_from1 sigma2 in
  res_bind (np.dot sigma2' a1) (fun grad1 =>
  res_bind (np.dot sigma3 (np.T a2)) (fun grad2 =>
  res_bind (np.iadd_cols_from1 grad1 (np.mul_scalar (np.cols_from1 w1) l2))
    (fun grad1' =>
  res_bind (np.iadd_cols_from1 grad2 (np.mul_scalar (np.cols_from1 w2) l2))
    (fun grad2' =>
  Ok (sigma3, r, sigma2, sigma2', grad1', grad2')))))))).

Lemma backprop_eq self a1 a2 a3 z2 y_enc w1 w2 w :
  (a1 < length (heap w))%nat -> (a2 < length (heap w))%nat ->
  (a3 < length (heap w))%nat -> (z2 < length (heap w))%nat ->
  (y_enc < length (heap w))%nat ->
  (w1 < length (heap w))%nat -> (w2 < length (heap w))%nat ->
  let n := length (heap w) in
  let v r := nth r (heap w) arr0 in
  backprop self a1 a2 a3 z2 y_enc w1 w2 w =
  match backprop_values (l2 self) (v a1) (v a2) (v a3) (v z2) (v y_enc)
                        (v w1) (v w2) with
  | Ok (sigma3, r, sigma2, sigma2', grad1, grad2) =>
      Ok ((n + 4, n + 5)%nat,
          mkworld (heap w ++ [sigma3; r; sigma2; sigma2'; grad1; grad2]) (stdout w))
  | Raise e => Raise e
  end.
Proof.
  intros Ha1 Ha2 Ha3 Hz2 Hy Hw1 Hw2 n v. subst n v. cbv beta.
  unfold backprop, backprop_values.
  run. run_case. run.
  match goal with
  | |- bind (add_bias_unit ?z _) _ ?w' = _ => run_with (add_bias_unit_eq z false w')
  end.
  run. run_case.
  match goal with
  | |- bind (relu ?z _) _ ?w' = _ =>
      run_with (@relu_eq z true w' ltac:(cbn [heap]; heap_norm; lia))
  end.
  run. run_case. run. run_case. run. run_case. run. run_case. run. run_case. run.
  unfold ret. reflexivity.
Qed.

(* ================================================================= *)
(** * Softmax as the specification words it

    "subtract column max before exponentiating": every column is shifted
    by its own maximum. *)

Definition spec_column_max (v : ndarray) (j : nat) : R :=
  fold_left Rmax (map (fun i => get v i j) (seq 1 (nrows v - 1))) (get v 0 j).

Definition spec_softmax_shifted (v : ndarray) : ndarray :=
  tab (nrows v) (ncols v) (fun i j => get v i j - spec_column_max v j).


Lemma Rsum_scale a l : Rsum (map (fun x => a * x) l) = a * Rsum l.
Proof. induction l as [|x l IH]; simpl; [ring|rewrite IH; ring]. Qed.

Lemma sigma_scale n a f : sigma n (fun k => a * f k) = a * sigma n f.
Proof. unfold sigma. rewrite <- Rsum_scale, map_map. reflexivity. Qed.






(* ================================================================= *)
(** * Properties of the forward pass *)

(** A smallest network: one sample of one feature, one hidden unit, one
    class. *)
Definition X_neg : ndarray := mkarr 1 1 [[-1]].
Definition W1_id : ndarray := mkarr 1 2 [[0; 1]].
Definition W2_zero : ndarray := mkarr 1 2 [[0; 0]].
Definition world_neg : world := mkworld [X_neg; W1_id; W2_zero] [].

Definition two_columns : ndarray := mkarr 2 2 [[0; 1000]; [0; 1000]].




(** The value the code exponentiates is not the per-column shift of the
    specification: in [[0, 1000], [0, 1000]] the code subtracts 1000 from
    the first column too. *)
Lemma softmax_shift_is_not_per_column :
  softmax_shifted two_columns <> Ok (spec_softmax_shifted two_columns).
Proof.
  intros H.
  apply (f_equal (fun r => match r with Ok a => get a 0 0 | Raise _ => 0 end)) in H.
  unfold softmax_shifted, np.max, np.add_scalar, np.map, spec_softmax_shifted,
    spec_column_max in H.
  cbn [np.flat two_columns nrows ncols seq flat_map map app fold_left res_bind Nat.sub] in H.
  rewrite !get_tab in H by (cbn; lia).
  unfold get, two_columns in H. cbn [nth rows] in H.
  unfold Rmax in H.
  repeat match type of H with
         | context [Rle_dec ?a ?b] => destruct (Rle_dec a b)
         end; lra.
Qed.

(** C3.  On the one-sample network with X = [[-1]], w1 = [[0, 1]] the
    hidden pre-activation w1 . a1^T is [[-1]], but the array [forward]
    returns as z2 holds [[0]]: [relu] rectified it in place, and the a2 that
    [relu] returned is the same array.  The arrays that were in the store
    before the call are unchanged. *)
Theorem forward_returns_rectified_z2 :
  forall self,
  exists a1 z2 a2 z3 a3 w' raw,
    forward self 0 1 2 world_neg = Ok ((a1, z2, a2, z3, a3), w') /\
    np.dot W1_id (np.T (nth a1 (heap w') arr0)) = Ok raw /\
    get raw 0 0 = -1 /\
    get (nth z2 (heap w') arr0) 0 0 = 0 /\
    nth z2 (heap w') arr0 = relu_value false raw /\
    firstn 3 (heap w') = heap world_neg.
Proof.
  intros self.
  destruct (@forward_ok self 0%nat 1%nat 2%nat world_neg 1%nat 1%nat 1%nat 1%nat)
    as [z2raw [z3 [a3 [E1 [_ [_ [E4 _]]]]]]];
    try concrete_side.
  cbn [world_neg heap nth] in E1.
  do 6 eexists. exists z2raw. split; [exact E4|].
  cbn [world_neg heap length nth Nat.add app firstn].
  split; [exact E1|].
  assert (Hraw : get z2raw 0 0 = -1).
  { rewrite dot_ok in E1 by reflexivity. injection E1 as <-.
    rewrite get_tab by (cbn; lia).
    unfold sigma, get, bias_added_value, np.set_cols_from1, np.ones, np.full.
    cbn. lra. }
  split; [exact Hraw|]. split; [|split; reflexivity].
  unfold relu_value, np.set_where. cbn [negb].
  assert (S : nrows z2raw = 1%nat /\ ncols z2raw = 1%nat).
  { rewrite dot_ok in E1 by reflexivity. injection E1 as <-. split; reflexivity. }
  destruct S as [S1 S2].
  rewrite get_map by lia. rewrite Hraw.
  unfold Rltb. destruct (Rlt_dec (-1) 0); [reflexivity|lra].
Qed.

(* ================================================================= *)
(** * The constructor *)

Definition unsupported_activation_lines : list line :=
  [("Error: unsupported activation requested."%string, []);
   ("Available activations: {}"%string, [PStrs supported_activations])].

Lemma assert_metrics_ok metrics w :
  forallb (fun m => mem_str m supported_metrics) metrics = true ->
  for_ metrics (fun elem (_ : unit) =>
                  if mem_str elem supported_metrics then ret tt
                  else lift (Raise AssertionError)) tt w = Ok (tt, w).
Proof.
  induction metrics as [|m l IH]; intros H; [reflexivity|].
  cbn [forallb] in H. apply andb_prop in H. destruct H as [Hm Hl].
  cbn [for_]. rewrite Hm. rewrite bind_ret. apply IH. exact Hl.
Qed.

Lemma init_ok n_output n_features n_hidden l2 epochs learning_rate decay_rate
    minibatch_size optimizer activation metrics u1 u2 w :
  forallb (fun m => mem_str m supported_metrics) metrics = true ->
  let n := length (heap w) in
  let W1 := np.map (fun x => x / INR (n_features + 1))
              (tab n_hidden (n_features + 1)
                   (fun i j => u1 (i * (n_features + 1) + j)%nat)) in
  let W2 := np.map (fun x => x / INR (n_hidden + 1))
              (tab n_output (n_hidden + 1)
                   (fun i j => u2 (i * (n_hidden + 1) + j)%nat)) in
  let known := mem_str activation supported_activations in
  init n_output n_features n_hidden l2 epochs learning_rate decay_rate
       minibatch_size optimizer activation metrics u1 u2 w =
  Ok (mkNN n_output n_features n_hidden n (n + 1) l2 epochs learning_rate
           decay_rate minibatch_size optimizer
           (if known then Some activation else None) metrics,
      mkworld (heap w ++ [W1; W2])
              (stdout w ++ if known then [] else unsupported_activation_lines)).
Proof.
  intros Hm n W1 W2 known. subst n W1 W2 known.
  unfold init, initialize_weights. run.
  destruct (mem_str activation supported_activations); cbn [negb]; run.
  - rewrite (@bind_eq _ _ _ _ _ _ (assert_metrics_ok _ _ Hm)). cbv beta iota.
    rewrite app_nil_r. reflexivity.
  - rewrite (@bind_eq _ _ _ _ _ _ (assert_metrics_ok _ _ Hm)). cbv beta iota.
    reflexivity.
Qed.

(** C4, as the code has it.  Given an activation name outside
    {relu, tanh, sigmoid} the constructor returns an instance, prints two
    lines and leaves the attribute [activation] unset, so reading it raises
    AttributeError; [forward] does not read it, and on that instance a
    forward pass over N >= 1 samples returns as it does on any other. *)
Theorem init_unsupported_activation_forward_runs :
  forall n_output n_features n_hidden l2 epochs learning_rate decay_rate
         minibatch_size optimizer name metrics u1 u2 w,
    mem_str name supported_activations = false ->
    forallb (fun m => mem_str m supported_metrics) metrics = true ->
    exists self w',
      init n_output n_features n_hidden l2 epochs learning_rate decay_rate
           minibatch_size optimizer name metrics u1 u2 w = Ok (self, w') /\
      activation self = None /\
      getattr_activation self = Raise AttributeError /\
      stdout w' = stdout w ++ unsupported_activation_lines /\
      (forall X N,
         (X < length (heap w'))%nat ->
         nrows (nth X (heap w') arr0) = N /\
         ncols (nth X (heap w') arr0) = n_features ->
         (0 < N)%nat -> (0 < n_output)%nat ->
         exists r w'', forward self X (w1 self) (w2 self) w' = Ok (r, w'')).
Proof.
  intros n_output n_features n_hidden l2 epochs learning_rate decay_rate
         minibatch_size optimizer name metrics u1 u2 w Hact Hm.
  do 2 eexists. split.
  { rewrite init_ok by exact Hm. rewrite Hact. reflexivity. }
  cbn [activation getattr_activation heap stdout w1 w2].
  repeat split.
  intros X N HX SX HN HC.
  rewrite length_app in HX. cbn [length] in HX.
  match goal with
  | |- exists r w'', forward ?s X ?a ?b ?w0 = _ =>
      destruct (@forward_ok s X a b w0 N n_features n_hidden n_output)
        as [z2raw [z3 [a3 [_ [_ [_ [E _]]]]]]];
        try assumption;
        try (cbn [heap]; rewrite length_app; cbn [length]; lia);
        try (cbn [heap]; heap_norm; split; reflexivity)
  end.
  do 2 eexists. exact E.
Qed.

Lemma init_unsupported_activation_forward_runs_witness :
  exists self w',
    init 1 1 1 0 1 1 0 1 "Gradient Descent" "softplus" ["Accuracy"%string]
         (fun _ => 0) (fun _ => 0) (mkworld [X_neg] []) = Ok (self, w') /\
    activation self = None /\
    stdout w' = unsupported_activation_lines.
Proof.
  destruct (@init_unsupported_activation_forward_runs
              1%nat 1%nat 1%nat 0 1%nat 1 0 1%nat "Gradient Descent" "softplus"
              ["Accuracy"%string] (fun _ => 0) (fun _ => 0) (mkworld [X_neg] []))
    as [self [w' [H1 [H2 [_ [H3 _]]]]]]; [reflexivity|reflexivity|].
  exists self, w'. auto.
Defined.

(** An instance built with the unsupported name "softplus" runs a forward
    pass to completion. *)
Lemma unsupported_activation_forward_returns :
  exists self w' r w'',
    init 1 1 1 0 1 1 0 1 "Gradient Descent" "softplus" ["Accuracy"%string]
         (fun _ => 0) (fun _ => 0) (mkworld [X_neg] []) = Ok (self, w') /\
    activation self = None /\
    forward self 0 (w1 self) (w2 self) w' = Ok (r, w'').
Proof.
  pose proof (@init_ok 1%nat 1%nat 1%nat 0 1%nat 1 0 1%nat "Gradient Descent"
                "softplus" ["Accuracy"%string] (fun _ => 0) (fun _ => 0)
                (mkworld [X_neg] []) eq_refl) as Hi.
  cbv zeta in Hi.
  change (mem_str "softplus" supported_activations) with false in Hi.
  cbv iota in Hi.
  match type of Hi with
  | _ = Ok (?s, ?w0) =>
      destruct (@forward_ok s 0%nat (w1 s) (w2 s) w0 1%nat 1%nat 1%nat 1%nat)
        as [z2raw [z3 [a3 [_ [_ [_ [E' _]]]]]]];
        try concrete_side;
      exists s, w0
  end.
  do 2 eexists. split; [exact Hi|]. split; [reflexivity|exact E'].
Qed.

(* ================================================================= *)
(** * The cost *)

(** The two terms of the cost, entry by entry. *)
Definition cross_entropy (y_enc output : ndarray) : R :=
  - sigma (nrows y_enc) (fun i =>
      sigma (ncols y_enc) (fun j => get y_enc i j * ln (get output i j))).

Definition sum_sq_nonbias (w : ndarray) : R :=
  sigma (nrows w) (fun i =>
    sigma (ncols w - 1) (fun j => get w i (S j) * get w i (S j))).

Definition l2_penalty (l2 : R) (w1 w2 : ndarray) : R :=
  (l2 / 2) * (sum_sq_nonbias w1 + sum_sq_nonbias w2).

Lemma Rsum_app l l' : Rsum (l ++ l') = Rsum l + Rsum l'.
Proof. induction l as [|x l IH]; simpl; [ring|rewrite IH; ring]. Qed.

Lemma Rsum_flat_map {A} (g : A -> list R) l :
  Rsum (flat_map g l) = Rsum (map (fun x => Rsum (g x)) l).
Proof.
  induction l as [|x l IH]; simpl; [reflexivity|].
  rewrite Rsum_app, IH. reflexivity.
Qed.

Lemma sum_sigma a :
  np.sum a = sigma (nrows a) (fun i => sigma (ncols a) (fun j => get a i j)).
Proof. unfold np.sum, np.flat. rewrite Rsum_flat_map. reflexivity. Qed.

Lemma sum_tab r c f :
  np.sum (tab r c f) = sigma r (fun i => sigma c (fun j => f i j)).
Proof.
  rewrite sum_sigma, nrows_tab, ncols_tab.
  apply sigma_ext. intros i Hi. apply sigma_ext. intros j Hj.
  apply get_tab; assumption.
Qed.

Lemma sum_square_nonbias w :
  np.sum (np.square (np.cols_from1 w)) = sum_sq_nonbias w.
Proof.
  unfold np.square, np.map. rewrite sum_tab. autorewrite with shape.
  apply sigma_ext. intros i Hi. apply sigma_ext. intros j Hj.
  unfold np.cols_from1. rewrite get_tab by assumption. reflexivity.
Qed.

Lemma get_cost_eq self y_enc output w1 w2 w :
  let v r := nth r (heap w) arr0 in
  get_cost self y_enc output w1 w2 w =
  match np.mul (v y_enc) (np.log (v output)) with
  | Ok p => Ok ((- np.sum p + l2_penalty (l2 self) (v w1) (v w2))
                / INR (ncols (v y_enc)), w)
  | Raise e => Raise e
  end.
Proof.
  intros v. subst v. cbv beta. unfold get_cost. run. run_case.
  unfold ret, l2_penalty. rewrite !sum_square_nonbias. destruct w; reflexivity.
Qed.

Lemma get_cost_ok self y_enc output w1 w2 w C M :
  nrows (nth y_enc (heap w) arr0) = C /\ ncols (nth y_enc (heap w) arr0) = M ->
  nrows (nth output (heap w) arr0) = C /\ ncols (nth output (heap w) arr0) = M ->
  get_cost self y_enc output w1 w2 w =
  Ok ((cross_entropy (nth y_enc (heap w) arr0) (nth output (heap w) arr0)
       + l2_penalty (l2 self) (nth w1 (heap w) arr0) (nth w2 (heap w) arr0))
      / INR M, w).
Proof.
  intros [Y1 Y2] [O1 O2]. rewrite get_cost_eq. cbv zeta.
  unfold np.mul. rewrite zipw_ok by (autorewrite with shape; congruence).
  rewrite sum_tab, Y2. unfold cross_entropy. rewrite Y2.
  do 5 f_equal. apply sigma_ext. intros i Hi. apply sigma_ext. intros j Hj.
  unfold np.log. rewrite get_map by lia. reflexivity.
Qed.

Definition Y_ones : ndarray := mkarr 1 2 [[1; 1]].
Definition world_cost : world := mkworld [Y_ones; Y_ones; W1_id; W2_zero] [].
Definition nn_l2 (l2 : R) : NeuralNetwork :=
  mkNN 1 1 1 2 3 l2 1 1 0 1 "" (Some "relu"%string) [].

(** C1, as the code has it.  For M >= 1 samples and an output whose
    entries are all positive (where [np.log] is the logarithm and the
    division is by a number that is not zero), [get_cost] adds the L2 term
    to the summed cross-entropy and then divides the total by M: in exact
    arithmetic the result is -sum(y_enc * log(output)) / M plus
    (l2/2) * (sum of squared non-bias weights) / M, so the L2 term is
    averaged as well. *)
Theorem get_cost_averages_both_terms :
  forall self y_enc output w1 w2 w C M,
    nrows (nth y_enc (heap w) arr0) = C /\ ncols (nth y_enc (heap w) arr0) = M ->
    nrows (nth output (heap w) arr0) = C /\ ncols (nth output (heap w) arr0) = M ->
    (0 < M)%nat ->
    (forall i j, (i < C)%nat -> (j < M)%nat -> 0 < get (nth output (heap w) arr0) i j) ->
    exists cost,
      get_cost self y_enc output w1 w2 w = Ok (cost, w) /\
      cost =
        cross_entropy (nth y_enc (heap w) arr0) (nth output (heap w) arr0) / INR M
        + l2_penalty (l2 self) (nth w1 (heap w) arr0) (nth w2 (heap w) arr0) / INR M.
Proof.
  intros self y_enc output w1 w2 w C M HY HO HM Hpos.
  eexists. split; [apply (get_cost_ok self y_enc output w1 w2 w HY HO)|].
  unfold Rdiv. ring.
Qed.

Lemma cost_example_terms :
  cross_entropy Y_ones Y_ones = 0 /\ l2_penalty 2 W1_id W2_zero = 1.
Proof.
  unfold cross_entropy, l2_penalty, sum_sq_nonbias, sigma, get. cbn.
  rewrite ln_1. split; lra.
Qed.

Lemma get_cost_averages_both_terms_witness :
  exists cost,
    get_cost (nn_l2 2) 0 1 2 3 world_cost = Ok (cost, world_cost) /\ cost = 1 / 2.
Proof.
  destruct (@get_cost_averages_both_terms (nn_l2 2) 0%nat 1%nat 2%nat 3%nat
              world_cost 1%nat 2%nat) as [cost [H1 H2]];
    [split; reflexivity|split; reflexivity|lia| |].
  { intros [|i] [|[|j]] Hi Hj; try lia; cbn; lra. }
  exists cost. split; [exact H1|].
  rewrite H2. cbn [world_cost heap nth nn_l2 l2].
  destruct cost_example_terms as [-> ->]. cbn [INR]. lra.
Defined.

(** With two samples, l2 = 2 and one non-bias weight equal to 1, the
    cross-entropy is 0 and the L2 term is 1: the code returns 1/2, not the
    0/2 + 1 of an L2 term that is left un-averaged. *)
Lemma get_cost_divides_l2_term :
  exists cost,
    get_cost (nn_l2 2) 0 1 2 3 world_cost = Ok (cost, world_cost) /\
    cost = 1 / 2 /\
    cost <> cross_entropy Y_ones Y_ones / INR 2 + l2_penalty 2 W1_id W2_zero.
Proof.
  eexists. split.
  { apply (@get_cost_ok (nn_l2 2) 0%nat 1%nat 2%nat 3%nat world_cost 1%nat 2%nat);
      split; reflexivity. }
  cbn [world_cost heap nth nn_l2 l2].
  destruct cost_example_terms as [-> ->]. cbn [INR]. split; lra.
Qed.

(* ================================================================= *)
(** * Backpropagation *)

(** A gradient [g] after the regularization statement
    [g[:, 1:] += w[:, 1:] * l2]. *)
Definition regularized (l2 : R) (g w : ndarray) : ndarray :=
  tab (nrows g) (ncols g) (fun i j =>
    match j with
    | O => get g i 0
    | S _ => get g i j + get w i j * l2
    end).

Lemma nrows_regularized l2 g w : nrows (regularized l2 g w) = nrows g.
Proof. reflexivity. Qed.
Lemma ncols_regularized l2 g w : ncols (regularized l2 g w) = ncols g.
Proof. reflexivity. Qed.
#[export] Hint Rewrite nrows_regularized ncols_regularized : shape.

Lemma iadd_cols_from1_ok g w l2 :
  nrows w = nrows g -> ncols w = ncols g ->
  np.iadd_cols_from1 g (np.mul_scalar (np.cols_from1 w) l2) = Ok (regularized l2 g w).
Proof.
  intros Er Ec. unfold np.iadd_cols_from1, np.fits.
  autorewrite with shape. rewrite Er, Ec, !Nat.eqb_refl. cbn [orb andb].
  f_equal. unfold regularized. apply tab_ext. intros i [|j] Hi Hj; [reflexivity|].
  f_equal. rewrite !bidx_lt by lia.
  unfold np.mul_scalar. rewrite get_map by (autorewrite with shape; lia).
  unfold np.cols_from1. rewrite get_tab by lia. reflexivity.
Qed.

Section BackpropShapes.

Variables (a1 a2 a3 z2 y_enc w1 w2 : ndarray) (N f h C : nat).
Hypothesis Ha1 : nrows a1 = N /\ ncols a1 = (f + 1)%nat.
Hypothesis Ha2 : nrows a2 = (h + 1)%nat /\ ncols a2 = N.
Hypothesis Ha3 : nrows a3 = C /\ ncols a3 = N.
Hypothesis Hz2 : nrows z2 = h /\ ncols z2 = N.
Hypothesis Hy : nrows y_enc = C /\ ncols y_enc = N.
Hypothesis Hw1 : nrows w1 = h /\ ncols w1 = (f + 1)%nat.
Hypothesis Hw2 : nrows w2 = C /\ ncols w2 = (h + 1)%nat.

(** The gradients before the regularization statements do not depend on
    l2; the regularization adds l2 * w outside the first column. *)
Lemma backprop_values_ok :
  exists sigma3 sigma2 g1 g2,
    np.sub a3 y_enc = Ok sigma3 /\
    np.dot (np.rows_from1 sigma2) a1 = Ok g1 /\
    np.dot sigma3 (np.T a2) = Ok g2 /\
    (nrows g1 = h /\ ncols g1 = (f + 1)%nat) /\
    (nrows g2 = C /\ ncols g2 = (h + 1)%nat) /\
    forall l2,
      backprop_values l2 a1 a2 a3 z2 y_enc w1 w2 =
      Ok (sigma3, relu_value true (bias_added_value z2 false), sigma2,
          np.rows_from1 sigma2, regularized l2 g1 w1, regularized l2 g2 w2).
Proof.
  destruct Ha1 as [A11 A12], Ha2 as [A21 A22], Ha3 as [A31 A32],
           Hz2 as [Z1 Z2], Hy as [Y1 Y2], Hw1 as [W11 W12], Hw2 as [W21 W22].
  pose proof (@zipw_ok Rminus a3 y_enc) as E1.
  specialize (E1 ltac:(congruence) ltac:(congruence)).
  match type of E1 with _ = Ok ?t => set (sigma3 := t) in * end.
  assert (S3 : nrows sigma3 = C /\ ncols sigma3 = N) by (split; assumption).
  pose proof (dot_ok (np.T w2) sigma3) as E2.
  autorewrite with shape in E2. specialize (E2 ltac:(lia)).
  match type of E2 with _ = Ok ?t => set (l := t) in * end.
  pose proof (@zipw_ok Rmult l (relu_value true (bias_added_value z2 false))) as E3.
  unfold l in E3 at 1 2. autorewrite with shape in E3.
  specialize (E3 ltac:(lia) ltac:(lia)).
  match type of E3 with _ = Ok ?t => set (sigma2 := t) in * end.
  assert (S2 : nrows sigma2 = (h + 1)%nat /\ ncols sigma2 = N)
    by (unfold sigma2, l; autorewrite with shape; split; lia).
  pose proof (dot_ok (np.rows_from1 sigma2) a1) as E4.
  autorewrite with shape in E4. specialize (E4 ltac:(lia)).
  match type of E4 with _ = Ok ?t => set (g1 := t) in * end.
  assert (G1 : nrows g1 = h /\ ncols g1 = (f + 1)%nat)
    by (unfold g1; autorewrite with shape; split; lia).
  pose proof (dot_ok sigma3 (np.T a2)) as E5.
  autorewrite with shape in E5. specialize (E5 ltac:(lia)).
  match type of E5 with _ = Ok ?t => set (g2 := t) in * end.
  assert (G2 : nrows g2 = C /\ ncols g2 = (h + 1)%nat)
    by (unfold g2; autorewrite with shape; split; lia).
  exists sigma3, sigma2, g1, g2.
  repeat split; try tauto.
  intros l2. unfold backprop_values.
  unfold np.sub. rewrite E1. cbn [res_bind]. rewrite E2. cbn [res_bind].
  unfold np.mul. rewrite E3. cbn [res_bind]. rewrite E4. cbn [res_bind].
  rewrite E5. cbn [res_bind].
  rewrite !iadd_cols_from1_ok by lia. reflexivity.
Qed.

End BackpropShapes.




Lemma backprop_ok a1 a2 a3 z2 y_enc w1 w2 w N f h C :
  (a1 < length (heap w))%nat -> (a2 < length (heap w))%nat ->
  (a3 < length (heap w))%nat -> (z2 < length (heap w))%nat ->
  (y_enc < length (heap w))%nat ->
  (w1 < length (heap w))%nat -> (w2 < length (heap w))%nat ->
  let v r := nth r (heap w) arr0 in
  nrows (v a1) = N /\ ncols (v a1) = (f + 1)%nat ->
  nrows (v a2) = (h + 1)%nat /\ ncols (v a2) = N ->
  nrows (v a3) = C /\ ncols (v a3) = N ->
  nrows (v z2) = h /\ ncols (v z2) = N ->
  nrows (v y_enc) = C /\ ncols (v y_enc) = N ->
  nrows (v w1) = h /\ ncols (v w1) = (f + 1)%nat ->
  nrows (v w2) = C /\ ncols (v w2) = (h + 1)%nat ->
  let n := length (heap w) in
  exists sigma3 sigma2 g1 g2,
    (nrows g1 = h /\ ncols g1 = (f + 1)%nat) /\
    (nrows g2 = C /\ ncols g2 = (h + 1)%nat) /\
    forall self,
      backprop self a1 a2 a3 z2 y_enc w1 w2 w =
      Ok ((n + 4, n + 5)%nat,
          mkworld (heap w ++ [sigma3; relu_value true (bias_added_value (v z2) false);
                              sigma2; np.rows_from1 sigma2;
                              regularized (l2 self) g1 (v w1);
                              regularized (l2 self) g2 (v w2)])
                  (stdout w)).
Proof.
  intros Ha1 Ha2 Ha3 Hz2 Hy Hw1 Hw2 v S1 S2 S3 S4 S5 S6 S7 n.
  destruct (@backprop_values_ok _ _ _ _ _ _ _ N f h C S1 S2 S3 S4 S5 S6 S7)
    as [sigma3 [sigma2 [g1 [g2 [_ [_ [_ [G1 [G2 E]]]]]]]]].
  exists sigma3, sigma2, g1, g2. repeat split; try tauto.
  intros self. rewrite backprop_eq by assumption. cbv zeta.
  fold v. rewrite E. reflexivity.
Qed.



(** a1, a2, a3, z2, y_enc, w1, w2 of a one-sample, one-unit, one-class pass. *)
Definition world_bp : world :=
  mkworld [mkarr 1 2 [[1; -1]]; mkarr 2 1 [[1]; [0]]; mkarr 1 1 [[1]];
           mkarr 1 1 [[-1]]; mkarr 1 1 [[1]]; W1_id; W2_zero] [].



(* ================================================================= *)
(** * relu and its derivative mask *)

(** The entries after [relud[relud < 0] = 0], and after
    [deriv[deriv <= 0] = 0; deriv[deriv > 0] = 1]. *)
Definition rectify (x : R) : R := if Rltb x 0 then 0 else x.
Definition deriv_mask (x : R) : R :=
  (fun y => if Rltb 0 y then 1 else y) (if Rleb x 0 then 0 else x).

Lemma deriv_mask_spec x : deriv_mask x = if Rltb 0 x then 1 else 0.
Proof.
  unfold deriv_mask, Rltb, Rleb.
  destruct (Rle_dec x 0), (Rlt_dec 0 x), (Rlt_dec 0 0); try lra; reflexivity.
Qed.

Lemma deriv_mask_rectify x : deriv_mask (rectify x) = deriv_mask x.
Proof.
  rewrite !deriv_mask_spec. unfold rectify, Rltb.
  destruct (Rlt_dec x 0), (Rlt_dec 0 x), (Rlt_dec 0 0); try lra; reflexivity.
Qed.

Lemma relu_value_false z : relu_value false z = np.map rectify z.
Proof. reflexivity. Qed.

Lemma relu_value_true z :
  relu_value true z = tab (nrows z) (ncols z) (fun i j => deriv_mask (get z i j)).
Proof.
  unfold relu_value, np.set_where, np.map. cbn [negb]. autorewrite with shape.
  apply tab_ext. intros i j Hi Hj. rewrite get_tab by assumption. reflexivity.
Qed.

Lemma relu_deriv_after_relu z :
  relu_value true (relu_value false z) = relu_value true z.
Proof.
  rewrite !relu_value_true, relu_value_false. autorewrite with shape.
  apply tab_ext. intros i j Hi Hj. rewrite get_map by assumption.
  apply deriv_mask_rectify.
Qed.

Lemma get_bias_row z i j :
  (i < nrows z + 1)%nat -> (j < ncols z)%nat ->
  get (bias_added_value z false) i j =
  match i with O => 1 | S i' => get z i' j end.
Proof.
  intros Hi Hj. unfold bias_added_value, np.set_rows_from1, np.ones, np.full.
  rewrite nrows_tab, ncols_tab, get_tab by assumption.
  destruct i; [|reflexivity]. apply get_tab; lia.
Qed.

Lemma relu_deriv_bias_after_relu z :
  relu_value true (bias_added_value (relu_value false z) false) =
  relu_value true (bias_added_value z false).
Proof.
  rewrite !relu_value_true. autorewrite with shape.
  apply tab_ext. intros i j Hi Hj.
  rewrite !get_bias_row by (autorewrite with shape; assumption).
  destruct i as [|i]; [reflexivity|].
  rewrite relu_value_false, get_map by lia. apply deriv_mask_rectify.
Qed.

Lemma backprop_values_rectified l2 a1 a2 a3 z2 y_enc w1 w2 :
  backprop_values l2 a1 a2 a3 (relu_value false z2) y_enc w1 w2 =
  backprop_values l2 a1 a2 a3 z2 y_enc w1 w2.
Proof.
  unfold backprop_values. rewrite relu_deriv_bias_after_relu. reflexivity.
Qed.

(** C10.  Applied to an array that [relu] has rectified, the derivative
    branch of [relu] leaves what it leaves on the original array: 1 where
    the original entry is positive, 0 elsewhere.  Hence [backprop] run on a
    store in which z2 has been rectified in place returns the same
    gradients, and builds the same sigma2, as on the store holding the
    original z2. *)
Theorem relu_mask_unchanged_by_rectification :
  (forall z w,
     (z < length (heap w))%nat ->
     bind (relu z false) (fun r => relu r true) w = relu z true w /\
     exists wd,
       relu z true w = Ok (z, wd) /\
       nrows (nth z (heap wd) arr0) = nrows (nth z (heap w) arr0) /\
       ncols (nth z (heap wd) arr0) = ncols (nth z (heap w) arr0) /\
       forall i j, (i < nrows (nth z (heap w) arr0))%nat ->
                   (j < ncols (nth z (heap w) arr0))%nat ->
         get (nth z (heap wd) arr0) i j =
         if Rltb 0 (get (nth z (heap w) arr0) i j) then 1 else 0) /\
  (forall self a1 a2 a3 z2 y_enc w1 w2 w,
     (a1 < length (heap w))%nat -> (a2 < length (heap w))%nat ->
     (a3 < length (heap w))%nat -> (z2 < length (heap w))%nat ->
     (y_enc < length (heap w))%nat ->
     (w1 < length (heap w))%nat -> (w2 < length (heap w))%nat ->
     z2 <> a1 -> z2 <> a2 -> z2 <> a3 -> z2 <> y_enc -> z2 <> w1 -> z2 <> w2 ->
     exists wz,
       relu z2 false w = Ok (z2, wz) /\
       (forall g w', backprop self a1 a2 a3 z2 y_enc w1 w2 w = Ok (g, w') ->
          exists w'', backprop self a1 a2 a3 z2 y_enc w1 w2 wz = Ok (g, w'') /\
                      forall r, r <> z2 ->
                        nth r (heap w'') arr0 = nth r (heap w') arr0) /\
       (forall e, backprop self a1 a2 a3 z2 y_enc w1 w2 w = Raise e ->
                  backprop self a1 a2 a3 z2 y_enc w1 w2 wz = Raise e)).
Proof.
  split.
  - intros z w Hz. split.
    + rewrite (@bind_eq _ _ _ _ _ _ (relu_eq false w Hz)). cbv beta iota.
      rewrite !relu_eq by (cbn [heap]; rewrite ?length_upd; assumption).
      cbn [heap stdout]. rewrite nth_upd_same, upd_upd by assumption.
      rewrite relu_deriv_after_relu. reflexivity.
    + eexists. split; [apply (relu_eq true w Hz)|].
      cbn [heap]. rewrite nth_upd_same by assumption.
      rewrite relu_value_true. repeat split.
      intros i j Hi Hj. rewrite get_tab by assumption. apply deriv_mask_spec.
  - intros self a1 a2 a3 z2 y_enc w1 w2 w Ha1 Ha2 Ha3 Hz2 Hy Hw1 Hw2
           N1 N2 N3 N4 N5 N6.
    eexists. split; [apply (relu_eq false w Hz2)|].
    rewrite (@backprop_eq self a1 a2 a3 z2 y_enc w1 w2 w) by assumption.
    rewrite (@backprop_eq self a1 a2 a3 z2 y_enc w1 w2)
      by (cbn [heap]; rewrite length_upd; assumption).
    cbv zeta. cbn [heap stdout]. rewrite length_upd.
    rewrite (@nth_upd_other z2 a1), (@nth_upd_other z2 a2), (@nth_upd_other z2 a3),
      (@nth_upd_other z2 y_enc), (@nth_upd_other z2 w1), (@nth_upd_other z2 w2)
      by assumption.
    rewrite nth_upd_same by assumption.
    rewrite backprop_values_rectified.
    destruct (backprop_values _ _ _ _ _ _ _ _) as [[[[[[s3 r] s2] s2'] g1] g2]|e].
    + split; [|intros e H; discriminate].
      intros g w' H. injection H as <- <-. eexists. split; [reflexivity|].
      intros r0 Hr. cbn [heap].
      rewrite <- upd_heap_old by assumption.
      apply nth_upd_other. congruence.
    + split; [intros g w' H; discriminate|].
      intros e' H. exact H.
Qed.

Lemma relu_mask_unchanged_by_rectification_witness :
  (exists wd, relu 3 true world_bp = Ok (3%nat, wd) /\
              get (nth 3 (heap wd) arr0) 0 0 = 0) /\
  (exists wz w' w'',
     relu 3 false world_bp = Ok (3%nat, wz) /\
     backprop (nn_l2 2) 0 1 2 3 4 5 6 world_bp = Ok ((11, 12)%nat, w') /\
     backprop (nn_l2 2) 0 1 2 3 4 5 6 wz = Ok ((11, 12)%nat, w'') /\
     nth 11 (heap w'') arr0 = nth 11 (heap w') arr0 /\
     nth 12 (heap w'') arr0 = nth 12 (heap w') arr0).
Proof.
  destruct relu_mask_unchanged_by_rectification as [HA HB]. split.
  - destruct (HA 3%nat world_bp) as [_ [wd [H1 [_ [_ H2]]]]]; [cbn; lia|].
    exists wd. split; [exact H1|].
    rewrite H2 by (cbn; lia). cbn. unfold Rltb.
    destruct (Rlt_dec 0 (-1)); [lra|reflexivity].
  - destruct (HB (nn_l2 2) 0%nat 1%nat 2%nat 3%nat 4%nat 5%nat 6%nat world_bp)
      as [wz [H1 [H2 _]]]; try concrete_side.
    destruct (@backprop_ok 0%nat 1%nat 2%nat 3%nat 4%nat 5%nat 6%nat world_bp
                1%nat 1%nat 1%nat 1%nat)
      as [s3 [s2 [g1 [g2 [_ [_ E]]]]]]; try concrete_side.
    specialize (E (nn_l2 2)).
    destruct (H2 _ _ E) as [w'' [H3 H4]].
    exists wz. do 2 eexists. split; [exact H1|]. split; [exact E|].
    split; [exact H3|]. split; apply H4; lia.
Defined.

(* ================================================================= *)
(** * Softmax on a batch *)

(** Two samples of one feature, 0 and 1000, one hidden unit that copies the
    feature and two classes that copy the hidden unit: z3 is
    [[0, 1000], [0, 1000]]. *)
Definition world_far : world :=
  mkworld [mkarr 2 1 [[0]; [1000]]; W1_id; mkarr 2 2 [[0; 1]; [0; 1]]] [].

(** The non-negative reals that binary64 represents by 0.0: those below
    half of its least positive number 2^-1074. *)
Definition rounds_to_zero (x : R) : Prop := 0 <= x < / 2 ^ 1075.

Lemma exp_INR_mult n x : exp (INR n * x) = exp x ^ n.
Proof.
  induction n as [|n IH].
  - cbn [INR pow]. rewrite Rmult_0_l. apply exp_0.
  - rewrite S_INR, Rmult_plus_distr_r, Rmult_1_l, exp_plus, IH. cbn [pow]. ring.
Qed.

Lemma exp_minus_1000_rounds_to_zero : rounds_to_zero (exp (-1000)).
Proof.
  split; [left; apply exp_pos|].
  assert (H15 : 3 / 2 <= exp (1 / 2)).
  { left. replace (3 / 2) with (1 + 1 / 2) by lra. apply exp_ineq1. lra. }
  assert (Hpow : (3 / 2) ^ 2000 <= exp 1000).
  { replace 1000 with (INR 2000 * (1 / 2)).
    - rewrite exp_INR_mult. apply pow_incr. split; [lra|exact H15].
    - rewrite INR_IZR_INZ.
      replace (Z.of_nat 2000) with 2000%Z by (vm_compute; reflexivity). lra. }
  assert (Hz : 2 ^ 3075 < 3 ^ 2000).
  { rewrite !pow_IZR. apply IZR_lt.
    apply Z.ltb_lt. vm_compute. reflexivity. }
  assert (H2 : 0 < 2 ^ 2000) by (apply pow_lt; lra).
  assert (H3 : 2 ^ 1075 < (3 / 2) ^ 2000).
  { unfold Rdiv. rewrite Rpow_mult_distr, pow_inv.
    apply (Rmult_lt_reg_r (2 ^ 2000)); [exact H2|].
    rewrite Rmult_assoc, Rinv_l by lra. rewrite Rmult_1_r.
    rewrite <- pow_add. exact Hz. }
  replace (exp (-1000)) with (/ exp 1000) by (rewrite <- exp_Ropp; f_equal; lra).
  apply Rinv_lt_contravar; [|lra].
  apply Rmult_lt_0_compat; [apply pow_lt; lra|apply exp_pos].
Qed.

(** C2.  The defect on a batch.  On the batch above [forward] returns
    z3 = [[0, 1000], [0, 1000]], and [softmax] shifts the whole matrix by
    its maximum 1000: the entries of the first column that it exponentiates
    are -1000, where the shift by the column's own maximum gives 0.  The
    real number exp(-1000) is below half of the least positive binary64
    number, so both exponentials of that column are 0.0 in binary64; their
    sum is 0.0 and the quotient 0.0 / 0.0 is nan: the probabilities of the
    first sample are nan and do not sum to 1. *)
Theorem forward_softmax_shift_underflows :
  forall self,
  exists a1 z2 a2 z3 a3 w' shifted,
    forward self 0 1 2 world_far = Ok ((a1, z2, a2, z3, a3), w') /\
    (get (nth z3 (heap w') arr0) 0 0 = 0 /\ get (nth z3 (heap w') arr0) 1 0 = 0 /\
     get (nth z3 (heap w') arr0) 0 1 = 1000 /\
     get (nth z3 (heap w') arr0) 1 1 = 1000) /\
    softmax_shifted (nth z3 (heap w') arr0) = Ok shifted /\
    (get shifted 0 0 = -1000 /\ get shifted 1 0 = -1000) /\
    get (spec_softmax_shifted (nth z3 (heap w') arr0)) 0 0 = 0 /\
    rounds_to_zero (exp (get shifted 0 0)) /\
    rounds_to_zero (exp (get shifted 1 0)) /\
    PrimFloat.is_nan (PrimFloat.div 0 (PrimFloat.add 0 0)) = true.
Proof.
  intros self.
  destruct (@forward_ok self 0%nat 1%nat 2%nat world_far 2%nat 1%nat 1%nat 2%nat)
    as [z2raw [z3 [a3 [E1 [E2 [_ [E4 [[S21 S22] [[S31 S32] _]]]]]]]]];
    try concrete_side.
  cbn [world_far heap nth] in E1, E2.
  assert (Hz2 : get z2raw 0 0 = 0 /\ get z2raw 0 1 = 1000).
  { apply dot_inv in E1. rewrite E1. rewrite !get_tab by (cbn; lia).
    unfold sigma, get, bias_added_value, np.set_cols_from1, np.ones, np.full, np.T.
    cbn. split; lra. }
  destruct Hz2 as [Hz20 Hz21].
  assert (Hr : forall j, (j < 2)%nat ->
             get (relu_value false z2raw) 0 j = get z2raw 0 j).
  { intros j Hj. rewrite relu_value_false, get_map by lia. unfold rectify, Rltb.
    destruct (Rlt_dec (get z2raw 0 j) 0) as [Hn|Hn]; [|reflexivity].
    destruct j as [|[|j]]; [rewrite Hz20 in Hn|rewrite Hz21 in Hn|lia]; lra. }
  assert (Hz3 : forall i j, (i < 2)%nat -> (j < 2)%nat -> get z3 i j = get z2raw 0 j).
  { intros i j Hi Hj. apply dot_inv in E2. rewrite E2.
    rewrite get_tab by (autorewrite with shape; cbn; lia).
    cbn [ncols]. unfold sigma. cbn [seq map Rsum fold_right].
    rewrite !get_bias_row by (autorewrite with shape; lia).
    rewrite Hr by exact Hj.
    destruct i as [|[|i]]; [| |lia]; unfold get; cbn [rows nth]; lra. }
  destruct (@softmax_value_ok z3) as [m [Hm [Hsh _]]]; try lia.
  assert (Em : m = 1000).
  { destruct (max_spec _ Hm) as [Hub [i [j [Hi [Hj Hij]]]]].
    rewrite S31 in Hi, Hub. rewrite S32 in Hj, Hub.
    pose proof (Hub 0%nat 1%nat ltac:(lia) ltac:(lia)) as H1.
    rewrite Hz3, Hz21 in H1 by lia.
    rewrite Hz3 in Hij by assumption.
    destruct j as [|[|j]]; [rewrite Hz20 in Hij|rewrite Hz21 in Hij|lia]; lra. }
  subst m.
  assert (Hs : forall i, (i < 2)%nat -> get (np.add_scalar z3 (- 1000)) i 0 = -1000).
  { intros i Hi. unfold np.add_scalar. rewrite get_map by lia.
    rewrite Hz3, Hz20 by lia. lra. }
  do 6 eexists. exists (np.add_scalar z3 (- 1000)).
  split; [exact E4|].
  cbn [world_far heap length nth Nat.add app].
  split; [rewrite !Hz3 by lia; rewrite Hz20, Hz21; repeat split; reflexivity|].
  split; [exact Hsh|].
  split; [split; apply Hs; lia|].
  split.
  { unfold spec_softmax_shifted, spec_column_max. rewrite S31, S32.
    rewrite get_tab by lia. cbn [Nat.sub seq map fold_left].
    rewrite !Hz3 by lia. rewrite Hz20. unfold Rmax.
    destruct (Rle_dec 0 0); lra. }
  rewrite !Hs by lia.
  split; [exact exp_minus_1000_rounds_to_zero|].
  split; [exact exp_minus_1000_rounds_to_zero|].
  vm_compute. reflexivity.
Qed.

(* ================================================================= *)
(** * One-hot encoding *)

(** The row a label selects, counting a negative label from the end. *)
Definition wrap (k : Z) (C : nat) : nat :=
  match np.index k C with Ok r => r | Raise _ => 0%nat end.

Definition encode_body (y : list Z) (onehot : ref) (i : nat) (_ : unit) : M unit :=
  a <- load onehot ;;
  r <- lift (np.index (nth i y 0%Z) (nrows a)) ;;
  store onehot (np.set a r i 1).

Lemma index_cases k C :
  np.index k C = Ok (wrap k C) \/ np.index k C = Raise IndexError.
Proof.
  unfold wrap, np.index.
  destruct ((0 <=? k) && (k <? Z.of_nat C))%Z; [left; reflexivity|].
  destruct ((- Z.of_nat C <=? k) && (k <? 0))%Z; [left|right]; reflexivity.
Qed.

Lemma index_in_range k C :
  (0 <= k < Z.of_nat C)%Z -> np.index k C = Ok (Z.to_nat k).
Proof.
  intros H. unfold np.index.
  replace ((0 <=? k) && (k <? Z.of_nat C))%Z with true; [reflexivity|].
  symmetry. apply andb_true_intro. split; [apply Z.leb_le|apply Z.ltb_lt]; lia.
Qed.

Lemma index_negative k C :
  (- Z.of_nat C <= k < 0)%Z -> np.index k C = Ok (Z.to_nat (k + Z.of_nat C)).
Proof.
  intros H. unfold np.index.
  replace ((0 <=? k) && (k <? Z.of_nat C))%Z with false
    by (symmetry; apply andb_false_intro1; apply Z.leb_gt; lia).
  replace ((- Z.of_nat C <=? k) && (k <? 0))%Z with true; [reflexivity|].
  symmetry. apply andb_true_intro. split; [apply Z.leb_le|apply Z.ltb_lt]; lia.
Qed.

Lemma index_out_of_range k C :
  (k < - Z.of_nat C \/ Z.of_nat C <= k)%Z -> np.index k C = Raise IndexError.
Proof.
  intros H. unfold np.index.
  replace ((0 <=? k) && (k <? Z.of_nat C))%Z with false.
  2:{ symmetry. apply andb_false_iff. destruct H; [left; apply Z.leb_gt|right; apply Z.ltb_ge]; lia. }
  replace ((- Z.of_nat C <=? k) && (k <? 0))%Z with false; [reflexivity|].
  symmetry. apply andb_false_iff.
  destruct H; [left; apply Z.leb_gt|right; apply Z.ltb_ge]; lia.
Qed.

Lemma encode_step y onehot C N g i w :
  (onehot < length (heap w))%nat ->
  nth onehot (heap w) arr0 = tab C N g ->
  encode_body y onehot i tt w =
  match np.index (nth i y 0%Z) C with
  | Ok r0 =>
      Ok (tt, mkworld (upd onehot
                 (tab C N (fun r c => if ((r =? r0) && (c =? i))%nat then 1 else g r c))
                 (heap w)) (stdout w))
  | Raise e => Raise e
  end.
Proof.
  intros Hv Hc. unfold encode_body. run. rewrite Hc, nrows_tab.
  destruct (np.index _ _) as [r0|e]; [rewrite bind_lift_ok|reflexivity].
  unfold store, np.set. rewrite nrows_tab, ncols_tab. do 4 f_equal.
  apply tab_ext. intros r c Hr Hcc. rewrite get_tab by assumption. reflexivity.
Qed.

Lemma encode_loop_ok y onehot C N k :
  forall s g w,
    (onehot < length (heap w))%nat ->
    nth onehot (heap w) arr0 = tab C N g ->
    (forall i, (s <= i < s + k)%nat ->
               np.index (nth i y 0%Z) C = Ok (wrap (nth i y 0%Z) C)) ->
    for_ (seq s k) (encode_body y onehot) tt w =
    Ok (tt, mkworld (upd onehot
               (tab C N (fun r c =>
                  if ((s <=? c) && (c <? s + k) && (r =? wrap (nth c y 0%Z) C))%nat
                  then 1 else g r c))
               (heap w)) (stdout w)).
Proof.
  induction k as [|k IH]; intros s g w Hv Hc Hi.
  - cbn [seq for_]. unfold ret. destruct w as [h o]. cbn [heap stdout] in *.
    do 3 f_equal. rewrite <- (upd_nth_id onehot h) at 1. rewrite Hc. f_equal.
    apply tab_ext. intros r c _ _.
    destruct (s <=? c)%nat eqn:E1; [|reflexivity].
    destruct (c <? s + 0)%nat eqn:E2; [|reflexivity].
    apply Nat.leb_le in E1. apply Nat.ltb_lt in E2. lia.
  - cbn [seq for_].
    rewrite (@bind_eq _ _ _ _ _ _ (@encode_step y onehot C N g s w Hv Hc)).
    rewrite (Hi s) by lia.
    rewrite IH with (g := fun r c =>
        if ((r =? wrap (nth s y 0%Z) C) && (c =? s))%nat then 1 else g r c).
    + cbn [heap stdout]. rewrite upd_upd. do 4 f_equal.
      apply tab_ext. intros r c _ _.
      destruct (Nat.eq_dec c s) as [->|Hne].
      * rewrite Nat.eqb_refl, Nat.leb_refl.
        replace (S s <=? s)%nat with false by (symmetry; apply Nat.leb_gt; lia).
        replace (s <? s + S k)%nat with true by (symmetry; apply Nat.ltb_lt; lia).
        cbn [andb]. rewrite andb_true_r. reflexivity.
      * replace (c =? s)%nat with false by (symmetry; apply Nat.eqb_neq; exact Hne).
        rewrite andb_false_r.
        replace (S s <=? c)%nat with (s <=? c)%nat.
        2:{ destruct (s <=? c)%nat eqn:E1; symmetry;
            [apply Nat.leb_le; apply Nat.leb_le in E1
            |apply Nat.leb_gt; apply Nat.leb_gt in E1]; lia. }
        replace (S s + k)%nat with (s + S k)%nat by lia. reflexivity.
    + cbn [heap]. rewrite length_upd. exact Hv.
    + cbn [heap]. apply nth_upd_same. exact Hv.
    + intros i Hr. apply Hi. lia.
Qed.

Lemma encode_loop_raise y onehot C N k :
  forall s g w,
    (onehot < length (heap w))%nat ->
    nth onehot (heap w) arr0 = tab C N g ->
    (exists i, (s <= i < s + k)%nat /\
               np.index (nth i y 0%Z) C = Raise IndexError) ->
    for_ (seq s k) (encode_body y onehot) tt w = Raise IndexError.
Proof.
  induction k as [|k IH]; intros s g w Hv Hc [i [Hr Hi]]; [lia|].
  cbn [seq for_].
  rewrite (@bind_eq _ _ _ _ _ _ (@encode_step y onehot C N g s w Hv Hc)).
  destruct (index_cases (nth s y 0%Z) C) as [E|E]; rewrite E; [|reflexivity].
  eapply IH.
  - cbn [heap]. rewrite length_upd. exact Hv.
  - cbn [heap]. apply nth_upd_same. exact Hv.
  - exists i. split; [|exact Hi].
    destruct (Nat.eq_dec i s) as [->|Hne]; [congruence|lia].
Qed.

Lemma encode_labels_unfold y num_labels w :
  encode_labels y num_labels w =
  match for_ (seq 0 (length y)) (encode_body y (length (heap w))) tt
             (mkworld (heap w ++ [np.zeros num_labels (length y)]) (stdout w)) with
  | Ok (_, w') => Ok (length (heap w), w')
  | Raise e => Raise e
  end.
Proof.
  unfold encode_labels. run. unfold bind, encode_body.
  destruct (for_ _ _ _ _) as [[u w']|e]; reflexivity.
Qed.

Lemma encode_labels_ok y C w :
  (forall i, (i < length y)%nat ->
             np.index (nth i y 0%Z) C = Ok (wrap (nth i y 0%Z) C)) ->
  encode_labels y C w =
  Ok (length (heap w),
      mkworld (heap w ++ [tab C (length y) (fun r c =>
                 if (r =? wrap (nth c y 0%Z) C)%nat then 1 else 0)]) (stdout w)).
Proof.
  intros Hi. rewrite encode_labels_unfold.
  rewrite encode_loop_ok with (C := C) (N := length y) (g := fun _ _ => 0).
  - cbn [heap stdout]. heap_norm. do 5 f_equal.
    apply tab_ext. intros r c Hr Hc.
    replace (c <? length y)%nat with true by (symmetry; apply Nat.ltb_lt; lia).
    reflexivity.
  - cbn [heap]. rewrite length_app. cbn [length]. lia.
  - cbn [heap]. heap_norm. reflexivity.
  - intros i Hr. apply Hi. lia.
Qed.

Lemma encode_labels_raise y C w :
  (exists i, (i < length y)%nat /\ np.index (nth i y 0%Z) C = Raise IndexError) ->
  encode_labels y C w = Raise IndexError.
Proof.
  intros [i [Hr Hi]]. rewrite encode_labels_unfold.
  rewrite encode_loop_raise with (C := C) (N := length y) (g := fun _ _ => 0).
  - reflexivity.
  - cbn [heap]. rewrite length_app. cbn [length]. lia.
  - cbn [heap]. heap_norm. reflexivity.
  - exists i. split; [lia|exact Hi].
Qed.

Definition onehot_021 : ndarray := mkarr 3 3 [[1; 0; 0]; [0; 0; 1]; [0; 1; 0]].

Lemma encode_labels_021 :
  encode_labels [0; 2; 1]%Z 3 (mkworld [] []) = Ok (0%nat, mkworld [onehot_021] []).
Proof.
  rewrite encode_labels_ok.
  - reflexivity.
  - intros [|[|[|i]]] Hi; cbn in Hi; try lia; reflexivity.
Qed.

(** C8.  For labels that all lie in [0, C), [encode_labels] returns a fresh
    C x N array whose column i has 1 at row y[i] and 0 elsewhere; labels
    [0, 2, 1] with 3 classes give the columns [1,0,0], [0,0,1], [0,1,0].
    For a label outside [0, C): the call raises IndexError when some label
    is below -C or at least C, and otherwise a negative label y[i] puts the
    1 of column i at row y[i] + C. *)
Theorem encode_labels_one_hot :
  forall y C w,
    ((forall k, In k y -> (0 <= k < Z.of_nat C)%Z) ->
     exists a,
       encode_labels y C w = Ok (length (heap w), mkworld (heap w ++ [a]) (stdout w)) /\
       nrows a = C /\ ncols a = length y /\
       forall i j, (i < C)%nat -> (j < length y)%nat ->
         get a i j = if (Z.of_nat i =? nth j y 0)%Z then 1 else 0) /\
    ((exists k, In k y /\ (k < - Z.of_nat C \/ Z.of_nat C <= k)%Z) ->
     encode_labels y C w = Raise IndexError) /\
    ((forall k, In k y -> (- Z.of_nat C <= k < Z.of_nat C)%Z) ->
     exists a,
       encode_labels y C w = Ok (length (heap w), mkworld (heap w ++ [a]) (stdout w)) /\
       nrows a = C /\ ncols a = length y /\
       forall i j, (i < C)%nat -> (j < length y)%nat ->
         get a i j =
         if (Z.of_nat i =? (if nth j y 0 <? 0 then nth j y 0 + Z.of_nat C
                            else nth j y 0))%Z
         then 1 else 0) /\
    encode_labels [0; 2; 1]%Z 3 (mkworld [] []) = Ok (0%nat, mkworld [onehot_021] []).
Proof.
  intros y C w.
  assert (Hwrap : (forall k, In k y -> (- Z.of_nat C <= k < Z.of_nat C)%Z) ->
    exists a,
       encode_labels y C w = Ok (length (heap w), mkworld (heap w ++ [a]) (stdout w)) /\
       nrows a = C /\ ncols a = length y /\
       forall i j, (i < C)%nat -> (j < length y)%nat ->
         get a i j =
         if (Z.of_nat i =? (if nth j y 0 <? 0 then nth j y 0 + Z.of_nat C
                            else nth j y 0))%Z
         then 1 else 0).
  { intros Hy.
    assert (Hidx : forall i, (i < length y)%nat ->
              np.index (nth i y 0%Z) C =
              Ok (Z.to_nat (if (nth i y 0 <? 0)%Z then nth i y 0 + Z.of_nat C
                            else nth i y 0)%Z)).
    { intros i Hi. specialize (Hy _ (nth_In y 0%Z Hi)).
      destruct (nth i y 0 <? 0)%Z eqn:E.
      - apply Z.ltb_lt in E. apply index_negative. lia.
      - apply Z.ltb_ge in E. apply index_in_range. lia. }
    eexists. split.
    { apply encode_labels_ok. intros i Hi. unfold wrap. rewrite (Hidx i Hi).
      reflexivity. }
    split; [reflexivity|]. split; [reflexivity|].
    intros i j Hi Hj. rewrite get_tab by assumption.
    unfold wrap. rewrite (Hidx j Hj).
    specialize (Hy _ (nth_In y 0%Z Hj)).
    set (t := (if (nth j y 0 <? 0)%Z then (nth j y 0 + Z.of_nat C)%Z else nth j y 0%Z)).
    assert (Ht : (0 <= t)%Z).
    { unfold t. destruct (nth j y 0 <? 0)%Z eqn:E; [|apply Z.ltb_ge in E]; lia. }
    destruct (Nat.eqb_spec i (Z.to_nat t)) as [->|Hne].
    - rewrite Z2Nat.id by exact Ht. rewrite Z.eqb_refl. reflexivity.
    - replace (Z.of_nat i =? t)%Z with false; [reflexivity|].
      symmetry. apply Z.eqb_neq. intros E. apply Hne. rewrite <- E.
      symmetry. apply Nat2Z.id. }
  split; [|split; [|split; [exact Hwrap|exact encode_labels_021]]].
  - intros Hy.
    destruct Hwrap as [a [E [S1 [S2 G]]]].
    { intros k Hk. specialize (Hy k Hk). lia. }
    exists a. repeat split; try assumption.
    intros i j Hi Hj. rewrite (G i j Hi Hj).
    specialize (Hy _ (nth_In y 0%Z Hj)).
    replace (nth j y 0 <? 0)%Z with false by (symmetry; apply Z.ltb_ge; lia).
    reflexivity.
  - intros [k [Hk Hout]]. apply encode_labels_raise.
    destruct (In_nth y k 0%Z Hk) as [i [Hi <-]].
    exists i. split; [exact Hi|]. apply index_out_of_range. exact Hout.
Qed.

Lemma encode_labels_one_hot_witness :
  (exists a,
     encode_labels [0; 2; 1]%Z 3 (mkworld [] []) = Ok (0%nat, mkworld [a] []) /\
     get a 2 1 = 1 /\ get a 0 1 = 0) /\
  encode_labels [0; 3]%Z 3 (mkworld [] []) = Raise IndexError /\
  (exists a,
     encode_labels [-1]%Z 3 (mkworld [] []) = Ok (0%nat, mkworld [a] []) /\
     get a 2 0 = 1).
Proof.
  split; [|split].
  - destruct (proj1 (encode_labels_one_hot [0; 2; 1]%Z 3 (mkworld [] [])))
      as [a [E [_ [_ G]]]].
    { intros k [<-|[<-|[<-|[]]]]; cbn; lia. }
    exists a. split; [exact E|].
    split; rewrite G by (cbn; lia); reflexivity.
  - apply (proj1 (proj2 (encode_labels_one_hot [0; 3]%Z 3 (mkworld [] [])))).
    exists 3%Z. split; [right; left; reflexivity|cbn; lia].
  - destruct (proj1 (proj2 (proj2 (encode_labels_one_hot [-1]%Z 3 (mkworld [] [])))))
      as [a [E [_ [_ G]]]].
    { intros k [<-|[]]; cbn; lia. }
    exists a. split; [exact E|].
    rewrite G by (cbn; lia). reflexivity.
Defined.

(* ================================================================= *)
(** * predict and accuracy *)

(** The counting loop and the arithmetic of [accuracy], on the predictions. *)
Fixpoint count_loop {F} `{Float F} (diffs : list Z) (l : list nat) (count : F)
  : res F :=
  match l with
  | [] => Ok count
  | i :: l' =>
      res_bind (item diffs i) (fun d =>
      count_loop diffs l' (if negb (d =? 0)%Z then fadd count (of_int 1) else count))
  end.

Definition accuracy_value {F} `{Float F} (y_train_pred y_train : list Z) : res F :=
  res_bind (sub1d y_train_pred y_train) (fun diffs =>
  res_bind (count_loop diffs (seq 0 (length y_train)) (of_int 0)) (fun count =>
  if (length y_train =? 0)%nat then Raise ZeroDivisionError
  else Ok (fsub (of_int 100)
                (fdiv (fmul count (of_int 100))
                      (of_int (Z.of_nat (length y_train))))))).

(** The specification's accuracy, [100 * mean(predict(X) == y)]: the mean of
    a boolean array is the number of its true entries divided by its
    length. *)
Definition matches (pred y : list Z) : nat :=
  length (filter (fun i => (nth i pred 0 =? nth i y 0)%Z) (seq 0 (length y))).

Definition mismatches (pred y : list Z) : nat :=
  length (filter (fun i => negb (nth i pred 0 =? nth i y 0)%Z) (seq 0 (length y))).

Definition spec_accuracy {F} `{Float F} (pred y : list Z) : F :=
  fmul (of_int 100)
       (fdiv (of_int (Z.of_nat (matches pred y))) (of_int (Z.of_nat (length y)))).

Lemma predict_ok self X w N f h C :
  (X < length (heap w))%nat -> (w1 self < length (heap w))%nat ->
  (w2 self < length (heap w))%nat ->
  nrows (nth X (heap w) arr0) = N /\ ncols (nth X (heap w) arr0) = f ->
  nrows (nth (w1 self) (heap w) arr0) = h /\
  ncols (nth (w1 self) (heap w) arr0) = (f + 1)%nat ->
  nrows (nth (w2 self) (heap w) arr0) = C /\
  ncols (nth (w2 self) (heap w) arr0) = (h + 1)%nat ->
  (0 < N)%nat -> (0 < C)%nat ->
  let a1 := bias_added_value (nth X (heap w) arr0) true in
  exists z2raw z3 a3,
    np.dot (nth (w1 self) (heap w) arr0) (np.T a1) = Ok z2raw /\
    np.dot (nth (w2 self) (heap w) arr0)
           (bias_added_value (relu_value false z2raw) false) = Ok z3 /\
    softmax_value z3 = Ok a3 /\
    (nrows z3 = C /\ ncols z3 = N) /\
    predict self X w =
    Ok (map (fun j => Z.of_nat
               (np.argmax_list (map (fun i => get a3 i j) (seq 0 C))))
            (seq 0 N),
        mkworld (heap w ++ [a1; relu_value false z2raw;
                            bias_added_value (relu_value false z2raw) false;
                            z3; a3]) (stdout w)).
Proof.
  intros HX Hw1 Hw2 SX Sw1 Sw2 HN HC a1.
  destruct (@forward_ok self X (w1 self) (w2 self) w N f h C
              HX Hw1 Hw2 SX Sw1 Sw2 HN HC)
    as [z2raw [z3 [a3 [E1 [E2 [E3 [E4 [_ [S3 [S41 S42]]]]]]]]]].
  exists z2raw, z3, a3. repeat split; try tauto.
  unfold predict. run_with E4. run.
  unfold np.argmax_axis0. rewrite S41, S42.
  replace (C =? 0)%nat with false by (symmetry; apply Nat.eqb_neq; lia).
  rewrite bind_lift_ok. reflexivity.
Qed.

Lemma count_loop_eq {F} `{Float F} diffs l (c : F) w :
  for_ l (fun i count =>
            d <- lift (item diffs i) ;;
            if negb (d =? 0)%Z then ret (fadd count (of_int 1)) else ret count) c w =
  match count_loop diffs l c with
  | Ok c' => Ok (c', w)
  | Raise e => Raise e
  end.
Proof.
  revert c; induction l as [|i l IH]; intros c; [reflexivity|].
  cbn [for_ count_loop]. rewrite bind_bind.
  destruct (item diffs i) as [d|e]; [|reflexivity].
  rewrite bind_lift_ok. cbn [res_bind].
  destruct (negb (d =? 0)%Z); rewrite bind_ret; apply IH.
Qed.

Lemma accuracy_eq {F} `{Float F} self X y w :
  accuracy self X y w =
  match predict self X w with
  | Ok (pred, w') =>
      match accuracy_value pred y with
      | Ok a => Ok (a, w')
      | Raise e => Raise e
      end
  | Raise e => Raise e
  end.
Proof.
  unfold accuracy, accuracy_value. unfold bind at 1.
  destruct (predict self X w) as [[pred w']|e]; [|reflexivity].
  destruct (sub1d pred y) as [diffs|e]; [rewrite bind_lift_ok|reflexivity].
  cbn [res_bind].
  rewrite (@bind_eq _ _ _ _ _ _ (count_loop_eq diffs _ _ w')).
  destruct (count_loop _ _ _) as [c|e]; [|reflexivity]. cbn [res_bind].
  destruct (length y =? 0)%nat; reflexivity.
Qed.

(** ** The counter over the reals *)

Lemma sub1d_same_length pred y :
  length pred = length y ->
  sub1d pred y = Ok (map (fun i => (nth i pred 0 - nth i y 0)%Z) (seq 0 (length y))).
Proof.
  intros E. unfold sub1d. rewrite E, bdim_refl. f_equal.
  apply map_ext_in. intros i Hi. apply in_seq in Hi.
  rewrite !bidx_lt by lia. reflexivity.
Qed.

Lemma item_diffs pred y i :
  (i < length y)%nat ->
  item (map (fun i => (nth i pred 0 - nth i y 0)%Z) (seq 0 (length y))) i =
  Ok (nth i pred 0 - nth i y 0)%Z.
Proof.
  intros Hi. unfold item.
  rewrite nth_error_map, nth_error_nth' with (d := 0%nat)
    by (rewrite length_seq; exact Hi).
  rewrite seq_nth by exact Hi. reflexivity.
Qed.

Lemma count_loop_real pred y l (c : R) :
  Forall (fun i => (i < length y)%nat) l ->
  count_loop (map (fun i => (nth i pred 0 - nth i y 0)%Z) (seq 0 (length y))) l c =
  Ok (c + INR (length (filter (fun i => negb (nth i pred 0 =? nth i y 0)%Z) l))).
Proof.
  intros Hl. revert c. induction Hl as [|i l Hi Hl IH]; intros c.
  - cbn. f_equal. lra.
  - cbn [count_loop filter]. rewrite item_diffs by exact Hi. cbn [res_bind].
    replace (nth i pred 0 - nth i y 0 =? 0)%Z with (nth i pred 0 =? nth i y 0)%Z.
    2:{ destruct (Z.eqb_spec (nth i pred 0%Z) (nth i y 0%Z)) as [E|E]; symmetry;
        [apply Z.eqb_eq|apply Z.eqb_neq]; lia. }
    destruct (negb (nth i pred 0 =? nth i y 0)%Z).
    + rewrite IH. cbn [length fadd of_int real_Float]. rewrite S_INR. f_equal. lra.
    + apply IH.
Qed.

Lemma filter_partition_length {A} (p : A -> bool) l :
  (length (filter p l) + length (filter (fun x => negb (p x)) l))%nat = length l.
Proof.
  induction l as [|x l IH]; [reflexivity|].
  cbn [filter]. destruct (p x); cbn [negb length]; lia.
Qed.

Lemma matches_mismatches pred y :
  (matches pred y + mismatches pred y)%nat = length y.
Proof.
  unfold matches, mismatches. rewrite filter_partition_length. apply length_seq.
Qed.

Lemma accuracy_value_real pred y :
  length pred = length y -> (0 < length y)%nat ->
  accuracy_value (F := R) pred y =
  Ok (100 - INR (mismatches pred y) * 100 / INR (length y)).
Proof.
  intros E HN. unfold accuracy_value.
  rewrite sub1d_same_length by exact E. cbn [res_bind].
  rewrite count_loop_real
    by (apply Forall_forall; intros i Hi; apply in_seq in Hi; lia).
  cbn [res_bind].
  replace (length y =? 0)%nat with false by (symmetry; apply Nat.eqb_neq; lia).
  cbn [fsub fdiv fmul of_int real_Float]. rewrite <- INR_IZR_INZ.
  unfold mismatches. do 4 f_equal. lra.
Qed.

Lemma spec_accuracy_real pred y :
  (0 < length y)%nat ->
  100 - INR (mismatches pred y) * 100 / INR (length y) = spec_accuracy (F := R) pred y /\
  0 <= spec_accuracy (F := R) pred y <= 100.
Proof.
  intros HN. unfold spec_accuracy. cbn [fmul fdiv of_int real_Float].
  rewrite <- !INR_IZR_INZ.
  pose proof (matches_mismatches pred y) as E.
  apply (f_equal INR) in E. rewrite plus_INR in E.
  assert (HN' : 0 < INR (length y)) by (apply lt_0_INR; exact HN).
  pose proof (pos_INR (matches pred y)) as Hm.
  pose proof (pos_INR (mismatches pred y)) as Hmm.
  split.
  - field_simplify_eq; [|lra]. lra.
  - assert (Hq : 0 <= INR (matches pred y) / INR (length y) <= 1).
    { split.
      - apply Rmult_le_pos; [lra|]. apply Rlt_le, Rinv_0_lt_compat. lra.
      - apply (Rmult_le_reg_r (INR (length y))); [lra|].
        unfold Rdiv. rewrite Rmult_assoc, Rinv_l by lra. lra. }
    lra.
Qed.

(** C7, as the code has it.  [accuracy] returns 100 - mismatches * 100 / N
    for the predictions of [predict]; in exact arithmetic that number is
    100 * mean(predict(X) == y) and lies in [0, 100].  (In binary64 the two
    expressions round differently, see below.) *)
Theorem accuracy_is_mean_in_exact_arithmetic :
  forall self X y w N f h C,
    (X < length (heap w))%nat -> (w1 self < length (heap w))%nat ->
    (w2 self < length (heap w))%nat ->
    nrows (nth X (heap w) arr0) = N /\ ncols (nth X (heap w) arr0) = f ->
    nrows (nth (w1 self) (heap w) arr0) = h /\
    ncols (nth (w1 self) (heap w) arr0) = (f + 1)%nat ->
    nrows (nth (w2 self) (heap w) arr0) = C /\
    ncols (nth (w2 self) (heap w) arr0) = (h + 1)%nat ->
    (0 < N)%nat -> (0 < C)%nat -> length y = N ->
    exists pred w' a,
      predict self X w = Ok (pred, w') /\
      length pred = N /\
      accuracy (F := R) self X y w = Ok (a, w') /\
      a = 100 - INR (mismatches pred y) * 100 / INR N /\
      a = spec_accuracy (F := R) pred y /\
      0 <= a <= 100.
Proof.
  intros self X y w N f h C HX Hw1 Hw2 SX Sw1 Sw2 HN HC Hy.
  destruct (@predict_ok self X w N f h C HX Hw1 Hw2 SX Sw1 Sw2 HN HC)
    as [z2raw [z3 [a3 [_ [_ [_ [_ Ep]]]]]]].
  match type of Ep with _ = Ok (?p, ?w0) => set (pred := p) in *; set (w' := w0) in * end.
  assert (Hlen : length pred = N) by (unfold pred; rewrite length_map, length_seq; reflexivity).
  exists pred, w'. eexists. split; [exact Ep|]. split; [exact Hlen|].
  subst N.
  destruct (spec_accuracy_real pred y HN) as [E1 E2].
  split.
  { rewrite accuracy_eq, Ep. rewrite accuracy_value_real by assumption. reflexivity. }
  split; [reflexivity|]. split; [exact E1|]. rewrite E1. exact E2.
Qed.

(** Six samples of one feature, one hidden unit and two classes, all
    weights zero: every sample is predicted as class 0. *)
Definition world_acc : world :=
  mkworld [mkarr 6 1 [[0]; [0]; [0]; [0]; [0]; [0]];
           mkarr 1 2 [[0; 0]]; mkarr 2 2 [[0; 0]; [0; 0]]] [].
Definition nn_acc : NeuralNetwork :=
  mkNN 2 1 1 1 2 0 1 1 0 1 "" (Some "relu"%string) [].
Definition y_acc : list Z := [1; 0; 0; 0; 0; 0]%Z.

Lemma Rltb_irrefl x : Rltb x x = false.
Proof. unfold Rltb. destruct (Rlt_dec x x); [lra|reflexivity]. Qed.

Lemma predict_world_acc :
  exists w', predict nn_acc 0 world_acc = Ok ([0; 0; 0; 0; 0; 0]%Z, w').
Proof.
  destruct (@predict_ok nn_acc 0%nat world_acc 6%nat 1%nat 1%nat 2%nat)
    as [z2raw [z3 [a3 [_ [E2 [E3 [[S1 S2] Ep]]]]]]];
    try concrete_side.
  eexists. rewrite Ep. do 2 f_equal.
  cbn [nn_acc w2 world_acc heap nth] in E2.
  match type of E2 with np.dot _ ?a = _ => set (A2 := a) in * end.
  apply dot_inv in E2. pose proof S2 as S2'. rewrite E2, ncols_tab in S2'.
  assert (Hz : forall j, (j < 6)%nat -> get z3 0 j = get z3 1 j).
  { intros j Hj. rewrite E2. rewrite !get_tab by (cbn [nrows]; lia). reflexivity. }
  destruct (@softmax_value_ok z3) as [m [_ [_ Hs]]]; try lia.
  rewrite Hs in E3. injection E3 as E3. rewrite S1, S2 in E3.
  assert (Ha : forall j, (j < 6)%nat -> get a3 0 j = get a3 1 j).
  { intros j Hj. rewrite <- E3. rewrite !get_tab by lia. rewrite (Hz j Hj). reflexivity. }
  cbn [seq map np.argmax_list np.argmax_from].
  rewrite !Ha by lia. rewrite !Rltb_irrefl. reflexivity.
Qed.

Lemma accuracy_is_mean_in_exact_arithmetic_witness :
  exists pred w' a,
    predict nn_acc 0 world_acc = Ok (pred, w') /\
    accuracy (F := R) nn_acc 0 y_acc world_acc = Ok (a, w') /\
    a = spec_accuracy (F := R) pred y_acc /\ 0 <= a <= 100.
Proof.
  destruct (@accuracy_is_mean_in_exact_arithmetic nn_acc 0%nat y_acc world_acc
              6%nat 1%nat 1%nat 2%nat)
    as [pred [w' [a [H1 [_ [H2 [_ [H3 H4]]]]]]]];
    try concrete_side.
  exists pred, w', a. auto.
Defined.

(** With six samples of which one is mispredicted, the binary64 value
    100 - 1.0 * 100 / 6 that [accuracy] returns is 83.33333333333333
    (0x1.4d55555555555p+6), while 100 * mean(predict(X) == y) = 100 * (5 / 6)
    is 83.33333333333334 (0x1.4d55555555556p+6). *)
Lemma accuracy_binary64_differs_from_mean :
  exists pred w' a,
    predict nn_acc 0 world_acc = Ok (pred, w') /\
    accuracy (F := float) nn_acc 0 y_acc world_acc = Ok (a, w') /\
    a = 0x1.4d55555555555p+6%float /\
    spec_accuracy (F := float) pred y_acc = 0x1.4d55555555556p+6%float /\
    a <> spec_accuracy (F := float) pred y_acc.
Proof.
  destruct predict_world_acc as [w' Ep].
  exists [0; 0; 0; 0; 0; 0]%Z, w'. eexists.
  split; [exact Ep|]. split.
  { rewrite accuracy_eq, Ep.
    replace (accuracy_value (F := float) [0; 0; 0; 0; 0; 0]%Z y_acc)
      with (Ok 0x1.4d55555555555p+6%float) by (vm_compute; reflexivity).
    reflexivity. }
  split; [reflexivity|]. split; [vm_compute; reflexivity|].
  intros H.
  apply (f_equal (fun x => PrimFloat.eqb x 0x1.4d55555555555p+6%float)) in H.
  vm_compute in H. discriminate H.
Qed.

(* ================================================================= *)
(** * The training loop *)

Lemma iadd_ok a b :
  nrows b = nrows a -> ncols b = ncols a ->
  np.iadd a b = Ok (tab (nrows a) (ncols a) (fun i j => get a i j + get b i j)).
Proof.
  intros Er Ec. unfold np.iadd, np.fits. rewrite Er, Ec, !Nat.eqb_refl.
  cbn [orb andb]. f_equal. apply tab_ext. intros i j Hi Hj.
  rewrite !bidx_lt by assumption. reflexivity.
Qed.

(** The weights after [self.w += - (w_update + prev_grad_w)]. *)
Definition descended (w_ u p : ndarray) : ndarray :=
  tab (nrows w_) (ncols w_) (fun i j => get w_ i j - (get u i j + get p i j)).

Lemma descend_ok w_ u p wd :
  let v r := nth r (heap wd) arr0 in
  nrows (v u) = nrows (v w_) /\ ncols (v u) = ncols (v w_) ->
  nrows (v p) = nrows (v w_) /\ ncols (v p) = ncols (v w_) ->
  descend w_ u p wd =
  Ok (tt, mkworld (upd w_ (descended (v w_) (v u) (v p)) (heap wd)) (stdout wd)).
Proof.
  intros v [U1 U2] [P1 P2]. subst v. cbv beta in *.
  unfold descend. run.
  unfold np.add. rewrite zipw_ok by congruence. rewrite bind_lift_ok. run.
  rewrite iadd_ok by (autorewrite with shape; congruence).
  rewrite bind_lift_ok. unfold store, descended. do 4 f_equal.
  apply tab_ext. intros i j Hi Hj.
  unfold np.neg. rewrite get_map by (autorewrite with shape; congruence).
  rewrite get_tab by congruence. ring.
Qed.

Lemma take_rows_ok a idx :
  Forall (fun k => (k < nrows a)%nat) idx ->
  np.take_rows a idx =
  Ok (tab (length idx) (ncols a) (fun i j => get a (nth i idx 0%nat) j)).
Proof.
  intros H. unfold np.take_rows.
  replace (forallb _ idx) with true; [reflexivity|].
  symmetry. apply forallb_forall. intros k Hk.
  apply Nat.ltb_lt. rewrite Forall_forall in H. apply H. exact Hk.
Qed.

Lemma take_cols_ok a idx :
  Forall (fun k => (k < ncols a)%nat) idx ->
  np.take_cols a idx =
  Ok (tab (nrows a) (length idx) (fun i j => get a i (nth j idx 0%nat))).
Proof.
  intros H. unfold np.take_cols.
  replace (forallb _ idx) with true; [reflexivity|].
  symmetry. apply forallb_forall. intros k Hk.
  apply Nat.ltb_lt. rewrite Forall_forall in H. apply H. exact Hk.
Qed.

(** What the loops of [fit] maintain: the arrays they read and update are
    in the store, the weights are not aliased, and all have the shapes of
    a network with f features, h hidden units and C classes on N samples. *)
Record fit_inv (N f h C : nat) (X X_data y_enc : ref) (s : fit_vars) (w : world)
  : Prop := mkinv {
  inv_valid :
    (X < length (heap w) /\ X_data < length (heap w) /\ y_enc < length (heap w) /\
     w1 (v_self s) < length (heap w) /\ w2 (v_self s) < length (heap w) /\
     prev_grad_w1 s < length (heap w) /\ prev_grad_w2 s < length (heap w))%nat;
  inv_distinct :
    w1 (v_self s) <> w2 (v_self s) /\
    X <> w1 (v_self s) /\ X <> w2 (v_self s) /\
    X_data <> w1 (v_self s) /\ X_data <> w2 (v_self s) /\
    y_enc <> w1 (v_self s) /\ y_enc <> w2 (v_self s) /\
    prev_grad_w1 s <> w1 (v_self s) /\ prev_grad_w1 s <> w2 (v_self s) /\
    prev_grad_w2 s <> w1 (v_self s) /\ prev_grad_w2 s <> w2 (v_self s);
  inv_X : nrows (nth X (heap w) arr0) = N /\ ncols (nth X (heap w) arr0) = f;
  inv_X_data :
    nrows (nth X_data (heap w) arr0) = N /\ ncols (nth X_data (heap w) arr0) = f;
  inv_y_enc :
    nrows (nth y_enc (heap w) arr0) = C /\ ncols (nth y_enc (heap w) arr0) = N;
  inv_w1 :
    nrows (nth (w1 (v_self s)) (heap w) arr0) = h /\
    ncols (nth (w1 (v_self s)) (heap w) arr0) = (f + 1)%nat;
  inv_w2 :
    nrows (nth (w2 (v_self s)) (heap w) arr0) = C /\
    ncols (nth (w2 (v_self s)) (heap w) arr0) = (h + 1)%nat;
  inv_prev1 :
    nrows (nth (prev_grad_w1 s) (heap w) arr0) = h /\
    ncols (nth (prev_grad_w1 s) (heap w) arr0) = (f + 1)%nat;
  inv_prev2 :
    nrows (nth (prev_grad_w2 s) (heap w) arr0) = C /\
    ncols (nth (prev_grad_w2 s) (heap w) arr0) = (h + 1)%nat
}.

(** A minibatch: a non-empty array of integer sample indices. *)
Definition batch_ok (N : nat) (idx : np.index_array) : Prop :=
  np.integer idx = true /\ np.indices idx <> [] /\
  Forall (fun k => (k < N)%nat) (np.indices idx).

Lemma getitem_rows_ok a idx :
  np.integer idx = true -> Forall (fun k => (k < nrows a)%nat) (np.indices idx) ->
  np.getitem_rows a idx =
  Ok (tab (length (np.indices idx)) (ncols a)
        (fun i j => get a (nth i (np.indices idx) 0%nat) j)).
Proof.
  intros Hi H. unfold np.getitem_rows. rewrite Hi. apply take_rows_ok. exact H.
Qed.

Lemma getitem_cols_ok a idx :
  np.integer idx = true -> Forall (fun k => (k < ncols a)%nat) (np.indices idx) ->
  np.getitem_cols a idx =
  Ok (tab (nrows a) (length (np.indices idx))
        (fun i j => get a i (nth j (np.indices idx) 0%nat))).
Proof.
  intros Hi H. unfold np.getitem_cols. rewrite Hi. apply take_cols_ok. exact H.
Qed.

(** Disequalities of references make [lia] split cases; none is needed
    for the bounds below. *)
Ltac nat_lia :=
  repeat match goal with
         | H : _ <> _ |- _ => clear H
         | H : _ <> _ /\ _ |- _ => clear H
         end;
  lia.

Ltac world_side :=
  cbn [heap stdout];
  lazymatch goal with
  | |- (_ < _)%nat => rewrite ?length_app; cbn [length]; first [assumption | nat_lia]
  | |- _ /\ _ =>
      heap_norm; heap_old; autorewrite with shape;
      split; first [assumption | reflexivity | congruence | nat_lia]
  end.

(** One pass through the body of the minibatch loop, statement by
    statement: the rows of the batch, the forward pass, the columns of the
    labels (taken twice), the cost, the gradients and the two updates. *)
Lemma fit_minibatch_trace N f h C X X_data y_enc idx s w :
  fit_inv N f h C X X_data y_enc s w -> batch_ok N idx -> (0 < C)%nat ->
  let self := v_self s in
  let n := length (heap w) in
  let lr := learning_rate self in
  exists Xb Yb A1 Z2 A2 Z3 A3 cost S3 R0 S2 S2' G1 G2,
    np.getitem_rows (nth X_data (heap w) arr0) idx = Ok Xb /\
    np.getitem_cols (nth y_enc (heap w) arr0) idx = Ok Yb /\
    forward self n (w1 self) (w2 self) (mkworld (heap w ++ [Xb]) (stdout w)) =
      Ok ((n + 1, n + 2, n + 3, n + 4, n + 5)%nat,
          mkworld (heap w ++ [Xb; A1; Z2; A2; Z3; A3]) (stdout w)) /\
    get_cost self (n + 6) (n + 5) (w1 self) (w2 self)
             (mkworld (heap w ++ [Xb; A1; Z2; A2; Z3; A3; Yb]) (stdout w)) =
      Ok (cost, mkworld (heap w ++ [Xb; A1; Z2; A2; Z3; A3; Yb]) (stdout w)) /\
    backprop self (n + 1) (n + 3) (n + 5) (n + 2) (n + 7) (w1 self) (w2 self)
             (mkworld (heap w ++ [Xb; A1; Z2; A2; Z3; A3; Yb; Yb]) (stdout w)) =
      Ok ((n + 12, n + 13)%nat,
          mkworld (heap w ++ [Xb; A1; Z2; A2; Z3; A3; Yb; Yb;
                              S3; R0; S2; S2'; G1; G2]) (stdout w)) /\
    (nrows G1 = h /\ ncols G1 = (f + 1)%nat) /\
    (nrows G2 = C /\ ncols G2 = (h + 1)%nat) /\
    fit_minibatch X_data y_enc idx s w =
    Ok (mkvars self (n + 14) (n + 15) (costs s ++ [cost])
               (grad_1_li s ++ [(n + 12)%nat]) (grad_2_li s ++ [(n + 13)%nat])
               (Some cost),
        mkworld
          (upd (w2 self)
             (descended (nth (w2 self) (heap w) arr0) (np.scalar_mul lr G2)
                        (nth (prev_grad_w2 s) (heap w) arr0))
             (upd (w1 self)
                (descended (nth (w1 self) (heap w) arr0) (np.scalar_mul lr G1)
                           (nth (prev_grad_w1 s) (heap w) arr0))
                (heap w ++ [Xb; A1; Z2; A2; Z3; A3; Yb; Yb;
                            S3; R0; S2; S2'; G1; G2;
                            np.scalar_mul lr G1; np.scalar_mul lr G2])))
          (stdout w)).
Proof.
  intros [HV HD [SX1 SX2] [SD1 SD2] [SY1 SY2] [SW11 SW12] [SW21 SW22]
          [SP11 SP12] [SP21 SP22]] [Hint [Hne Hidx]] HC self n lr.
  destruct HV as [VX [VD [VY [VW1 [VW2 [VP1 VP2]]]]]].
  destruct HD as [D12 [DX1 [DX2 [DD1 [DD2 [DY1 [DY2 [DP11 [DP12 [DP21 DP22]]]]]]]]]].
  set (ix := np.indices idx) in *.
  assert (Hlen : (0 < length ix)%nat) by (destruct ix; [congruence|cbn; lia]).
  fold self in VW1, VW2, D12, DX1, DX2, DD1, DD2, DY1, DY2, DP11, DP12, DP21, DP22,
               SW11, SW12, SW21, SW22.
  assert (EX : np.getitem_rows (nth X_data (heap w) arr0) idx =
               Ok (tab (length ix) (ncols (nth X_data (heap w) arr0))
                     (fun i j => get (nth X_data (heap w) arr0) (nth i ix 0%nat) j)))
    by (apply getitem_rows_ok; [exact Hint|rewrite SD1; exact Hidx]).
  assert (EY : np.getitem_cols (nth y_enc (heap w) arr0) idx =
               Ok (tab (nrows (nth y_enc (heap w) arr0)) (length ix)
                     (fun i j => get (nth y_enc (heap w) arr0) i (nth j ix 0%nat))))
    by (apply getitem_cols_ok; [exact Hint|rewrite SY2; exact Hidx]).
  match type of EX with _ = Ok ?t => set (Xb := t) in * end.
  match type of EY with _ = Ok ?t => set (Yb := t) in * end.
  destruct (@forward_ok self n (w1 self) (w2 self)
              (mkworld (heap w ++ [Xb]) (stdout w)) (length ix) f h C)
    as [z2raw [z3 [a3 [_ [_ [_ [EF [SZ2 [SZ3 SA3]]]]]]]]];
    [unfold n, Xb; world_side .. |].
  cbv zeta in EF. cbn [heap stdout] in EF. revert EF. unfold n. heap_norm. heap_old.
  fold n. intros EF.
  match type of EF with
  | _ = Ok (_, mkworld (_ ++ [_; ?a1; ?z2; ?a2; _; _]) _) =>
      pose (A1 := a1); pose (Z2 := z2); pose (A2 := a2)
  end.
  pose proof (@get_cost_ok self (n + 6)%nat (n + 5)%nat (w1 self) (w2 self)
                (mkworld (heap w ++ [Xb; A1; Z2; A2; z3; a3; Yb]) (stdout w))
                C (length ix)) as EC.
  cbn [heap stdout] in EC. revert EC. unfold n. heap_norm. heap_old. fold n. intros EC.
  specialize (EC (conj SY1 eq_refl) SA3).
  match type of EC with _ = Ok (?c, _) => set (cost := c) in * end.
  destruct (@backprop_ok (n + 1)%nat (n + 3)%nat (n + 5)%nat (n + 2)%nat (n + 7)%nat
              (w1 self) (w2 self)
              (mkworld (heap w ++ [Xb; A1; Z2; A2; z3; a3; Yb; Yb]) (stdout w))
              (length ix) f h C)
    as [sigma3 [sigma2 [G1 [G2 [[SG11 SG12] [[SG21 SG22] EB]]]]]];
    [unfold A1, Z2, A2, Xb, Yb, n; world_side .. |].
  specialize (EB self).
  cbv zeta in EB. cbn [heap stdout] in EB. revert EB. unfold n. heap_norm. heap_old.
  fold n. intros EB.
  set (W1 := nth (w1 self) (heap w) arr0) in *.
  set (W2 := nth (w2 self) (heap w) arr0) in *.
  set (P1 := nth (prev_grad_w1 s) (heap w) arr0) in *.
  set (P2 := nth (prev_grad_w2 s) (heap w) arr0) in *.
  match type of EB with
  | _ = Ok (_, mkworld (_ ++ [_; _; _; _; _; _; _; _; ?s3; ?r0; ?s2; ?s2'; ?g1; ?g2]) _) =>
      exists Xb, Yb, A1, Z2, A2, z3, a3, cost, s3, r0, s2, s2', g1, g2
  end.
  split; [exact EX|]. split; [exact EY|]. split; [exact EF|].
  split; [exact EC|]. split; [exact EB|].
  split; [autorewrite with shape; split; assumption|].
  split; [autorewrite with shape; split; assumption|].
  subst n.
  unfold fit_minibatch. fold self. run.
  rewrite EX, bind_lift_ok. run.
  run_with EF. run.
  rewrite EY, bind_lift_ok. run.
  run_with EC. run.
  rewrite EY, bind_lift_ok. run.
  run_with EB. run.
  set (U1 := np.scalar_mul (learning_rate self) (regularized (l2 self) G1 W1)).
  set (U2 := np.scalar_mul (learning_rate self) (regularized (l2 self) G2 W2)).
  assert (SU1 : nrows U1 = nrows W1 /\ ncols U1 = ncols W1)
    by (unfold U1; autorewrite with shape; split; congruence).
  assert (SU2 : nrows U2 = nrows W2 /\ ncols U2 = ncols W2)
    by (unfold U2; autorewrite with shape; split; congruence).
  assert (SP1 : nrows P1 = nrows W1 /\ ncols P1 = ncols W1) by (split; congruence).
  assert (SP2 : nrows P2 = nrows W2 /\ ncols P2 = ncols W2) by (split; congruence).
  assert (NU : w1 self <> (length (heap w) + 15)%nat) by nat_lia.
  assert (NP : w1 self <> prev_grad_w2 s) by congruence.
  match goal with
  | |- context [bind (descend ?a ?u ?p) _ ?w0] =>
      pose proof (@descend_ok a u p w0) as ED1
  end.
  cbv zeta in ED1. cbn [heap stdout] in ED1. revert ED1. heap_norm. heap_old.
  fold W1 P1. intros ED1. specialize (ED1 SU1 SP1).
  run_with ED1. clear ED1.
  match goal with
  | |- context [bind (descend ?a ?u ?p) _ ?w0] =>
      pose proof (@descend_ok a u p w0) as ED2
  end.
  cbv zeta in ED2. cbn [heap stdout] in ED2.
  rewrite (@nth_upd_other _ _ _ _ NU), (@nth_upd_other _ _ _ _ D12),
    (@nth_upd_other _ _ _ _ NP) in ED2.
  revert ED2. heap_norm. heap_old. fold W2 P2. intros ED2. specialize (ED2 SU2 SP2).
  run_with ED2. clear ED2.
  reflexivity.
Qed.

Lemma fit_minibatch_ok N f h C X X_data y_enc idx s w :
  fit_inv N f h C X X_data y_enc s w -> batch_ok N idx -> (0 < C)%nat ->
  let self := v_self s in
  let n := length (heap w) in
  let lr := learning_rate self in
  exists cost L G1 G2,
    length L = 16%nat /\
    nth 12 L arr0 = G1 /\ nth 13 L arr0 = G2 /\
    nth 14 L arr0 = np.scalar_mul lr G1 /\ nth 15 L arr0 = np.scalar_mul lr G2 /\
    (nrows G1 = h /\ ncols G1 = (f + 1)%nat) /\
    (nrows G2 = C /\ ncols G2 = (h + 1)%nat) /\
    fit_minibatch X_data y_enc idx s w =
    Ok (mkvars self (n + 14) (n + 15) (costs s ++ [cost])
               (grad_1_li s ++ [(n + 12)%nat]) (grad_2_li s ++ [(n + 13)%nat])
               (Some cost),
        mkworld
          (upd (w2 self)
             (descended (nth (w2 self) (heap w) arr0) (np.scalar_mul lr G2)
                        (nth (prev_grad_w2 s) (heap w) arr0))
             (upd (w1 self)
                (descended (nth (w1 self) (heap w) arr0) (np.scalar_mul lr G1)
                           (nth (prev_grad_w1 s) (heap w) arr0))
                (heap w ++ L)))
          (stdout w)).
Proof.
  intros Hinv Hb HC self n lr.
  destruct (fit_minibatch_trace Hinv Hb HC)
    as [Xb [Yb [A1 [Z2 [A2 [Z3 [A3 [cost [S3 [R0 [S2 [S2' [G1 [G2
        [_ [_ [_ [_ [_ [SG1 [SG2 E]]]]]]]]]]]]]]]]]]]]].
  exists cost. eexists [_; _; _; _; _; _; _; _; _; _; _; _; _; _; _; _].
  exists G1, G2. cbn [length nth].
  repeat split; try reflexivity; try tauto. exact E.
Qed.

Lemma get_descended w_ u p i j :
  (i < nrows w_)%nat -> (j < ncols w_)%nat ->
  get (descended w_ u p) i j = get w_ i j - (get u i j + get p i j).
Proof. intros. unfold descended. apply get_tab; assumption. Qed.

(** One pass through the body of the minibatch loop. *)
Lemma fit_minibatch_step N f h C X X_data y_enc idx s w :
  fit_inv N f h C X X_data y_enc s w -> batch_ok N idx -> (0 < C)%nat ->
  exists s' w' g1 g2,
    fit_minibatch X_data y_enc idx s w = Ok (s', w') /\
    fit_inv N f h C X X_data y_enc s' w' /\
    v_self s' = v_self s /\ cost s' <> None /\ stdout w' = stdout w /\
    grad_1_li s' = grad_1_li s ++ [g1] /\ grad_2_li s' = grad_2_li s ++ [g2] /\
    (forall i j, (i < h)%nat -> (j < f + 1)%nat ->
       get (nth (w1 (v_self s)) (heap w') arr0) i j =
       get (nth (w1 (v_self s)) (heap w) arr0) i j
       - (learning_rate (v_self s) * get (nth g1 (heap w') arr0) i j
          + get (nth (prev_grad_w1 s) (heap w) arr0) i j)) /\
    (forall i j, (i < h)%nat -> (j < f + 1)%nat ->
       get (nth (prev_grad_w1 s') (heap w') arr0) i j =
       learning_rate (v_self s) * get (nth g1 (heap w') arr0) i j) /\
    (forall i j, (i < C)%nat -> (j < h + 1)%nat ->
       get (nth (w2 (v_self s)) (heap w') arr0) i j =
       get (nth (w2 (v_self s)) (heap w) arr0) i j
       - (learning_rate (v_self s) * get (nth g2 (heap w') arr0) i j
          + get (nth (prev_grad_w2 s) (heap w) arr0) i j)) /\
    (forall i j, (i < C)%nat -> (j < h + 1)%nat ->
       get (nth (prev_grad_w2 s') (heap w') arr0) i j =
       learning_rate (v_self s) * get (nth g2 (heap w') arr0) i j).
Proof.
  intros Hinv Hb HC.
  destruct (fit_minibatch_ok Hinv Hb HC)
    as [c [L [G1 [G2 [HL [L12 [L13 [L14 [L15 [[SG11 SG12] [[SG21 SG22] E]]]]]]]]]]].
  destruct Hinv as [HV HD [SX1 SX2] [SD1 SD2] [SY1 SY2] [SW11 SW12] [SW21 SW22]
                       [SP11 SP12] [SP21 SP22]].
  destruct HV as [VX [VD [VY [VW1 [VW2 [VP1 VP2]]]]]].
  destruct HD as [D12 [DX1 [DX2 [DD1 [DD2 [DY1 [DY2 [DP11 [DP12 [DP21 DP22]]]]]]]]]].
  set (self := v_self s) in *. set (n := length (heap w)) in *.
  set (W1' := descended (nth (w1 self) (heap w) arr0)
                (np.scalar_mul (learning_rate self) G1)
                (nth (prev_grad_w1 s) (heap w) arr0)) in *.
  set (W2' := descended (nth (w2 self) (heap w) arr0)
                (np.scalar_mul (learning_rate self) G2)
                (nth (prev_grad_w2 s) (heap w) arr0)) in *.
  set (H' := upd (w2 self) W2' (upd (w1 self) W1' (heap w ++ L))) in *.
  assert (Hlen : length H' = (n + 16)%nat).
  { unfold H'. rewrite !length_upd, length_app, HL. reflexivity. }
  assert (Hold : forall r, (r < n)%nat -> r <> w1 self -> r <> w2 self ->
                           nth r H' arr0 = nth r (heap w) arr0).
  { intros r Hr N1 N2. unfold H'.
    rewrite !nth_upd_other by congruence. apply nth_heap_old. exact Hr. }
  assert (Hnew : forall k, nth (n + k) H' arr0 = nth k L arr0).
  { intros k. unfold H'.
    rewrite !nth_upd_other by (unfold n; nat_lia). apply nth_heap_new. }
  assert (Hw1 : nth (w1 self) H' arr0 = W1').
  { unfold H'. rewrite nth_upd_other by congruence.
    apply nth_upd_same. rewrite length_app. unfold n in *. nat_lia. }
  assert (Hw2 : nth (w2 self) H' arr0 = W2').
  { unfold H'. apply nth_upd_same. rewrite length_upd, length_app. unfold n in *.
    nat_lia. }
  do 2 eexists. exists (n + 12)%nat, (n + 13)%nat.
  split; [exact E|].
  cbn [v_self prev_grad_w1 prev_grad_w2 cost grad_1_li grad_2_li heap stdout].
  fold self.
  split.
  { constructor; cbn [v_self prev_grad_w1 prev_grad_w2 heap]; fold self.
    - rewrite Hlen. unfold n in *. nat_lia.
    - unfold n in *. repeat split; try assumption; nat_lia.
    - rewrite Hold by (assumption || congruence). split; assumption.
    - rewrite Hold by (assumption || congruence). split; assumption.
    - rewrite Hold by (assumption || congruence). split; assumption.
    - rewrite Hw1. unfold W1', descended. split; assumption.
    - rewrite Hw2. unfold W2', descended. split; assumption.
    - rewrite Hnew, L14. autorewrite with shape. split; assumption.
    - rewrite Hnew, L15. autorewrite with shape. split; assumption. }
  split; [reflexivity|]. split; [discriminate|]. split; [reflexivity|].
  split; [reflexivity|]. split; [reflexivity|].
  rewrite !Hnew, L12, L13, L14, L15, Hw1, Hw2.
  repeat split; intros i j Hi Hj.
  - unfold W1'. rewrite get_descended by congruence.
    unfold np.scalar_mul. rewrite get_map by congruence. reflexivity.
  - unfold np.scalar_mul. rewrite get_map by congruence. reflexivity.
  - unfold W2'. rewrite get_descended by congruence.
    unfold np.scalar_mul. rewrite get_map by congruence. reflexivity.
  - unfold np.scalar_mul. rewrite get_map by congruence. reflexivity.
Qed.

Lemma fit_batches_ok N f h C X X_data y_enc mini :
  (0 < C)%nat -> Forall (batch_ok N) mini ->
  forall s w,
    fit_inv N f h C X X_data y_enc s w ->
    exists s' w',
      for_ mini (fit_minibatch X_data y_enc) s w = Ok (s', w') /\
      fit_inv N f h C X X_data y_enc s' w' /\
      v_self s' = v_self s /\ stdout w' = stdout w /\
      (mini <> [] -> cost s' <> None).
Proof.
  intros HC Hm. induction Hm as [|idx mini Hb Hm IH]; intros s w Hinv.
  - exists s, w. split; [reflexivity|]. split; [assumption|].
    split; [reflexivity|]. split; [reflexivity|].
    intros Hn. exfalso. apply Hn. reflexivity.
  - destruct (fit_minibatch_step Hinv Hb HC)
      as [s1 [w1' [g1 [g2 [E [Hinv1 [Es [Hc [Eo _]]]]]]]]].
    destruct (IH s1 w1' Hinv1) as [s' [w' [E' [Hinv' [Es' [Eo' Hc']]]]]].
    exists s', w'. cbn [for_]. rewrite (@bind_eq _ _ _ _ _ _ E).
    split; [exact E'|]. split; [exact Hinv'|].
    split; [congruence|]. split; [congruence|].
    intros _. destruct mini as [|idx' mini'].
    + cbn [for_] in E'. unfold ret in E'. injection E' as <- <-. exact Hc.
    + apply Hc'. discriminate.
Qed.

(** ** The split of the sample indices *)

Lemma split_from_ok N sizes :
  Forall (fun z => (0 < z)%nat) sizes ->
  forall start, (start + list_sum sizes <= N)%nat ->
    Forall (batch_ok N) (map (np.mkidx true) (np.split_from start sizes)).
Proof.
  induction 1 as [|z sizes Hz Hs IH]; intros start Hsum; cbn [np.split_from map].
  - constructor.
  - change (list_sum (z :: sizes)) with (z + list_sum sizes)%nat in Hsum.
    constructor.
    + split; [reflexivity|]. cbn [np.indices]. split.
      * destruct z; [lia|discriminate].
      * apply Forall_forall. intros k Hk. apply in_seq in Hk. lia.
    + apply IH. lia.
Qed.

Lemma list_sum_repeat a m : list_sum (repeat a m) = (m * a)%nat.
Proof.
  induction m as [|m IH]; [reflexivity|].
  change (list_sum (repeat a (S m))) with (a + list_sum (repeat a m))%nat.
  rewrite IH. lia.
Qed.

Lemma array_split_range_ok N k :
  (1 <= k <= N)%nat ->
  exists mini,
    np.array_split_range N k = Ok mini /\ mini <> [] /\ Forall (batch_ok N) mini.
Proof.
  intros Hk. unfold np.array_split_range.
  replace (k =? 0)%nat with false by (symmetry; apply Nat.eqb_neq; lia).
  replace (N =? 0)%nat with false by (symmetry; apply Nat.eqb_neq; lia).
  cbn [negb].
  eexists. split; [reflexivity|].
  pose proof (Nat.div_mod_eq N k) as Hdm.
  pose proof (Nat.mod_upper_bound N k ltac:(lia)) as Hmod.
  assert (Hq : (0 < N / k)%nat) by (apply Nat.div_str_pos; lia).
  split.
  - destruct (N mod k)%nat eqn:Em.
    + destruct (k - 0)%nat eqn:Ek; [lia|]. cbn. discriminate.
    + cbn. discriminate.
  - apply split_from_ok.
    + apply Forall_app. split; apply Forall_forall; intros z Hz;
        apply repeat_spec in Hz; lia.
    + rewrite list_sum_app, !list_sum_repeat. nia.
Qed.

(** ** Progress report *)

Lemma linalg_norm_ok l w : exists r, linalg_norm l w = Ok (r, w).
Proof.
  unfold linalg_norm.
  assert (H : forall acc, exists r,
             for_ l (fun g acc => g_ <- load g ;; ret (acc + np.sum (np.square g_)))
                  acc w = Ok (r, w)).
  { induction l as [|g l IH]; intros acc; cbn [for_].
    - exists acc. reflexivity.
    - rewrite bind_bind, bind_load. cbv beta. rewrite bind_ret. apply IH. }
  destruct (H 0) as [r E]. exists (sqrt r).
  rewrite (@bind_eq _ _ _ _ _ _ E). reflexivity.
Qed.

Lemma fit_inv_extend N f h C X X_data y_enc s hp o L o' :
  fit_inv N f h C X X_data y_enc s (mkworld hp o) ->
  fit_inv N f h C X X_data y_enc s (mkworld (hp ++ L) o').
Proof.
  intros [HV HD SX SD SY SW1 SW2 SP1 SP2]. cbn [heap] in *.
  destruct HV as [VX [VD [VY [VW1 [VW2 [VP1 VP2]]]]]].
  constructor; cbn [heap]; rewrite ?length_app; rewrite ?nth_heap_old by assumption;
    try assumption.
  repeat split; nat_lia.
Qed.

Lemma fit_inv_self N f h C X X_data y_enc s w self' cs g1 g2 c :
  w1 self' = w1 (v_self s) -> w2 self' = w2 (v_self s) ->
  fit_inv N f h C X X_data y_enc s w ->
  fit_inv N f h C X X_data y_enc
          (mkvars self' (prev_grad_w1 s) (prev_grad_w2 s) cs g1 g2 c) w.
Proof.
  intros E1 E2 [HV HD SX SD SY SW1 SW2 SP1 SP2].
  constructor; cbn [v_self prev_grad_w1 prev_grad_w2]; rewrite ?E1, ?E2; assumption.
Qed.

Lemma accuracy_ok N f h C X X_data y_enc s w y :
  fit_inv N f h C X X_data y_enc s w ->
  (0 < N)%nat -> (0 < C)%nat -> length y = N ->
  exists a L,
    accuracy (F := R) (v_self s) X y w = Ok (a, mkworld (heap w ++ L) (stdout w)).
Proof.
  intros [HV HD SX SD SY SW1 SW2 SP1 SP2] HN HC Hy.
  destruct HV as [VX [VD [VY [VW1 [VW2 [VP1 VP2]]]]]].
  destruct (@predict_ok (v_self s) X w N f h C VX VW1 VW2 SX SW1 SW2 HN HC)
    as [z2raw [z3 [a3 [_ [_ [_ [_ Ep]]]]]]].
  rewrite accuracy_eq, Ep.
  rewrite accuracy_value_real
    by (rewrite ?length_map, ?length_seq; nat_lia).
  do 2 eexists. reflexivity.
Qed.

Lemma fit_inv_stdout N f h C X X_data y_enc s hp o o' :
  fit_inv N f h C X X_data y_enc s (mkworld hp o) ->
  fit_inv N f h C X X_data y_enc s (mkworld hp o').
Proof.
  intros H. rewrite <- (app_nil_r hp). apply fit_inv_extend with (o := o). exact H.
Qed.

Lemma Reqb_false x y : x <> y -> Reqb x y = false.
Proof. intros H. unfold Reqb. destruct (Req_dec_T x y); [contradiction|reflexivity]. Qed.

Lemma Reqb_true x : Reqb x x = true.
Proof. unfold Reqb. destruct (Req_dec_T x x); [reflexivity|contradiction]. Qed.

(** One pass through the body of the epoch loop. *)
Lemma fit_epoch_ok N f h C X X_data y_enc y pp i s w :
  fit_inv N f h C X X_data y_enc s w ->
  1 + decay_rate (v_self s) * INR i <> 0 ->
  (1 <= minibatch_size (v_self s) <= N)%nat -> length y = N -> (0 < C)%nat ->
  exists s' w',
    fit_epoch X y X_data y_enc y pp i s w = Ok (s', w') /\
    fit_inv N f h C X X_data y_enc s' w' /\
    v_self s' = set_learning_rate (v_self s)
                  (learning_rate (v_self s) / (1 + decay_rate (v_self s) * INR i)).
Proof.
  intros Hinv Hd Hk Hy HC.
  destruct (@array_split_range_ok N (minibatch_size (v_self s)) Hk)
    as [mini [Em [Hne Hm]]].
  unfold fit_epoch. rewrite (Reqb_false Hd). rewrite bind_ret.
  cbn [minibatch_size set_learning_rate]. rewrite Hy, Em, bind_lift_ok.
  match goal with
  | |- context [for_ mini ?body ?s0] =>
      destruct (@fit_batches_ok N f h C X X_data y_enc mini HC Hm s0 w)
        as [s1 [w1' [E1 [Hinv1 [Es1 [Eo1 Hc1]]]]]];
        [apply fit_inv_self; [reflexivity|reflexivity|exact Hinv]|]
  end.
  rewrite (@bind_eq _ _ _ _ _ _ E1). cbv beta iota.
  cbn [v_self] in Es1.
  rewrite Nat.mod_1_r. cbn [Nat.eqb]. rewrite andb_true_r.
  destruct pp.
  - specialize (Hc1 Hne). destruct (cost s1) as [c|] eqn:Ec; [|congruence].
    run.
    match goal with
    | |- context [bind (linalg_norm ?l) _ ?w0] =>
        destruct (linalg_norm_ok l w0) as [r1 En1]
    end.
    rewrite (@bind_eq _ _ _ _ _ _ En1). cbv beta iota.
    match goal with
    | |- context [bind (linalg_norm ?l) _ ?w0] =>
        destruct (linalg_norm_ok l w0) as [r2 En2]
    end.
    rewrite (@bind_eq _ _ _ _ _ _ En2). cbv beta iota.
    destruct w1' as [h1 o1].
    match goal with
    | |- context [bind (accuracy _ _ _) _ ?w0] =>
        destruct (@accuracy_ok N f h C X X_data y_enc s1 w0 y)
          as [a [L Ea]];
          [eapply fit_inv_stdout; exact Hinv1| lia | exact HC | exact Hy |]
    end.
    rewrite (@bind_eq _ _ _ _ _ _ Ea). cbv beta iota. run.
    do 2 eexists. split; [reflexivity|]. split; [|exact Es1].
    eapply fit_inv_extend. exact Hinv1.
  - exists s1, w1'. split; [reflexivity|]. split; assumption.
Qed.

(** The product of the factors 1 + decay_rate * k for k = start, ...,
    start + n - 1, by which n consecutive epochs divide the learning rate. *)
Fixpoint decay_product_from (d : R) (start n : nat) : R :=
  match n with
  | O => 1
  | S n' => (1 + d * INR start) * decay_product_from d (S start) n'
  end.


Lemma decay_factor_pos d k : 0 <= d -> 1 <= 1 + d * INR k.
Proof.
  intros Hd. pose proof (pos_INR k).
  assert (0 <= d * INR k) by (apply Rmult_le_pos; assumption). lra.
Qed.



Lemma set_learning_rate_twice self a b :
  set_learning_rate (set_learning_rate self a) b = set_learning_rate self b.
Proof. reflexivity. Qed.

Lemma decay_product_from_nonzero d start n :
  (forall k, (start <= k < start + n)%nat -> 1 + d * INR k <> 0) ->
  decay_product_from d start n <> 0.
Proof.
  revert start. induction n as [|n IH]; intros start H; cbn [decay_product_from].
  - lra.
  - apply Rmult_integral_contrapositive_currified.
    + apply H. lia.
    + apply IH. intros k Hk. apply H. lia.
Qed.

Lemma fit_epochs_ok N f h C X X_data y_enc y pp n :
  forall start s w,
    fit_inv N f h C X X_data y_enc s w ->
    (forall k, (start <= k < start + n)%nat ->
               1 + decay_rate (v_self s) * INR k <> 0) ->
    (1 <= minibatch_size (v_self s) <= N)%nat -> length y = N -> (0 < C)%nat ->
    exists s' w',
      for_ (seq start n) (fit_epoch X y X_data y_enc y pp) s w = Ok (s', w') /\
      fit_inv N f h C X X_data y_enc s' w' /\
      (n = 0%nat -> v_self s' = v_self s) /\
      v_self s' = match n with
                  | O => v_self s
                  | S _ => set_learning_rate (v_self s)
                             (learning_rate (v_self s)
                              / decay_product_from (decay_rate (v_self s)) start n)
                  end.
Proof.
  induction n as [|n IH]; intros start s w Hinv Hd Hk Hy HC.
  - exists s, w. cbn [seq for_].
    split; [reflexivity|]. split; [exact Hinv|]. split; reflexivity.
  - assert (Hf : 1 + decay_rate (v_self s) * INR start <> 0) by (apply Hd; lia).
    destruct (@fit_epoch_ok N f h C X X_data y_enc y pp start s w Hinv
                Hf Hk Hy HC) as [s1 [w1' [E1 [Hinv1 Es1]]]].
    assert (Hd1 : forall k, (S start <= k < S start + n)%nat ->
                            1 + decay_rate (v_self s1) * INR k <> 0).
    { intros k Hr. rewrite Es1. cbn [decay_rate set_learning_rate]. apply Hd. lia. }
    destruct (IH (S start) s1 w1' Hinv1 Hd1) as [s' [w' [E' [Hinv' [_ Es']]]]];
      try (rewrite Es1; cbn [decay_rate minibatch_size set_learning_rate]; assumption);
      try assumption.
    exists s', w'. cbn [seq for_]. rewrite (@bind_eq _ _ _ _ _ _ E1).
    split; [exact E'|]. split; [exact Hinv'|]. split; [discriminate|].
    rewrite Es'. destruct n as [|n'].
    + rewrite Es1. cbn [decay_product_from]. f_equal. field. exact Hf.
    + rewrite Es1. rewrite set_learning_rate_twice.
      cbn [decay_rate learning_rate set_learning_rate].
      f_equal. change (decay_product_from (decay_rate (v_self s)) start (S (S n')))
        with ((1 + decay_rate (v_self s) * INR start)
              * decay_product_from (decay_rate (v_self s)) (S start) (S n')).
      assert (Hp : decay_product_from (decay_rate (v_self s)) (S start) (S n') <> 0).
      { apply decay_product_from_nonzero. intros k Hr. apply Hd. lia. }
      field. split; assumption.
Qed.

Lemma index_ok_wrap k C :
  (- Z.of_nat C <= k < Z.of_nat C)%Z -> np.index k C = Ok (wrap k C).
Proof.
  intros H. destruct (index_cases k C) as [E|E]; [exact E|].
  destruct (Z_lt_ge_dec k 0).
  - rewrite index_negative in E by lia. discriminate.
  - rewrite index_in_range in E by lia. discriminate.
Qed.

Definition one_hot (y : list Z) (C : nat) : ndarray :=
  tab C (length y) (fun r c => if (r =? wrap (nth c y 0%Z) C)%nat then 1 else 0).

Lemma fit_setup_ok self X y w N f h C :
  (X < length (heap w))%nat -> (w1 self < length (heap w))%nat ->
  (w2 self < length (heap w))%nat ->
  w1 self <> w2 self -> X <> w1 self -> X <> w2 self ->
  nrows (nth X (heap w) arr0) = N /\ ncols (nth X (heap w) arr0) = f ->
  nrows (nth (w1 self) (heap w) arr0) = h /\
  ncols (nth (w1 self) (heap w) arr0) = (f + 1)%nat ->
  nrows (nth (w2 self) (heap w) arr0) = C /\
  ncols (nth (w2 self) (heap w) arr0) = (h + 1)%nat ->
  n_output self = C -> length y = N ->
  (forall k, In k y -> (- Z.of_nat C <= k < Z.of_nat C)%Z) ->
  let n := length (heap w) in
  let s0 := mkvars self (n + 2) (n + 3) [] [] [] None in
  let w0 := mkworld (heap w ++ [nth X (heap w) arr0; one_hot y C;
                                np.zeros h (f + 1); np.zeros C (h + 1)])
                    (stdout w ++ [("fitting...now, please wait..."%string, [])]) in
  fit_setup self X y w = Ok ((n, (n + 1)%nat, s0), w0) /\
  fit_inv N f h C X n (n + 1) s0 w0.
Proof.
  intros VX VW1 VW2 D12 DX1 DX2 [SX1 SX2] [SW11 SW12] [SW21 SW22] EC Hy Hlab n s0 w0.
  split.
  - unfold fit_setup. run. rewrite EC.
    match goal with
    | |- bind (encode_labels _ _) _ ?w1' = _ =>
        rewrite (@bind_eq _ _ _ _ _ _ (@encode_labels_ok y C w1'
                   ltac:(intros i Hi; apply index_ok_wrap; apply Hlab;
                         apply nth_In; exact Hi)))
    end.
    cbv beta iota. run. rewrite SW11, SW12, SW21, SW22.
    unfold ret, s0, w0, one_hot, n.
    rewrite ?Nat.add_0_r. reflexivity.
  - unfold s0, w0, n.
    constructor; cbn [v_self prev_grad_w1 prev_grad_w2 heap];
      rewrite ?length_app; cbn [length]; heap_norm; heap_old.
    + repeat split; nat_lia.
    + repeat split; try assumption; nat_lia.
    + split; assumption.
    + split; assumption.
    + unfold one_hot. autorewrite with shape. split; [reflexivity|exact Hy].
    + split; assumption.
    + split; assumption.
    + split; reflexivity.
    + split; reflexivity.
Qed.


(* ================================================================= *)
(** * Further properties of the training loop *)

(** A training set of two samples of one feature, for a network of one
    hidden unit and two classes. *)
Definition X_two : ndarray := mkarr 2 1 [[1]; [-1]].
Definition W2_two : ndarray := mkarr 2 2 [[0; 0]; [0; 0]].
Definition world_fit : world := mkworld [X_two; W1_id; W2_two] [].
Definition y_two : list Z := [0; 1]%Z.
Definition nn_fit (epochs : nat) (lr decay : R) (minibatches : nat) : NeuralNetwork :=
  mkNN 2 1 1 1 2 0 epochs lr decay minibatches "Gradient Descent"
       (Some "relu"%string) ["Accuracy"%string].


Lemma y_two_in_range k : In k y_two -> (- Z.of_nat 2 <= k < Z.of_nat 2)%Z.
Proof. intros [<-|[<-|[]]]; cbn; lia. Qed.






Lemma for_app {A S} (l l' : list A) (body : A -> S -> M S) (s : S) w :
  for_ (l ++ l') body s w = bind (for_ l body s) (for_ l' body) w.
Proof.
  revert s w; induction l as [|x l IH]; intros s w.
  - reflexivity.
  - cbn [app for_]. rewrite bind_bind. unfold bind at 1 2.
    destruct (body x s w) as [[s1 w1']|e]; [apply IH|reflexivity].
Qed.

(** X2.  Before its first epoch [fit] leaves every array of the store as it
    was and binds four fresh ones: a copy of X, the one-hot encoding of y,
    and two all-zero "previous gradients" of the shapes of w1 and w2; it
    prints one line, and the loop invariant holds. *)
Theorem fit_setup_zero_previous_gradients :
  forall self X y w N f h C,
    (X < length (heap w))%nat -> (w1 self < length (heap w))%nat ->
    (w2 self < length (heap w))%nat ->
    w1 self <> w2 self -> X <> w1 self -> X <> w2 self ->
    nrows (nth X (heap w) arr0) = N /\ ncols (nth X (heap w) arr0) = f ->
    nrows (nth (w1 self) (heap w) arr0) = h /\
    ncols (nth (w1 self) (heap w) arr0) = (f + 1)%nat ->
    nrows (nth (w2 self) (heap w) arr0) = C /\
    ncols (nth (w2 self) (heap w) arr0) = (h + 1)%nat ->
    n_output self = C -> length y = N ->
    (forall k, In k y -> (- Z.of_nat C <= k < Z.of_nat C)%Z) ->
    exists X_data y_enc s w',
      fit_setup self X y w = Ok ((X_data, y_enc, s), w') /\
      firstn (length (heap w)) (heap w') = heap w /\
      length (heap w') = (length (heap w) + 4)%nat /\
      X_data <> X /\ nth X_data (heap w') arr0 = nth X (heap w) arr0 /\
      (forall i j, (i < C)%nat -> (j < N)%nat ->
         get (nth y_enc (heap w') arr0) i j =
         if (i =? wrap (nth j y 0%Z) C)%nat then 1 else 0) /\
      (nrows (nth (prev_grad_w1 s) (heap w') arr0) = h /\
       ncols (nth (prev_grad_w1 s) (heap w') arr0) = (f + 1)%nat /\
       forall i j, get (nth (prev_grad_w1 s) (heap w') arr0) i j = 0) /\
      (nrows (nth (prev_grad_w2 s) (heap w') arr0) = C /\
       ncols (nth (prev_grad_w2 s) (heap w') arr0) = (h + 1)%nat /\
       forall i j, get (nth (prev_grad_w2 s) (heap w') arr0) i j = 0) /\
      v_self s = self /\ costs s = [] /\ cost s = None /\
      stdout w' = stdout w ++ [("fitting...now, please wait..."%string, [])] /\
      fit_inv N f h C X X_data y_enc s w'.
Proof.
  intros self X y w N f h C VX VW1 VW2 D12 DX1 DX2 SX SW1 SW2 EC Hy Hlab.
  destruct (@fit_setup_ok self X y w N f h C VX VW1 VW2 D12 DX1 DX2 SX SW1 SW2
              EC Hy Hlab) as [Es Hinv].
  do 4 eexists. split; [exact Es|].
  cbn [heap stdout prev_grad_w1 prev_grad_w2 v_self costs cost].
  assert (Hz : forall r c i j, get (np.zeros r c) i j = 0).
  { intros r c i j. unfold np.zeros, np.full.
    destruct (Nat.lt_ge_cases i r) as [Hi|Hi], (Nat.lt_ge_cases j c) as [Hj|Hj];
      try (apply get_tab; assumption);
      unfold get, tab; cbn [rows].
    - rewrite (@nth_indep _ _ i [] (map (fun _ => 0) (seq 0 c)))
        by (rewrite length_map, length_seq; exact Hi).
      rewrite (map_nth (fun i0 => map (fun _ => 0) (seq 0 c)) (seq 0 r) 0%nat i).
      apply nth_overflow. rewrite length_map, length_seq. exact Hj.
    - rewrite (nth_overflow _ [] (n := i)) by (rewrite length_map, length_seq; exact Hi).
      destruct j; reflexivity.
    - rewrite (nth_overflow _ [] (n := i)) by (rewrite length_map, length_seq; exact Hi).
      destruct j; reflexivity. }
  split; [rewrite firstn_app, firstn_all, Nat.sub_diag; cbn [firstn]; apply app_nil_r|].
  split; [rewrite length_app; reflexivity|].
  split; [nat_lia|].
  heap_norm.
  split; [reflexivity|].
  split.
  { intros i j Hi Hj. unfold one_hot. rewrite Hy. apply get_tab; assumption. }
  split; [autorewrite with shape; repeat split; apply Hz|].
  split; [autorewrite with shape; repeat split; apply Hz|].
  repeat (split; [reflexivity|]). exact Hinv.
Qed.

Lemma fit_setup_zero_previous_gradients_witness :
  exists X_data y_enc s w',
    fit_setup (nn_fit 1 1 0 1) 0 y_two world_fit = Ok ((X_data, y_enc, s), w') /\
    get (nth (prev_grad_w1 s) (heap w') arr0) 0 1 = 0 /\
    get (nth y_enc (heap w') arr0) 1 1 = 1.
Proof.
  destruct (@fit_setup_zero_previous_gradients (nn_fit 1 1 0 1) 0%nat y_two world_fit
              2%nat 1%nat 1%nat 2%nat)
    as [X_data [y_enc [s [w' [E [_ [_ [_ [_ [HY [[_ [_ HP]] _]]]]]]]]]]];
    try concrete_side; [exact y_two_in_range|].
  exists X_data, y_enc, s, w'. split; [exact E|]. split; [apply HP|].
  rewrite HY by lia. reflexivity.
Defined.

(** X3.  A label below -n_output or at least n_output makes [fit] raise
    IndexError before any training, whatever the shapes of X and of the
    weights. *)
Theorem fit_raises_on_out_of_range_label :
  forall self X y print_progress w,
    (exists k, In k y /\
               (k < - Z.of_nat (n_output self) \/ Z.of_nat (n_output self) <= k)%Z) ->
    fit self X y print_progress w = Raise IndexError.
Proof.
  intros self X y pp w [k [Hk Hout]].
  unfold fit, fit_setup. rewrite ?bind_bind. run.
  rewrite ?bind_bind.
  match goal with
  | |- bind (encode_labels ?yy ?c) _ ?w0 = _ =>
      rewrite (@bind_eq _ _ _ _ _ _ (@encode_labels_raise yy c w0
        ltac:(destruct (In_nth y k 0%Z Hk) as [i [Hi E]]; exists i;
              split; [exact Hi|rewrite E; apply index_out_of_range; exact Hout])))
  end.
  reflexivity.
Qed.

Lemma fit_raises_on_out_of_range_label_witness :
  fit (nn_fit 1 1 0 1) 0 [0; 2]%Z true world_fit = Raise IndexError.
Proof.
  apply fit_raises_on_out_of_range_label.
  exists 2%Z. split; [right; left; reflexivity|cbn; lia].
Defined.





Lemma decay_factor_nonzero d k : 0 <= d -> 1 + d * INR k <> 0.
Proof. intros Hd. pose proof (decay_factor_pos k Hd). lra. Qed.




(** X5.  When the factor 1 + decay_rate * m of some epoch m < epochs is
    zero, that is decay_rate = -1/m, and no earlier one is, [fit] on a
    well-shaped training set raises ZeroDivisionError. *)
Theorem fit_raises_on_zero_decay_factor :
  forall self X y print_progress w N f h C m,
    (X < length (heap w))%nat -> (w1 self < length (heap w))%nat ->
    (w2 self < length (heap w))%nat ->
    w1 self <> w2 self -> X <> w1 self -> X <> w2 self ->
    nrows (nth X (heap w) arr0) = N /\ ncols (nth X (heap w) arr0) = f ->
    nrows (nth (w1 self) (heap w) arr0) = h /\
    ncols (nth (w1 self) (heap w) arr0) = (f + 1)%nat ->
    nrows (nth (w2 self) (heap w) arr0) = C /\
    ncols (nth (w2 self) (heap w) arr0) = (h + 1)%nat ->
    n_output self = C -> length y = N ->
    (forall k, In k y -> (- Z.of_nat C <= k < Z.of_nat C)%Z) ->
    (1 <= minibatch_size self <= N)%nat -> (0 < C)%nat ->
    (m < epochs self)%nat ->
    1 + decay_rate self * INR m = 0 ->
    (forall k, (k < m)%nat -> 1 + decay_rate self * INR k <> 0) ->
    fit self X y print_progress w = Raise ZeroDivisionError.
Proof.
  intros self X y pp w N f h C m VX VW1 VW2 D12 DX1 DX2 SX SW1 SW2 EC Hy Hlab Hk HC
         Hm Hz Hnz.
  destruct (@fit_setup_ok self X y w N f h C VX VW1 VW2 D12 DX1 DX2 SX SW1 SW2
              EC Hy Hlab) as [Es Hinv].
  unfold fit. rewrite (@bind_eq _ _ _ _ _ _ Es). cbv beta iota.
  replace (epochs self) with (m + S (epochs self - S m))%nat by lia.
  rewrite seq_app. cbn [seq Nat.add]. unfold bind at 1. rewrite for_app.
  match type of Hinv with
  | fit_inv _ _ _ _ _ ?xd ?ye ?s0 ?w0 =>
      destruct (@fit_epochs_ok N f h C X xd ye y pp m 0%nat s0 w0
                  Hinv ltac:(intros k Hr; apply Hnz; lia) Hk Hy HC)
        as [s' [w' [E' [_ [_ Es']]]]]
  end.
  rewrite (@bind_eq _ _ _ _ _ _ E'). cbv beta iota.
  cbn [for_]. unfold fit_epoch at 1.
  assert (Ed : decay_rate (v_self s') = decay_rate self).
  { rewrite Es'. destruct m; reflexivity. }
  rewrite Ed, Hz, Reqb_true. reflexivity.
Qed.

Lemma fit_raises_on_zero_decay_factor_witness :
  fit (nn_fit 2 1 (-1) 1) 0 y_two true world_fit = Raise ZeroDivisionError.
Proof.
  apply (@fit_raises_on_zero_decay_factor (nn_fit 2 1 (-1) 1) 0%nat y_two true
           world_fit 2%nat 1%nat 1%nat 2%nat 1%nat); try concrete_side.
  - exact y_two_in_range.
  - cbn; lia.
  - cbn. lra.
  - intros k Hk. assert (k = 0%nat) by lia. subst k. cbn. lra.
Defined.

(** X6.  With minibatch_size = 0 and at least one epoch, [fit] on a
    well-shaped training set raises ValueError when it splits the sample
    indices, before any forward pass. *)
Theorem fit_raises_without_minibatches :
  forall self X y print_progress w N f h C,
    (X < length (heap w))%nat -> (w1 self < length (heap w))%nat ->
    (w2 self < length (heap w))%nat ->
    w1 self <> w2 self -> X <> w1 self -> X <> w2 self ->
    nrows (nth X (heap w) arr0) = N /\ ncols (nth X (heap w) arr0) = f ->
    nrows (nth (w1 self) (heap w) arr0) = h /\
    ncols (nth (w1 self) (heap w) arr0) = (f + 1)%nat ->
    nrows (nth (w2 self) (heap w) arr0) = C /\
    ncols (nth (w2 self) (heap w) arr0) = (h + 1)%nat ->
    n_output self = C -> length y = N ->
    (forall k, In k y -> (- Z.of_nat C <= k < Z.of_nat C)%Z) ->
    minibatch_size self = 0%nat -> (0 < epochs self)%nat ->
    fit self X y print_progress w = Raise ValueError.
Proof.
  intros self X y pp w N f h C VX VW1 VW2 D12 DX1 DX2 SX SW1 SW2 EC Hy Hlab Hk He.
  destruct (@fit_setup_ok self X y w N f h C VX VW1 VW2 D12 DX1 DX2 SX SW1 SW2
              EC Hy Hlab) as [Es Hinv].
  unfold fit. rewrite (@bind_eq _ _ _ _ _ _ Es). cbv beta iota.
  destruct (epochs self) as [|E]; [lia|].
  cbn [seq for_]. unfold fit_epoch at 1.
  cbn [v_self INR]. rewrite Reqb_false by (rewrite Rmult_0_r; lra).
  unfold bind at 1. rewrite bind_bind, bind_ret.
  cbn [minibatch_size set_learning_rate]. rewrite Hk.
  unfold np.array_split_range. cbn [Nat.eqb]. reflexivity.
Qed.

Lemma fit_raises_without_minibatches_witness :
  fit (nn_fit 1 1 0 0) 0 y_two true world_fit = Raise ValueError.
Proof.
  apply (@fit_raises_without_minibatches (nn_fit 1 1 0 0) 0%nat y_two true
           world_fit 2%nat 1%nat 1%nat 2%nat); try concrete_side.
  - exact y_two_in_range.
Defined.

(* ================================================================= *)
(** * Further properties of the forward pass and of prediction *)

Lemma flat_no_columns a : ncols a = 0%nat -> np.flat a = [].
Proof.
  intros E. unfold np.flat. rewrite E. cbn [seq List.map].
  induction (seq 0 (nrows a)) as [|i l IH]; [reflexivity|exact IH].
Qed.

Lemma flat_no_rows a : nrows a = 0%nat -> np.flat a = [].
Proof. intros E. unfold np.flat. rewrite E. reflexivity. Qed.

Lemma max_empty a : nrows a = 0%nat \/ ncols a = 0%nat -> np.max a = Raise ValueError.
Proof.
  intros [E|E]; unfold np.max;
    [rewrite flat_no_rows by exact E|rewrite flat_no_columns by exact E]; reflexivity.
Qed.

(** The forward pass on a batch without samples, or for a network without
    output units: both products are defined, z3 has no entry, and
    [np.max] in [softmax] raises. *)
Lemma forward_values_empty X w1 w2 N f h C :
  nrows X = N /\ ncols X = f ->
  nrows w1 = h /\ ncols w1 = (f + 1)%nat ->
  nrows w2 = C /\ ncols w2 = (h + 1)%nat ->
  N = 0%nat \/ C = 0%nat ->
  forward_values X w1 w2 = Raise ValueError.
Proof.
  intros [SX1 SX2] [S11 S12] [S21 S22] HE.
  unfold forward_values.
  rewrite dot_ok by (autorewrite with shape; lia). cbn [res_bind].
  rewrite dot_ok by (autorewrite with shape; lia). cbn [res_bind].
  unfold softmax_value, softmax_shifted.
  rewrite max_empty; [reflexivity|].
  autorewrite with shape. lia.
Qed.

(** X7.  On a batch without samples (X of shape (0, f)) and weights of the
    shapes of the network, [forward] raises ValueError: the maximum in
    [softmax] is taken over an array without entries.  So do [predict] and,
    whatever the labels, [accuracy]. *)
Theorem forward_raises_on_empty_batch :
  forall self X w f h C,
    (X < length (heap w))%nat -> (w1 self < length (heap w))%nat ->
    (w2 self < length (heap w))%nat ->
    nrows (nth X (heap w) arr0) = 0%nat /\ ncols (nth X (heap w) arr0) = f ->
    nrows (nth (w1 self) (heap w) arr0) = h /\
    ncols (nth (w1 self) (heap w) arr0) = (f + 1)%nat ->
    nrows (nth (w2 self) (heap w) arr0) = C /\
    ncols (nth (w2 self) (heap w) arr0) = (h + 1)%nat ->
    forward self X (w1 self) (w2 self) w = Raise ValueError /\
    predict self X w = Raise ValueError /\
    (forall y, accuracy (F := R) self X y w = Raise ValueError) /\
    (forall y, accuracy (F := float) self X y w = Raise ValueError).
Proof.
  intros self X w f h C VX V1 V2 SX S1 S2.
  assert (E : forward self X (w1 self) (w2 self) w = Raise ValueError).
  { rewrite forward_eq by assumption.
    rewrite (@forward_values_empty _ _ _ 0%nat f h C) by auto. reflexivity. }
  assert (P : predict self X w = Raise ValueError).
  { unfold predict. rewrite (@bind_eq _ _ _ _ _ _ E). reflexivity. }
  split; [exact E|]. split; [exact P|].
  split; intros y; unfold accuracy; rewrite (@bind_eq _ _ _ _ _ _ P); reflexivity.
Qed.

Definition world_empty : world :=
  mkworld [mkarr 0 1 []; W1_id; W2_two] [].

Lemma forward_raises_on_empty_batch_witness :
  predict (nn_fit 1 1 0 1) 0 world_empty = Raise ValueError.
Proof.
  apply (@forward_raises_on_empty_batch (nn_fit 1 1 0 1) 0%nat world_empty
           1%nat 1%nat 2%nat); try concrete_side.
Defined.

Lemma fit_minibatch_empty N f h C X X_data y_enc s w :
  fit_inv N f h C X X_data y_enc s w ->
  fit_minibatch X_data y_enc (np.mkidx true []) s w = Raise ValueError.
Proof.
  intros [HV HD SX SD SY SW1 SW2 SP1 SP2].
  destruct HV as [VX [VD [VY [VW1 [VW2 [VP1 VP2]]]]]].
  unfold fit_minibatch. run.
  rewrite getitem_rows_ok by (try reflexivity; constructor).
  cbn [np.indices]. rewrite bind_lift_ok. run.
  match goal with
  | |- bind (forward ?sf ?x ?a ?b) _ ?w0 = _ =>
      assert (E : forward sf x a b w0 = Raise ValueError)
  end.
  { rewrite forward_eq by (cbn [heap]; rewrite length_app; cbn [length]; nat_lia).
    cbn [heap]. heap_norm. heap_old.
    rewrite (@forward_values_empty _ _ _ 0%nat f h C);
      [reflexivity| |assumption|assumption|left; reflexivity].
    autorewrite with shape. split; [reflexivity|tauto]. }
  rewrite (@bind_eq _ _ _ _ _ _ E). reflexivity.
Qed.

Lemma split_from_app start a b :
  np.split_from start (a ++ b) =
  np.split_from start a ++ np.split_from (start + list_sum a) b.
Proof.
  revert start. induction a as [|z a IH]; intros start.
  - cbn. rewrite Nat.add_0_r. reflexivity.
  - cbn [app np.split_from]. rewrite IH.
    change (list_sum (z :: a)) with (z + list_sum a)%nat.
    rewrite Nat.add_assoc. reflexivity.
Qed.

(** A batch of float indices is refused by the first statement of the
    loop body, [X_data[idx]]. *)
Lemma fit_minibatch_float_index X_data y_enc l s w :
  fit_minibatch X_data y_enc (np.mkidx false l) s w = Raise IndexError.
Proof. unfold fit_minibatch. run. reflexivity. Qed.

Lemma split_from_ones start n :
  np.split_from start (repeat 1%nat n) = map (fun i => [i]) (seq start n).
Proof.
  revert start. induction n as [|n IH]; intros start; [reflexivity|].
  cbn [repeat np.split_from seq map]. rewrite IH.
  replace (start + 1)%nat with (S start) by lia. reflexivity.
Qed.

Lemma split_from_zeros start n :
  np.split_from start (repeat 0%nat n) = repeat [] n.
Proof.
  revert start. induction n as [|n IH]; intros start; [reflexivity|].
  cbn [repeat np.split_from seq]. rewrite IH. reflexivity.
Qed.

(** X8.  With more minibatches than the N >= 1 samples, [np.array_split]
    returns N batches of one sample followed by empty ones, and [fit]
    raises ValueError: the forward pass on an empty batch fails in
    [softmax]. *)
Theorem fit_raises_on_more_minibatches_than_samples :
  forall self X y print_progress w N f h C,
    (X < length (heap w))%nat -> (w1 self < length (heap w))%nat ->
    (w2 self < length (heap w))%nat ->
    w1 self <> w2 self -> X <> w1 self -> X <> w2 self ->
    nrows (nth X (heap w) arr0) = N /\ ncols (nth X (heap w) arr0) = f ->
    nrows (nth (w1 self) (heap w) arr0) = h /\
    ncols (nth (w1 self) (heap w) arr0) = (f + 1)%nat ->
    nrows (nth (w2 self) (heap w) arr0) = C /\
    ncols (nth (w2 self) (heap w) arr0) = (h + 1)%nat ->
    n_output self = C -> length y = N ->
    (forall k, In k y -> (- Z.of_nat C <= k < Z.of_nat C)%Z) ->
    (0 < N)%nat -> (N < minibatch_size self)%nat -> (0 < epochs self)%nat ->
    np.array_split_range N (minibatch_size self) =
      Ok (map (fun i => np.mkidx true [i]) (seq 0 N)
          ++ repeat (np.mkidx true []) (minibatch_size self - N)) /\
    fit self X y print_progress w = Raise ValueError.
Proof.
  intros self X y pp w N f h C VX VW1 VW2 D12 DX1 DX2 SX SW1 SW2 EC Hy Hlab HN Hk He.
  assert (Esplit : np.array_split_range N (minibatch_size self) =
            Ok (map (fun i => np.mkidx true [i]) (seq 0 N)
                ++ repeat (np.mkidx true []) (minibatch_size self - N))).
  { unfold np.array_split_range.
    replace (minibatch_size self =? 0)%nat with false
      by (symmetry; apply Nat.eqb_neq; lia).
    replace (N =? 0)%nat with false by (symmetry; apply Nat.eqb_neq; lia).
    cbn [negb].
    rewrite Nat.div_small, Nat.mod_small by lia.
    rewrite split_from_app, split_from_ones, split_from_zeros.
    rewrite map_app, map_map, map_repeat. reflexivity. }
  split; [exact Esplit|].
  destruct (@fit_setup_ok self X y w N f h C VX VW1 VW2 D12 DX1 DX2 SX SW1 SW2
              EC Hy Hlab) as [Es Hinv].
  unfold fit. rewrite (@bind_eq _ _ _ _ _ _ Es). cbv beta iota.
  destruct (epochs self) as [|E]; [lia|].
  cbn [seq for_]. unfold fit_epoch at 1.
  cbn [v_self INR]. rewrite Reqb_false by (rewrite Rmult_0_r; lra).
  unfold bind at 1. rewrite bind_bind, bind_ret.
  cbn [minibatch_size set_learning_rate]. rewrite Hy, Esplit.
  rewrite bind_bind, bind_lift_ok.
  rewrite bind_bind. unfold bind at 1. rewrite for_app.
  assert (Hb : Forall (batch_ok N) (map (fun i => np.mkidx true [i]) (seq 0 N))).
  { apply Forall_forall. intros b Hin. apply in_map_iff in Hin.
    destruct Hin as [i [<- Hi]]. apply in_seq in Hi.
    split; [reflexivity|]. split; [discriminate|]. constructor; [lia|constructor]. }
  assert (HC : (0 < C)%nat).
  { destruct y as [|k0 y']; [cbn in Hy; lia|].
    specialize (Hlab k0 (or_introl eq_refl)). lia. }
  match goal with
  | |- context [for_ (map _ (seq 0 N)) ?body ?s0] =>
      destruct (@fit_batches_ok N f h C X (length (heap w))
                  (length (heap w) + 1)%nat _ HC Hb s0
                  (mkworld (heap w ++ [nth X (heap w) arr0; one_hot y C;
                                       np.zeros h (f + 1); np.zeros C (h + 1)])
                           (stdout w ++ [("fitting...now, please wait..."%string, [])])))
        as [s' [w' [E' [Hinv' _]]]];
        [apply fit_inv_self; [reflexivity|reflexivity|exact Hinv]|]
  end.
  rewrite (@bind_eq _ _ _ _ _ _ E'). cbv beta iota.
  destruct (minibatch_size self - N)%nat as [|n] eqn:En; [lia|].
  cbn [repeat for_].
  rewrite (@bind_eq _ _ _ _ _ _ (fit_minibatch_empty Hinv')). reflexivity.
Qed.

Lemma fit_raises_on_more_minibatches_than_samples_witness :
  fit (nn_fit 1 1 0 3) 0 y_two true world_fit = Raise ValueError.
Proof.
  apply (@fit_raises_on_more_minibatches_than_samples (nn_fit 1 1 0 3) 0%nat y_two true
           world_fit 2%nat 1%nat 1%nat 2%nat); try concrete_side.
  - exact y_two_in_range.
Defined.

(** X21.  A training set without labels (y of length 0), whatever X and
    the weights: with at least one minibatch and one epoch,
    [np.array_split] slices the array of an empty range, which has dtype
    float64, and [fit] raises IndexError at [X_data[idx]], a float array
    being refused as an index. *)
Theorem fit_raises_on_empty_training_set :
  forall self X print_progress w,
    (0 < minibatch_size self)%nat -> (0 < epochs self)%nat ->
    np.array_split_range 0 (minibatch_size self) =
      Ok (repeat (np.mkidx false []) (minibatch_size self)) /\
    fit self X [] print_progress w = Raise IndexError.
Proof.
  intros self X pp w Hk He.
  assert (Esplit : np.array_split_range 0 (minibatch_size self) =
                   Ok (repeat (np.mkidx false []) (minibatch_size self))).
  { unfold np.array_split_range.
    replace (minibatch_size self =? 0)%nat with false
      by (symmetry; apply Nat.eqb_neq; lia).
    cbn [Nat.eqb negb]. rewrite Nat.div_small, Nat.mod_small by lia.
    cbn [repeat app]. rewrite Nat.sub_0_r, split_from_zeros, map_repeat.
    reflexivity. }
  split; [exact Esplit|].
  unfold fit, fit_setup. rewrite ?bind_bind. run. rewrite ?bind_bind.
  rewrite (@bind_eq _ _ _ _ _ _ (@encode_labels_ok [] (n_output self) _
             ltac:(intros i Hi; cbn in Hi; lia))).
  cbv beta iota. run.
  destruct (epochs self) as [|E]; [lia|].
  cbn [seq for_]. unfold fit_epoch at 1.
  cbn [v_self INR]. rewrite Reqb_false by (rewrite Rmult_0_r; lra).
  rewrite ?bind_bind. rewrite bind_ret.
  cbn [minibatch_size set_learning_rate length]. rewrite Esplit.
  rewrite ?bind_bind, bind_lift_ok.
  destruct (minibatch_size self) as [|k]; [lia|].
  cbn [repeat for_]. rewrite ?bind_bind.
  rewrite (@bind_eq _ _ _ _ _ _ (fit_minibatch_float_index _ _ _ _ _)).
  reflexivity.
Qed.

Lemma fit_raises_on_empty_training_set_witness :
  fit (nn_fit 1 1 0 1) 0 [] true world_empty = Raise IndexError.
Proof.
  apply (@fit_raises_on_empty_training_set (nn_fit 1 1 0 1) 0%nat true world_empty);
    cbn; lia.
Defined.

(** ** np.argmax *)

Lemma Rltb_true x y : Rltb x y = true <-> x < y.
Proof. unfold Rltb. destruct (Rlt_dec x y); split; intros; try discriminate; tauto. Qed.

Lemma Rltb_false x y : Rltb x y = false <-> y <= x.
Proof.
  unfold Rltb. destruct (Rlt_dec x y); split; intros; try discriminate; try lra.
Qed.

(** The scan of [argmax] over the entries that follow a prefix [pre]:
    [best] is the first position of the maximum [bv] of the prefix. *)
Lemma argmax_from_spec l :
  forall pre best bv,
    (best < length pre)%nat -> nth best pre 0 = bv ->
    (forall i, (i < length pre)%nat -> nth i pre 0 <= bv) ->
    (forall i, (i < best)%nat -> nth i pre 0 < bv) ->
    let k := np.argmax_from l (length pre) best bv in
    (k < length (pre ++ l))%nat /\
    (forall i, (i < length (pre ++ l))%nat -> nth i (pre ++ l) 0 <= nth k (pre ++ l) 0) /\
    (forall i, (i < k)%nat -> nth i (pre ++ l) 0 < nth k (pre ++ l) 0).
Proof.
  induction l as [|x l IH]; intros pre best bv Hb Eb Hmax Hfirst; cbn [np.argmax_from].
  - rewrite app_nil_r. rewrite Eb. repeat split; assumption.
  - replace (pre ++ x :: l) with ((pre ++ [x]) ++ l) by (rewrite <- app_assoc; reflexivity).
    replace (S (length pre)) with (length (pre ++ [x]))
      by (rewrite length_app; cbn [length]; lia).
    destruct (Rltb bv x) eqn:Ex.
    + apply Rltb_true in Ex. apply IH.
      * rewrite length_app. cbn [length]. lia.
      * rewrite app_nth2 by lia. rewrite Nat.sub_diag. reflexivity.
      * intros i Hi. rewrite length_app in Hi. cbn [length] in Hi.
        destruct (Nat.lt_ge_cases i (length pre)) as [Hlt|Hge].
        -- rewrite app_nth1 by assumption. specialize (Hmax i Hlt). lra.
        -- replace i with (length pre) by lia.
           rewrite app_nth2 by lia. rewrite Nat.sub_diag. cbn. lra.
      * intros i Hi. rewrite app_nth1 by assumption. specialize (Hmax i Hi). lra.
    + apply Rltb_false in Ex. apply IH.
      * rewrite length_app. cbn [length]. lia.
      * rewrite app_nth1 by assumption. exact Eb.
      * intros i Hi. rewrite length_app in Hi. cbn [length] in Hi.
        destruct (Nat.lt_ge_cases i (length pre)) as [Hlt|Hge].
        -- rewrite app_nth1 by assumption. apply Hmax. assumption.
        -- replace i with (length pre) by lia.
           rewrite app_nth2 by lia. rewrite Nat.sub_diag. cbn. exact Ex.
      * intros i Hi. rewrite app_nth1 by lia. apply Hfirst. assumption.
Qed.

(** [np.argmax] of a non-empty list: the first position of its maximum. *)
Lemma argmax_list_spec l :
  l <> [] ->
  let k := np.argmax_list l in
  (k < length l)%nat /\
  (forall i, (i < length l)%nat -> nth i l 0 <= nth k l 0) /\
  (forall i, (i < k)%nat -> nth i l 0 < nth k l 0).
Proof.
  destruct l as [|x l]; [congruence|]. intros _.
  cbn [np.argmax_list].
  apply (@argmax_from_spec l [x] 0%nat x).
  - cbn. lia.
  - reflexivity.
  - intros [|i] Hi; cbn in *; [lra|lia].
  - intros i Hi. lia.
Qed.

Lemma nth_column a j n i :
  (i < n)%nat -> nth i (map (fun i0 => get a i0 j) (seq 0 n)) 0 = get a i j.
Proof.
  intros Hi.
  rewrite nth_indep with (d' := get a 0%nat j) by (rewrite length_map, length_seq; exact Hi).
  rewrite (map_nth (fun i0 => get a i0 j) (seq 0 n) 0%nat i).
  rewrite seq_nth by exact Hi. reflexivity.
Qed.



(** X10.  Decoding inverts encoding: for labels in [0, C), C >= 1, the
    row index of the maximum of every column of [encode_labels y C]
    ([np.argmax] along axis 0, the decoding [predict] applies to the output
    of the network) is the label again; a negative label k >= -C, which the
    encoder accepts, is decoded as k + C. *)
Theorem argmax_decodes_one_hot :
  forall y C w,
    (0 < C)%nat ->
    (forall k, In k y -> (- Z.of_nat C <= k < Z.of_nat C)%Z) ->
    exists onehot w',
      encode_labels y C w = Ok (onehot, w') /\
      np.argmax_axis0 (nth onehot (heap w') arr0) =
        Ok (map (fun k => (k mod Z.of_nat C)%Z) y) /\
      ((forall k, In k y -> (0 <= k)%Z) ->
       np.argmax_axis0 (nth onehot (heap w') arr0) = Ok y).
Proof.
  intros y C w HC Hlab.
  assert (Hi : forall i, (i < length y)%nat ->
             np.index (nth i y 0%Z) C = Ok (wrap (nth i y 0%Z) C)).
  { intros i Hi. apply index_ok_wrap. apply Hlab. apply nth_In. exact Hi. }
  assert (Hw : forall k, (- Z.of_nat C <= k < Z.of_nat C)%Z ->
             (wrap k C < C)%nat /\ Z.of_nat (wrap k C) = (k mod Z.of_nat C)%Z).
  { intros k Hk. unfold wrap. destruct (Z_lt_ge_dec k 0).
    - rewrite index_negative by lia. split; [lia|].
      rewrite Z2Nat.id by lia.
      symmetry. rewrite <- (Z.mod_add k 1 (Z.of_nat C)) by lia.
      rewrite Z.mul_1_l. apply Z.mod_small. lia.
    - rewrite index_in_range by lia. split; [lia|].
      rewrite Z2Nat.id by lia. symmetry. apply Z.mod_small. lia. }
  assert (E : np.argmax_axis0
                (tab C (length y) (fun r c =>
                   if (r =? wrap (nth c y 0%Z) C)%nat then 1 else 0)) =
              Ok (map (fun k => (k mod Z.of_nat C)%Z) y)).
  { unfold np.argmax_axis0. rewrite nrows_tab, ncols_tab.
    replace (C =? 0)%nat with false by (symmetry; apply Nat.eqb_neq; lia).
    f_equal. apply nth_ext with (d := 0%Z) (d' := 0%Z).
    { rewrite !length_map, length_seq. reflexivity. }
    intros j Hj. rewrite length_map, length_seq in Hj.
    rewrite nth_indep with (d' := (fun j0 => Z.of_nat (np.argmax_list
               (map (fun i => get (tab C (length y) (fun r c =>
                   if (r =? wrap (nth c y 0%Z) C)%nat then 1 else 0)) i j0)
                    (seq 0 C)))) 0%nat)
      by (rewrite length_map, length_seq; exact Hj).
    rewrite (map_nth (fun j0 => Z.of_nat (np.argmax_list
               (map (fun i => get (tab C (length y) (fun r c =>
                   if (r =? wrap (nth c y 0%Z) C)%nat then 1 else 0)) i j0)
                    (seq 0 C)))) (seq 0 (length y)) 0%nat j).
    rewrite seq_nth by exact Hj. cbn [Nat.add].
    rewrite nth_indep with (d' := (fun k => (k mod Z.of_nat C)%Z) 0%Z)
      by (rewrite length_map; exact Hj).
    rewrite (map_nth (fun k => (k mod Z.of_nat C)%Z) y 0%Z j).
    destruct (Hw (nth j y 0%Z) (Hlab _ (nth_In y 0%Z Hj))) as [Hlt <-].
    f_equal.
    match goal with |- np.argmax_list ?l = _ => set (col := l) end.
    assert (Hne : col <> []) by (unfold col; destruct C; [lia|cbn; discriminate]).
    destruct (argmax_list_spec Hne) as [Hk [Hmax _]].
    assert (Hlen : length col = C)
      by (unfold col; rewrite length_map, length_seq; reflexivity).
    rewrite Hlen in Hk, Hmax.
    assert (Hc : forall i, (i < C)%nat ->
              nth i col 0 = if (i =? wrap (nth j y 0%Z) C)%nat then 1 else 0).
    { intros i Hi'. unfold col. rewrite nth_column by exact Hi'.
      apply get_tab; assumption. }
    specialize (Hmax _ Hlt). rewrite !Hc in Hmax by assumption.
    rewrite Nat.eqb_refl in Hmax.
    destruct (np.argmax_list col =? wrap (nth j y 0%Z) C)%nat eqn:Ek;
      [apply Nat.eqb_eq; exact Ek|lra]. }
  do 2 eexists. split; [apply encode_labels_ok; exact Hi|].
  cbn [heap]. heap_norm. split; [exact E|].
  intros Hpos. rewrite E. f_equal.
  rewrite <- (map_id y) at 2. apply map_ext_in.
  intros k Hk. apply Z.mod_small. specialize (Hlab k Hk). specialize (Hpos k Hk). lia.
Qed.

Lemma argmax_decodes_one_hot_witness :
  exists onehot w',
    encode_labels [0; 2; 1]%Z 3 (mkworld [] []) = Ok (onehot, w') /\
    np.argmax_axis0 (nth onehot (heap w') arr0) = Ok [0; 2; 1]%Z.
Proof.
  destruct (@argmax_decodes_one_hot [0; 2; 1]%Z 3%nat (mkworld [] []))
    as [onehot [w' [E [_ D]]]].
  - lia.
  - intros k [<-|[<-|[<-|[]]]]; cbn; lia.
  - exists onehot, w'. split; [exact E|]. apply D.
    intros k [<-|[<-|[<-|[]]]]; lia.
Defined.

(** ** The cost of one-hot labels *)

Lemma sigma_S n f : sigma (S n) f = sigma n f + f n.
Proof.
  unfold sigma. rewrite seq_S, map_app, Rsum_app. cbn. ring.
Qed.

Lemma sigma_plus n f g : sigma n (fun k => f k + g k) = sigma n f + sigma n g.
Proof.
  induction n as [|n IH]; [unfold sigma; cbn; ring|].
  rewrite !sigma_S, IH. ring.
Qed.

Lemma sigma_zero n : sigma n (fun _ => 0) = 0.
Proof. induction n as [|n IH]; [reflexivity|]. rewrite sigma_S, IH. ring. Qed.

Lemma sigma_swap n m (f : nat -> nat -> R) :
  sigma n (fun i => sigma m (fun j => f i j)) =
  sigma m (fun j => sigma n (fun i => f i j)).
Proof.
  induction n as [|n IH].
  - rewrite (@sigma_ext m _ (fun _ => 0)) by (intros; reflexivity).
    rewrite sigma_zero. reflexivity.
  - rewrite sigma_S, IH, <- sigma_plus.
    apply sigma_ext. intros j Hj. rewrite sigma_S. reflexivity.
Qed.

Lemma sigma_nonneg n f :
  (forall k, (k < n)%nat -> 0 <= f k) -> 0 <= sigma n f.
Proof.
  intros H. unfold sigma. apply Rsum_nonneg. apply Forall_forall.
  intros x Hx. apply in_map_iff in Hx. destruct Hx as [k [<- Hk]].
  apply in_seq in Hk. apply H. lia.
Qed.

(** A sum against an indicator picks one term. *)
Lemma sigma_pick n k (g : nat -> R) :
  (k < n)%nat ->
  sigma n (fun i => (if (i =? k)%nat then 1 else 0) * g i) = g k.
Proof.
  induction n as [|n IH]; intros Hk; [lia|].
  rewrite sigma_S. destruct (Nat.eq_dec k n) as [->|Hne].
  - rewrite Nat.eqb_refl.
    rewrite (@sigma_ext n _ (fun _ => 0)).
    + rewrite sigma_zero. ring.
    + intros i Hi. replace (i =? n)%nat with false
        by (symmetry; apply Nat.eqb_neq; lia). ring.
  - rewrite IH by lia.
    replace (n =? k)%nat with false by (symmetry; apply Nat.eqb_neq; lia). ring.
Qed.

Lemma sum_sq_nonbias_nonneg w : 0 <= sum_sq_nonbias w.
Proof.
  unfold sum_sq_nonbias. apply sigma_nonneg. intros i _.
  apply sigma_nonneg. intros j _. nra.
Qed.

(** X11.  Against one-hot labels the cross-entropy keeps, of every
    sample, the logarithm of the probability of its own class: for M >= 1
    labels y in [0, C) encoded as [encode_labels] does and an output with
    positive entries, in exact arithmetic [get_cost] returns
    (- sum_j ln output[y[j], j] + l2_term) / M and leaves the store as it
    is; when moreover no entry of the output exceeds 1 and l2 >= 0, the
    cost is not negative. *)
Theorem get_cost_one_hot_negative_log_likelihood :
  forall self (y : list Z) y_enc output w1 w2 w C M,
    length y = M -> (0 < M)%nat ->
    (forall k, In k y -> (0 <= k < Z.of_nat C)%Z) ->
    nrows (nth y_enc (heap w) arr0) = C /\ ncols (nth y_enc (heap w) arr0) = M ->
    (forall i j, (i < C)%nat -> (j < M)%nat ->
       get (nth y_enc (heap w) arr0) i j =
       if (Z.of_nat i =? nth j y 0)%Z then 1 else 0) ->
    nrows (nth output (heap w) arr0) = C /\ ncols (nth output (heap w) arr0) = M ->
    (forall i j, (i < C)%nat -> (j < M)%nat -> 0 < get (nth output (heap w) arr0) i j) ->
    exists cost,
      get_cost self y_enc output w1 w2 w = Ok (cost, w) /\
      cost =
        (- sigma M (fun j => ln (get (nth output (heap w) arr0)
                                     (Z.to_nat (nth j y 0%Z)) j))
         + l2_penalty (l2 self) (nth w1 (heap w) arr0) (nth w2 (heap w) arr0))
        / INR M /\
      ((forall i j, (i < C)%nat -> (j < M)%nat ->
          get (nth output (heap w) arr0) i j <= 1) ->
       0 <= l2 self -> 0 <= cost).
Proof.
  intros self y y_enc output w1 w2 w C M Hy HM Hlab SY HY SO Hpos.
  rewrite (get_cost_ok self y_enc output w1 w2 w SY SO).
  set (Y := nth y_enc (heap w) arr0) in *. set (O := nth output (heap w) arr0) in *.
  assert (Hin : forall j, (j < M)%nat -> (Z.to_nat (nth j y 0%Z) < C)%nat).
  { intros j Hj. assert (In (nth j y 0%Z) y) by (apply nth_In; lia).
    specialize (Hlab _ H). lia. }
  assert (Ece : cross_entropy Y O =
                - sigma M (fun j => ln (get O (Z.to_nat (nth j y 0%Z)) j))).
  { unfold cross_entropy. destruct SY as [-> ->]. f_equal.
    rewrite sigma_swap. apply sigma_ext. intros j Hj.
    rewrite <- (@sigma_pick C (Z.to_nat (nth j y 0%Z)) (fun i => ln (get O i j)))
      by (apply Hin; exact Hj).
    apply sigma_ext. intros i Hi. rewrite HY by assumption.
    assert (In (nth j y 0%Z) y) by (apply nth_In; lia).
    specialize (Hlab _ H).
    destruct (Z.of_nat i =? nth j y 0)%Z eqn:E1, (i =? Z.to_nat (nth j y 0%Z))%nat eqn:E2;
      try reflexivity; exfalso.
    - apply Z.eqb_eq in E1. apply Nat.eqb_neq in E2. lia.
    - apply Z.eqb_neq in E1. apply Nat.eqb_eq in E2. lia. }
  eexists. split; [reflexivity|]. split; [rewrite Ece; reflexivity|].
  intros Hle Hl2. rewrite Ece.
  assert (Hs : sigma M (fun j => ln (get O (Z.to_nat (nth j y 0%Z)) j)) <= 0).
  { assert (0 <= sigma M (fun j => - ln (get O (Z.to_nat (nth j y 0%Z)) j))).
    { apply sigma_nonneg. intros j Hj.
      specialize (Hpos _ j (Hin j Hj) Hj). specialize (Hle _ j (Hin j Hj) Hj).
      destruct (Req_dec (get O (Z.to_nat (nth j y 0%Z)) j) 1) as [->|Hne].
      - rewrite ln_1. lra.
      - assert (ln (get O (Z.to_nat (nth j y 0%Z)) j) < ln 1)
          by (apply ln_increasing; lra).
        rewrite ln_1 in H. lra. }
    rewrite (@sigma_ext M _ (fun j => -1 * ln (get O (Z.to_nat (nth j y 0%Z)) j))) in H
      by (intros; ring).
    rewrite sigma_scale in H. lra. }
  assert (Hp : 0 <= l2_penalty (l2 self) (nth w1 (heap w) arr0) (nth w2 (heap w) arr0)).
  { unfold l2_penalty.
    pose proof (sum_sq_nonbias_nonneg (nth w1 (heap w) arr0)).
    pose proof (sum_sq_nonbias_nonneg (nth w2 (heap w) arr0)).
    apply Rmult_le_pos; lra. }
  apply Rmult_le_pos; [lra|]. apply Rlt_le, Rinv_0_lt_compat.
  apply lt_0_INR. exact HM.
Qed.

Lemma get_cost_one_hot_negative_log_likelihood_witness :
  exists cost,
    get_cost (nn_l2 2) 0 1 2 3 world_cost = Ok (cost, world_cost) /\ 0 <= cost.
Proof.
  destruct (@get_cost_one_hot_negative_log_likelihood (nn_l2 2) [0; 0]%Z
              0%nat 1%nat 2%nat 3%nat world_cost 1%nat 2%nat)
    as [cost [E [_ Hc]]].
  - reflexivity.
  - lia.
  - intros k [<-|[<-|[]]]; cbn; lia.
  - split; reflexivity.
  - intros [|i] [|[|j]] Hi Hj; try lia; reflexivity.
  - split; reflexivity.
  - intros [|i] [|[|j]] Hi Hj; try lia; cbn; lra.
  - exists cost. split; [exact E|]. apply Hc.
    + intros [|i] [|[|j]] Hi Hj; try lia; cbn; lra.
    + cbn. lra.
Defined.

(* ================================================================= *)
(** * What the methods do to the store *)

(** X12.  [forward] and [backprop] write to fresh arrays only: when either
    returns, every array that was in the store is as it was (X, the
    weights, the activations and labels passed in), five resp. six arrays
    have been added and nothing has been printed; [forward] returns the
    five it added, [backprop] the last two of its six.  [get_cost]
    changes nothing at all. *)
Theorem forward_backprop_write_fresh_arrays_only :
  (forall self X w1 w2 w r w',
     (X < length (heap w))%nat -> (w1 < length (heap w))%nat ->
     (w2 < length (heap w))%nat ->
     forward self X w1 w2 w = Ok (r, w') ->
     let n := length (heap w) in
     r = (n, n + 1, n + 2, n + 3, n + 4)%nat /\
     length (heap w') = (n + 5)%nat /\
     firstn n (heap w') = heap w /\ stdout w' = stdout w) /\
  (forall self a1 a2 a3 z2 y_enc w1 w2 w r w',
     (a1 < length (heap w))%nat -> (a2 < length (heap w))%nat ->
     (a3 < length (heap w))%nat -> (z2 < length (heap w))%nat ->
     (y_enc < length (heap w))%nat ->
     (w1 < length (heap w))%nat -> (w2 < length (heap w))%nat ->
     backprop self a1 a2 a3 z2 y_enc w1 w2 w = Ok (r, w') ->
     let n := length (heap w) in
     r = (n + 4, n + 5)%nat /\
     length (heap w') = (n + 6)%nat /\
     firstn n (heap w') = heap w /\ stdout w' = stdout w) /\
  (forall self y_enc output w1 w2 w c w',
     get_cost self y_enc output w1 w2 w = Ok (c, w') -> w' = w).
Proof.
  assert (Hfirst : forall (h l : list ndarray), firstn (length h) (h ++ l) = h).
  { intros h l. rewrite firstn_app, firstn_all, Nat.sub_diag. cbn [firstn].
    apply app_nil_r. }
  split; [|split].
  - intros self X w1 w2 w r w' HX H1 H2 E n.
    rewrite forward_eq in E by assumption. cbv zeta in E.
    destruct (forward_values _ _ _) as [[[[[a1 z2] a2] z3] a3]|e]; [|discriminate].
    injection E as <- <-. cbn [heap stdout].
    split; [reflexivity|]. split; [rewrite length_app; reflexivity|].
    split; [apply Hfirst|reflexivity].
  - intros self a1 a2 a3 z2 y_enc w1 w2 w r w' Ha1 Ha2 Ha3 Hz2 Hy H1 H2 E n.
    rewrite backprop_eq in E by assumption. cbv zeta in E.
    destruct (backprop_values _ _ _ _ _ _ _ _) as [[[[[[s3 r0] s2] s2'] g1] g2]|e];
      [|discriminate].
    injection E as <- <-. cbn [heap stdout].
    split; [reflexivity|]. split; [rewrite length_app; reflexivity|].
    split; [apply Hfirst|reflexivity].
  - intros self y_enc output w1 w2 w c w' E.
    rewrite get_cost_eq in E. cbv zeta in E.
    destruct (np.mul _ _); [|discriminate]. injection E as _ <-. reflexivity.
Qed.

Lemma forward_backprop_write_fresh_arrays_only_witness :
  exists r w',
    forward (nn_fit 1 1 0 1) 0 1 2 world_fit = Ok (r, w') /\
    firstn 3 (heap w') = heap world_fit.
Proof.
  destruct (@forward_ok (nn_fit 1 1 0 1) 0%nat 1%nat 2%nat world_fit
              2%nat 1%nat 1%nat 2%nat)
    as [z2raw [z3 [a3 [_ [_ [_ [E _]]]]]]]; try concrete_side.
  do 2 eexists. split; [exact E|].
  apply (proj1 forward_backprop_write_fresh_arrays_only
           (nn_fit 1 1 0 1) 0%nat 1%nat 2%nat world_fit _ _
           ltac:(cbn; lia) ltac:(cbn; lia) ltac:(cbn; lia) E).
Defined.

(** X13.  [relu] works in place.  Without [deriv] it returns the
    reference it was given, the array at that reference holds max(x, 0) for
    every entry x it held, keeps its shape, and no other array and no
    output changes; applying it once more changes nothing.  With [deriv]
    it likewise overwrites its argument (with the 0/1 mask), so the caller's
    array is lost. *)
Theorem relu_rectifies_in_place :
  forall z w,
    (z < length (heap w))%nat ->
    exists w',
      relu z false w = Ok (z, w') /\
      length (heap w') = length (heap w) /\ stdout w' = stdout w /\
      (forall r, r <> z -> nth r (heap w') arr0 = nth r (heap w) arr0) /\
      (nrows (nth z (heap w') arr0) = nrows (nth z (heap w) arr0) /\
       ncols (nth z (heap w') arr0) = ncols (nth z (heap w) arr0)) /\
      (forall i j, (i < nrows (nth z (heap w) arr0))%nat ->
                   (j < ncols (nth z (heap w) arr0))%nat ->
         get (nth z (heap w') arr0) i j = Rmax (get (nth z (heap w) arr0) i j) 0) /\
      relu z false w' = Ok (z, w') /\
      (exists w'',
         relu z true w = Ok (z, w'') /\
         (forall r, r <> z -> nth r (heap w'') arr0 = nth r (heap w) arr0) /\
         forall i j, (i < nrows (nth z (heap w) arr0))%nat ->
                     (j < ncols (nth z (heap w) arr0))%nat ->
           get (nth z (heap w'') arr0) i j =
           if Rltb 0 (get (nth z (heap w) arr0) i j) then 1 else 0).
Proof.
  intros z w Hz.
  eexists. split; [apply relu_eq; exact Hz|].
  cbn [heap stdout]. rewrite length_upd, nth_upd_same by exact Hz.
  split; [reflexivity|]. split; [reflexivity|].
  split; [intros r Hr; apply nth_upd_other; congruence|].
  split; [autorewrite with shape; split; reflexivity|].
  split.
  { intros i j Hi Hj. rewrite relu_value_false, get_map by assumption.
    unfold rectify, Rltb, Rmax.
    destruct (Rlt_dec _ 0), (Rle_dec _ 0); try reflexivity; lra. }
  split.
  { rewrite relu_eq by (cbn [heap]; rewrite length_upd; exact Hz).
    cbn [heap stdout]. rewrite nth_upd_same, upd_upd by exact Hz.
    do 4 f_equal. rewrite !relu_value_false. unfold np.map at 1.
    rewrite nrows_map, ncols_map. unfold np.map at 2.
    apply tab_ext. intros i j Hi Hj. rewrite get_map by assumption.
    generalize (get (nth z (heap w) arr0) i j). intros x.
    unfold rectify, Rltb. destruct (Rlt_dec x 0) as [Hn|Hn].
    - destruct (Rlt_dec 0 0); [lra|reflexivity].
    - destruct (Rlt_dec x 0); [contradiction|reflexivity]. }
  eexists. split; [apply relu_eq; exact Hz|].
  cbn [heap]. rewrite nth_upd_same by exact Hz.
  split; [intros r Hr; apply nth_upd_other; congruence|].
  intros i j Hi Hj. rewrite relu_value_true, get_tab by assumption.
  apply deriv_mask_spec.
Qed.

Lemma relu_rectifies_in_place_witness :
  exists w',
    relu 0 false world_neg = Ok (0%nat, w') /\ get (nth 0 (heap w') arr0) 0 0 = 0.
Proof.
  destruct (@relu_rectifies_in_place 0%nat world_neg ltac:(cbn; lia))
    as [w' [E [_ [_ [_ [_ [G _]]]]]]].
  exists w'. split; [exact E|].
  rewrite G by (cbn; lia). cbn. unfold Rmax.
  destruct (Rle_dec (-1) 0); [reflexivity|lra].
Defined.

(** X14.  [add_bias_unit] returns a fresh array and changes no other.
    With [column] the result has one more column than X: column 0 holds
    1.0 and column j + 1 is column j of X, so dropping the first column
    gives the entries of X back.  Without [column] the same holds for
    rows. *)
Theorem add_bias_unit_prepends_ones :
  forall X w,
    (X < length (heap w))%nat ->
    let x := nth X (heap w) arr0 in
    (exists b,
       add_bias_unit X true w =
         Ok (length (heap w), mkworld (heap w ++ [b]) (stdout w)) /\
       nrows b = nrows x /\ ncols b = (ncols x + 1)%nat /\
       (forall i, (i < nrows x)%nat -> get b i 0 = 1) /\
       (forall i j, (i < nrows x)%nat -> (j < ncols x)%nat ->
          get b i (S j) = get x i j) /\
       (nrows (np.cols_from1 b) = nrows x /\ ncols (np.cols_from1 b) = ncols x /\
        forall i j, (i < nrows x)%nat -> (j < ncols x)%nat ->
          get (np.cols_from1 b) i j = get x i j)) /\
    (exists b,
       add_bias_unit X false w =
         Ok (length (heap w), mkworld (heap w ++ [b]) (stdout w)) /\
       nrows b = (nrows x + 1)%nat /\ ncols b = ncols x /\
       (forall j, (j < ncols x)%nat -> get b 0 j = 1) /\
       (forall i j, (i < nrows x)%nat -> (j < ncols x)%nat ->
          get b (S i) j = get x i j) /\
       (nrows (np.rows_from1 b) = nrows x /\ ncols (np.rows_from1 b) = ncols x /\
        forall i j, (i < nrows x)%nat -> (j < ncols x)%nat ->
          get (np.rows_from1 b) i j = get x i j)).
Proof.
  intros X w HX x. split.
  - eexists. split; [apply add_bias_unit_eq|]. fold x.
    assert (G : forall i j, (i < nrows x)%nat -> (j < ncols x + 1)%nat ->
              get (bias_added_value x true) i j =
              match j with O => 1 | S j' => get x i j' end).
    { intros i j Hi Hj. unfold bias_added_value, np.set_cols_from1, np.ones, np.full.
      rewrite nrows_tab, ncols_tab, get_tab by assumption.
      destruct j; [|reflexivity]. apply get_tab; lia. }
    autorewrite with shape.
    split; [reflexivity|]. split; [reflexivity|].
    split; [intros i Hi; apply (G i 0%nat); lia|].
    split; [intros i j Hi Hj; apply (G i (S j)); lia|].
    split; [reflexivity|]. split; [lia|].
    intros i j Hi Hj. unfold np.cols_from1. autorewrite with shape.
    rewrite get_tab by lia. apply (G i (S j)); lia.
  - eexists. split; [apply add_bias_unit_eq|]. fold x.
    autorewrite with shape.
    split; [reflexivity|]. split; [reflexivity|].
    split; [intros j Hj; apply (@get_bias_row x 0%nat j); lia|].
    split; [intros i j Hi Hj; apply (@get_bias_row x (S i) j); lia|].
    split; [lia|]. split; [reflexivity|].
    intros i j Hi Hj. unfold np.rows_from1. autorewrite with shape.
    rewrite get_tab by lia. apply (@get_bias_row x (S i) j); lia.
Qed.

Lemma add_bias_unit_prepends_ones_witness :
  exists b,
    add_bias_unit 0 true world_neg = Ok (3%nat, mkworld (heap world_neg ++ [b]) []) /\
    get b 0 0 = 1 /\ get b 0 1 = -1.
Proof.
  destruct (proj1 (@add_bias_unit_prepends_ones 0%nat world_neg ltac:(cbn; lia)))
    as [b [E [_ [_ [G0 [G1 _]]]]]].
  exists b. split; [exact E|]. split.
  - apply G0. cbn. lia.
  - rewrite G1 by (cbn; lia). reflexivity.
Defined.

(* ================================================================= *)
(** * Further properties of the constructor and of accuracy *)

Lemma mem_str_In s l : mem_str s l = true <-> In s l.
Proof.
  unfold mem_str. rewrite existsb_exists. split.
  - intros [x [Hx E]]. apply String.eqb_eq in E. subst x. exact Hx.
  - intros H. exists s. split; [exact H|apply String.eqb_refl].
Qed.

Lemma assert_metrics_raise metrics w :
  (exists m, In m metrics /\ ~ In m supported_metrics) ->
  for_ metrics (fun elem (_ : unit) =>
                  if mem_str elem supported_metrics then ret tt
                  else lift (Raise AssertionError)) tt w = Raise AssertionError.
Proof.
  induction metrics as [|m0 l IH]; intros [m [Hin Hn]]; [contradiction|].
  cbn [for_]. destruct (mem_str m0 supported_metrics) eqn:E.
  - rewrite bind_ret. apply IH. destruct Hin as [->|Hin].
    + exfalso. apply Hn. apply mem_str_In. exact E.
    + exists m. split; assumption.
  - reflexivity.
Qed.

(** X15.  A metric outside {Accuracy, Precision, Recall, AUC} makes the
    constructor raise AssertionError, whatever the other arguments and
    whether or not the activation is supported: no instance is returned. *)
Theorem init_raises_on_unsupported_metric :
  forall n_output n_features n_hidden l2 epochs learning_rate decay_rate
         minibatch_size optimizer name metrics u1 u2 w,
    (exists m, In m metrics /\ ~ In m supported_metrics) ->
    init n_output n_features n_hidden l2 epochs learning_rate decay_rate
         minibatch_size optimizer name metrics u1 u2 w = Raise AssertionError.
Proof.
  intros n_output n_features n_hidden l2 epochs learning_rate decay_rate
         minibatch_size optimizer name metrics u1 u2 w Hm.
  unfold init, initialize_weights. run.
  destruct (mem_str name supported_activations); cbn [negb]; run;
    rewrite (@bind_eq _ _ _ _ _ _ (@assert_metrics_raise _ _ Hm)); reflexivity.
Qed.

Lemma init_raises_on_unsupported_metric_witness :
  init 2 1 1 0 1 1 0 1 "Gradient Descent" "relu" ["Accuracy"; "F1"]%string
       (fun _ => 0) (fun _ => 0) (mkworld [] []) = Raise AssertionError.
Proof.
  apply init_raises_on_unsupported_metric.
  exists "F1"%string. split; [right; left; reflexivity|].
  intros H. cbn in H. repeat (destruct H as [H|H]; [discriminate H|]). exact H.
Defined.

(** X16.  With a supported activation and supported metrics the
    constructor prints nothing, stores its arguments in the instance and
    binds w1 and w2 to two fresh, distinct arrays of shapes
    (n_hidden, n_features + 1) and (n_output, n_hidden + 1); their entries
    are the uniform draws, taken row by row, divided by n_features + 1
    resp. n_hidden + 1, so for draws in [-1, 1) every weight lies in
    [-1/(n_features + 1), 1/(n_features + 1)), resp.
    [-1/(n_hidden + 1), 1/(n_hidden + 1)). *)
Theorem init_weights_shapes_and_bounds :
  forall n_output n_features n_hidden l2 epochs learning_rate decay_rate
         minibatch_size optimizer name metrics u1 u2 w,
    In name supported_activations ->
    (forall m, In m metrics -> In m supported_metrics) ->
    exists self w',
      init n_output n_features n_hidden l2 epochs learning_rate decay_rate
           minibatch_size optimizer name metrics u1 u2 w = Ok (self, w') /\
      self = mkNN n_output n_features n_hidden (length (heap w))
                  (length (heap w) + 1) l2 epochs learning_rate decay_rate
                  minibatch_size optimizer (Some name) metrics /\
      stdout w' = stdout w /\
      length (heap w') = (length (heap w) + 2)%nat /\
      firstn (length (heap w)) (heap w') = heap w /\
      (nrows (nth (w1 self) (heap w') arr0) = n_hidden /\
       ncols (nth (w1 self) (heap w') arr0) = (n_features + 1)%nat) /\
      (nrows (nth (w2 self) (heap w') arr0) = n_output /\
       ncols (nth (w2 self) (heap w') arr0) = (n_hidden + 1)%nat) /\
      (forall i j, (i < n_hidden)%nat -> (j < n_features + 1)%nat ->
         get (nth (w1 self) (heap w') arr0) i j =
         u1 (i * (n_features + 1) + j)%nat / INR (n_features + 1)) /\
      (forall i j, (i < n_output)%nat -> (j < n_hidden + 1)%nat ->
         get (nth (w2 self) (heap w') arr0) i j =
         u2 (i * (n_hidden + 1) + j)%nat / INR (n_hidden + 1)) /\
      ((forall k, -1 <= u1 k < 1) ->
       forall i j, (i < n_hidden)%nat -> (j < n_features + 1)%nat ->
         - / INR (n_features + 1) <= get (nth (w1 self) (heap w') arr0) i j
                                   < / INR (n_features + 1)) /\
      ((forall k, -1 <= u2 k < 1) ->
       forall i j, (i < n_output)%nat -> (j < n_hidden + 1)%nat ->
         - / INR (n_hidden + 1) <= get (nth (w2 self) (heap w') arr0) i j
                                 < / INR (n_hidden + 1)).
Proof.
  intros n_output n_features n_hidden l2 epochs learning_rate decay_rate
         minibatch_size optimizer name metrics u1 u2 w Ha Hm.
  assert (Hm' : forallb (fun m => mem_str m supported_metrics) metrics = true).
  { apply forallb_forall. intros m Hin. apply mem_str_In. apply Hm. exact Hin. }
  apply mem_str_In in Ha.
  pose proof (@init_ok n_output n_features n_hidden l2 epochs learning_rate decay_rate
                minibatch_size optimizer name metrics u1 u2 w Hm') as E.
  cbv zeta in E. rewrite Ha in E. rewrite app_nil_r in E.
  do 2 eexists. split; [exact E|].
  cbn [heap stdout w1 w2]. heap_norm.
  assert (G : forall r c (u : nat -> R) i j, (i < r)%nat -> (j < c)%nat ->
            get (np.map (fun x => x / INR c) (tab r c (fun i j => u (i * c + j)%nat))) i j
            = u (i * c + j)%nat / INR c).
  { intros r c u i j Hi Hj. rewrite get_map by (rewrite ?nrows_tab, ?ncols_tab; assumption).
    rewrite get_tab by assumption. reflexivity. }
  assert (B : forall c x, (0 < c)%nat -> -1 <= x < 1 ->
            - / INR c <= x / INR c < / INR c).
  { intros c x Hc [Hx1 Hx2].
    assert (Hp : 0 < / INR c) by (apply Rinv_0_lt_compat, lt_0_INR; exact Hc).
    unfold Rdiv. split; nra. }
  split; [reflexivity|]. split; [reflexivity|].
  split; [rewrite ?length_app; cbn [length]; lia|].
  split; [rewrite firstn_app, firstn_all, Nat.sub_diag; cbn [firstn]; apply app_nil_r|].
  split; [autorewrite with shape; split; reflexivity|].
  split; [autorewrite with shape; split; reflexivity|].
  split; [intros i j Hi Hj; apply G; assumption|].
  split; [intros i j Hi Hj; apply G; assumption|].
  split.
  - intros Hu i j Hi Hj. rewrite G by assumption. apply B; [lia|apply Hu].
  - intros Hu i j Hi Hj. rewrite G by assumption. apply B; [lia|apply Hu].
Qed.

Lemma init_weights_shapes_and_bounds_witness :
  exists self w',
    init 2 1 1 0 1 1 0 1 "Gradient Descent" "tanh" ["Accuracy"; "AUC"]%string
         (fun _ => 1 / 2) (fun _ => -1) (mkworld [] []) = Ok (self, w') /\
    activation self = Some "tanh"%string /\
    get (nth (w1 self) (heap w') arr0) 0 1 = 1 / 4.
Proof.
  destruct (@init_weights_shapes_and_bounds 2%nat 1%nat 1%nat 0 1%nat 1 0 1%nat
              "Gradient Descent"%string "tanh"%string ["Accuracy"; "AUC"]%string
              (fun _ => 1 / 2) (fun _ => -1) (mkworld [] []))
    as [self [w' [E [Es [_ [_ [_ [_ [_ [G1 _]]]]]]]]]].
  - right; left; reflexivity.
  - intros m [<-|[<-|[]]]; cbn; tauto.
  - exists self, w'. split; [exact E|]. split; [rewrite Es; reflexivity|].
    rewrite G1 by lia. cbn. lra.
Defined.

(** X17.  [accuracy] with labels that do not match the predictions in
    number, on N >= 1 samples: the subtraction broadcasts.  When the
    number L of labels is neither N nor 1 and N is not 1, it raises
    ValueError; with one sample and no label the loop is empty and the
    division by L = 0 raises ZeroDivisionError; with N >= 1 samples and a
    single label only the first prediction is compared, and the result is
    100 or 0. *)
Theorem accuracy_label_count_mismatch :
  forall self X y w N f h C,
    (X < length (heap w))%nat -> (w1 self < length (heap w))%nat ->
    (w2 self < length (heap w))%nat ->
    nrows (nth X (heap w) arr0) = N /\ ncols (nth X (heap w) arr0) = f ->
    nrows (nth (w1 self) (heap w) arr0) = h /\
    ncols (nth (w1 self) (heap w) arr0) = (f + 1)%nat ->
    nrows (nth (w2 self) (heap w) arr0) = C /\
    ncols (nth (w2 self) (heap w) arr0) = (h + 1)%nat ->
    (0 < N)%nat -> (0 < C)%nat ->
    (length y <> N -> length y <> 1%nat -> N <> 1%nat ->
     accuracy (F := R) self X y w = Raise ValueError /\
     accuracy (F := float) self X y w = Raise ValueError) /\
    (N = 1%nat -> y = [] ->
     accuracy (F := R) self X y w = Raise ZeroDivisionError /\
     accuracy (F := float) self X y w = Raise ZeroDivisionError) /\
    (length y = 1%nat ->
     exists pred w',
       predict self X w = Ok (pred, w') /\
       accuracy (F := R) self X y w =
         Ok (if (nth 0 pred 0 =? nth 0 y 0)%Z then 100 else 0, w')).
Proof.
  intros self X y w N f h C HX Hw1 Hw2 SX Sw1 Sw2 HN HC.
  destruct (@predict_ok self X w N f h C HX Hw1 Hw2 SX Sw1 Sw2 HN HC)
    as [z2raw [z3 [a3 [_ [_ [_ [_ Ep]]]]]]].
  match type of Ep with _ = Ok (?p, ?w0) => set (pred := p) in *; set (w' := w0) in * end.
  assert (Hlen : length pred = N)
    by (unfold pred; rewrite length_map, length_seq; reflexivity).
  split; [|split].
  - intros H1 H2 H3.
    assert (Hs : sub1d pred y = Raise ValueError).
    { unfold sub1d, np.bdim. rewrite Hlen.
      replace (N =? length y)%nat with false by (symmetry; apply Nat.eqb_neq; lia).
      replace (N =? 1)%nat with false by (symmetry; apply Nat.eqb_neq; lia).
      replace (length y =? 1)%nat with false by (symmetry; apply Nat.eqb_neq; lia).
      reflexivity. }
    split; rewrite accuracy_eq, Ep; unfold accuracy_value; rewrite Hs; reflexivity.
  - intros H1 ->.
    assert (Hs : sub1d pred [] = Ok []).
    { unfold sub1d, np.bdim. rewrite Hlen, H1. reflexivity. }
    split; rewrite accuracy_eq, Ep; unfold accuracy_value; rewrite Hs; reflexivity.
  - intros H1. exists pred, w'. split; [exact Ep|].
    destruct y as [|y0 [|y1 y']]; try discriminate H1.
    rewrite accuracy_eq, Ep. unfold accuracy_value.
    assert (Hs : sub1d pred [y0] =
                 Ok (map (fun i => (nth i pred 0 - y0)%Z) (seq 0 N))).
    { unfold sub1d. rewrite Hlen. cbn [length]. rewrite bdim_1_r.
      f_equal. apply map_ext_in. intros i Hi. apply in_seq in Hi.
      rewrite bidx_lt by lia. reflexivity. }
    rewrite Hs. cbn [res_bind length seq count_loop].
    assert (Hi : item (map (fun i => (nth i pred 0 - y0)%Z) (seq 0 N)) 0 =
                 Ok (nth 0 pred 0 - y0)%Z).
    { destruct N; [lia|]. reflexivity. }
    rewrite Hi. cbn [res_bind Nat.eqb nth].
    destruct (Z.eqb_spec (nth 0 pred 0%Z) y0) as [E|E].
    + replace (nth 0 pred 0 - y0 =? 0)%Z with true by (symmetry; apply Z.eqb_eq; lia).
      cbn. do 2 f_equal. lra.
    + replace (nth 0 pred 0 - y0 =? 0)%Z with false by (symmetry; apply Z.eqb_neq; lia).
      cbn. do 2 f_equal. lra.
Qed.

Lemma accuracy_label_count_mismatch_witness :
  accuracy (F := R) nn_acc 0 [0; 1]%Z world_acc = Raise ValueError.
Proof.
  apply (@accuracy_label_count_mismatch nn_acc 0%nat [0; 1]%Z world_acc
           6%nat 1%nat 1%nat 2%nat); try concrete_side; cbn; lia.
Defined.

(* ================================================================= *)
(** * The gradients, entry by entry *)

(** X18.  The gradients [backprop] returns, for arrays of the shapes of a
    network with f features, h hidden units and C classes on N samples.
    With the output error d3 = a3 - y_enc and the hidden error
    d2[i, j] = (sum_c w2[c, i + 1] * d3[c, j]) * (1 if z2[i, j] > 0 else 0),
    the bias row of the hidden error being dropped,
    grad2[c, k] = sum_j d3[c, j] * a2[k, j] and
    grad1[i, k] = sum_j d2[i, j] * a1[j, k], each plus l2 * w[., k] in the
    columns k >= 1; both have the shape of their weight matrix and are
    fresh arrays. *)
Theorem backprop_gradient_entries :
  forall self a1 a2 a3 z2 y_enc w1 w2 w N f h C,
    (a1 < length (heap w))%nat -> (a2 < length (heap w))%nat ->
    (a3 < length (heap w))%nat -> (z2 < length (heap w))%nat ->
    (y_enc < length (heap w))%nat ->
    (w1 < length (heap w))%nat -> (w2 < length (heap w))%nat ->
    let v r := nth r (heap w) arr0 in
    nrows (v a1) = N /\ ncols (v a1) = (f + 1)%nat ->
    nrows (v a2) = (h + 1)%nat /\ ncols (v a2) = N ->
    nrows (v a3) = C /\ ncols (v a3) = N ->
    nrows (v z2) = h /\ ncols (v z2) = N ->
    nrows (v y_enc) = C /\ ncols (v y_enc) = N ->
    nrows (v w1) = h /\ ncols (v w1) = (f + 1)%nat ->
    nrows (v w2) = C /\ ncols (v w2) = (h + 1)%nat ->
    let d3 c j := get (v a3) c j - get (v y_enc) c j in
    let d2 i j := sigma C (fun c => get (v w2) c (S i) * d3 c j)
                  * (if Rltb 0 (get (v z2) i j) then 1 else 0) in
    exists grad1 grad2 w',
      backprop self a1 a2 a3 z2 y_enc w1 w2 w = Ok ((grad1, grad2), w') /\
      (length (heap w) <= grad1)%nat /\ (length (heap w) <= grad2)%nat /\
      grad1 <> grad2 /\
      (nrows (nth grad1 (heap w') arr0) = h /\
       ncols (nth grad1 (heap w') arr0) = (f + 1)%nat) /\
      (nrows (nth grad2 (heap w') arr0) = C /\
       ncols (nth grad2 (heap w') arr0) = (h + 1)%nat) /\
      (forall i k, (i < h)%nat -> (k < f + 1)%nat ->
         get (nth grad1 (heap w') arr0) i k =
         sigma N (fun j => d2 i j * get (v a1) j k)
         + match k with O => 0 | S _ => get (v w1) i k * l2 self end) /\
      (forall c k, (c < C)%nat -> (k < h + 1)%nat ->
         get (nth grad2 (heap w') arr0) c k =
         sigma N (fun j => d3 c j * get (v a2) k j)
         + match k with O => 0 | S _ => get (v w2) c k * l2 self end).
Proof.
  intros self a1 a2 a3 z2 y_enc w1 w2 w N f h C Ha1 Ha2 Ha3 Hz2 Hy Hw1 Hw2 v
         [A11 A12] [A21 A22] [A31 A32] [Z1 Z2] [Y1 Y2] [W11 W12] [W21 W22] d3 d2.
  set (S3 := tab C N d3).
  assert (E1 : np.sub (v a3) (v y_enc) = Ok S3).
  { unfold np.sub. rewrite zipw_ok by congruence. rewrite A31, A32. reflexivity. }
  set (L := tab (h + 1) N (fun i j => sigma C (fun c => get (v w2) c i * d3 c j))).
  assert (E2 : np.dot (np.T (v w2)) S3 = Ok L).
  { rewrite dot_ok by (autorewrite with shape; unfold S3; rewrite nrows_tab; congruence).
    autorewrite with shape. unfold S3 at 1. rewrite ncols_tab, W21, W22.
    f_equal. apply tab_ext. intros i j Hi Hj. apply sigma_ext. intros c Hc.
    unfold np.T. rewrite get_tab by lia. unfold S3. rewrite get_tab by lia.
    reflexivity. }
  set (R0 := relu_value true (bias_added_value (v z2) false)).
  set (S2 := tab (h + 1) N (fun i j => get L i j * get R0 i j)).
  assert (E3 : np.mul L R0 = Ok S2).
  { unfold np.mul. rewrite zipw_ok
      by (unfold L, R0; autorewrite with shape; lia).
    unfold L at 1 2. rewrite nrows_tab, ncols_tab. reflexivity. }
  set (G1 := tab h (f + 1) (fun i k => sigma N (fun j => d2 i j * get (v a1) j k))).
  assert (E4 : np.dot (np.rows_from1 S2) (v a1) = Ok G1).
  { rewrite dot_ok by (autorewrite with shape; unfold S2; rewrite ncols_tab; congruence).
    autorewrite with shape. unfold S2 at 1 2. rewrite nrows_tab, ncols_tab, A12.
    replace (h + 1 - 1)%nat with h by lia.
    f_equal. apply tab_ext. intros i k Hi Hk. apply sigma_ext. intros j Hj.
    f_equal. unfold np.rows_from1. rewrite get_tab
      by (unfold S2; rewrite ?nrows_tab, ?ncols_tab; lia).
    unfold S2. rewrite get_tab by lia. unfold L. rewrite get_tab by lia.
    unfold d2. f_equal. unfold R0. rewrite relu_value_true.
    autorewrite with shape. rewrite get_tab by lia.
    rewrite get_bias_row by lia. apply deriv_mask_spec. }
  set (G2 := tab C (h + 1) (fun c k => sigma N (fun j => d3 c j * get (v a2) k j))).
  assert (E5 : np.dot S3 (np.T (v a2)) = Ok G2).
  { rewrite dot_ok by (autorewrite with shape; unfold S3; rewrite ncols_tab; congruence).
    autorewrite with shape. unfold S3 at 1 2. rewrite nrows_tab, ncols_tab, A21.
    f_equal. apply tab_ext. intros c k Hc Hk. apply sigma_ext. intros j Hj.
    unfold S3. rewrite get_tab by lia. unfold np.T. rewrite get_tab by lia.
    reflexivity. }
  assert (E : backprop_values (l2 self) (v a1) (v a2) (v a3) (v z2) (v y_enc)
                (v w1) (v w2) =
              Ok (S3, R0, S2, np.rows_from1 S2,
                  regularized (l2 self) G1 (v w1), regularized (l2 self) G2 (v w2))).
  { unfold backprop_values. rewrite E1; cbn [res_bind]. rewrite E2; cbn [res_bind].
    fold R0. rewrite E3; cbn [res_bind]. rewrite E4; cbn [res_bind].
    rewrite E5; cbn [res_bind].
    rewrite !iadd_cols_from1_ok by (unfold G1, G2; rewrite ?nrows_tab, ?ncols_tab; congruence).
    reflexivity. }
  pose proof (@backprop_eq self a1 a2 a3 z2 y_enc w1 w2 w Ha1 Ha2 Ha3 Hz2 Hy Hw1 Hw2) as Eb.
  cbv zeta in Eb. fold v in Eb. rewrite E in Eb.
  do 3 eexists. split; [exact Eb|].
  cbn [heap]. heap_norm.
  split; [lia|]. split; [lia|]. split; [lia|].
  split; [split; reflexivity|]. split; [split; reflexivity|].
  split.
  - intros i k Hi Hk. unfold regularized, G1. rewrite nrows_tab, ncols_tab.
    rewrite get_tab by assumption. destruct k as [|k].
    + rewrite get_tab by lia. ring.
    + rewrite get_tab by lia. reflexivity.
  - intros c k Hc Hk. unfold regularized, G2. rewrite nrows_tab, ncols_tab.
    rewrite get_tab by assumption. destruct k as [|k].
    + rewrite get_tab by lia. ring.
    + rewrite get_tab by lia. reflexivity.
Qed.

Lemma backprop_gradient_entries_witness :
  exists grad1 grad2 w',
    backprop (nn_l2 2) 0 1 2 3 4 5 6 world_bp = Ok ((grad1, grad2), w') /\
    get (nth grad1 (heap w') arr0) 0 1 = 2.
Proof.
  destruct (@backprop_gradient_entries (nn_l2 2) 0%nat 1%nat 2%nat 3%nat 4%nat 5%nat
              6%nat world_bp 1%nat 1%nat 1%nat 1%nat)
    as [grad1 [grad2 [w' [E [_ [_ [_ [_ [_ [G1 _]]]]]]]]]]; try concrete_side.
  exists grad1, grad2, w'. split; [exact E|].
  rewrite G1 by lia. unfold sigma. cbn. lra.
Defined.

(* ================================================================= *)
(** * tanh *)

Lemma tanh_bounds x : -1 < Rtrigo_def.tanh x < 1.
Proof.
  unfold Rtrigo_def.tanh, sinh, cosh.
  pose proof (exp_pos x) as Ha. pose proof (exp_pos (- x)) as Hb.
  replace ((exp x - exp (- x)) / 2 / ((exp x + exp (- x)) / 2))
    with ((exp x - exp (- x)) / (exp x + exp (- x))) by (field; lra).
  assert (Hs : 0 < / (exp x + exp (- x))) by (apply Rinv_0_lt_compat; lra).
  split.
  - apply (Rmult_lt_reg_r (exp x + exp (- x))); [lra|].
    unfold Rdiv. rewrite Rmult_assoc, Rinv_l by lra. lra.
  - apply (Rmult_lt_reg_r (exp x + exp (- x))); [lra|].
    unfold Rdiv. rewrite Rmult_assoc, Rinv_l by lra. lra.
Qed.

Lemma tanh_deriv_bounds x :
  0 < 1 - Rtrigo_def.tanh x * Rtrigo_def.tanh x <= 1.
Proof.
  pose proof (tanh_bounds x) as [H1 H2]. split; nra.
Qed.

(** X19.  [tanh] is pure: it returns a fresh array of the shape of z and
    changes no array of the store, z included (unlike [relu]).  Without
    [deriv] the entries are tanh of the entries of z, strictly between -1
    and 1; with [deriv] they are 1 - tanh(x)^2, in (0, 1]. *)
Theorem tanh_returns_fresh_array :
  forall z w,
    (z < length (heap w))%nat ->
    let x := nth z (heap w) arr0 in
    (exists t,
       tanh z false w = Ok (length (heap w), mkworld (heap w ++ [t]) (stdout w)) /\
       nrows t = nrows x /\ ncols t = ncols x /\
       forall i j, (i < nrows x)%nat -> (j < ncols x)%nat ->
         get t i j = Rtrigo_def.tanh (get x i j) /\ -1 < get t i j < 1) /\
    (exists d,
       tanh z true w = Ok (length (heap w), mkworld (heap w ++ [d]) (stdout w)) /\
       nrows d = nrows x /\ ncols d = ncols x /\
       forall i j, (i < nrows x)%nat -> (j < ncols x)%nat ->
         get d i j = 1 - Rtrigo_def.tanh (get x i j) * Rtrigo_def.tanh (get x i j) /\
         0 < get d i j <= 1).
Proof.
  intros z w Hz x. split.
  - eexists. split; [unfold tanh; run; reflexivity|]. fold x.
    split; [reflexivity|]. split; [reflexivity|].
    intros i j Hi Hj. unfold np.tanh. rewrite get_map by assumption.
    split; [reflexivity|apply tanh_bounds].
  - eexists. split; [unfold tanh; run; reflexivity|]. fold x.
    split; [reflexivity|]. split; [reflexivity|].
    intros i j Hi Hj. unfold np.scalar_sub, np.square, np.tanh.
    rewrite !get_map by (rewrite ?nrows_map, ?ncols_map; assumption).
    split; [reflexivity|apply tanh_deriv_bounds].
Qed.

Lemma tanh_returns_fresh_array_witness :
  exists t,
    tanh 0 false world_neg = Ok (3%nat, mkworld (heap world_neg ++ [t]) []) /\
    -1 < get t 0 0 < 1.
Proof.
  destruct (proj1 (@tanh_returns_fresh_array 0%nat world_neg ltac:(cbn; lia)))
    as [t [E [_ [_ G]]]].
  exists t. split; [exact E|]. apply G; cbn; lia.
Defined.

(* ================================================================= *)
(** * What fit changes and what it prints *)

(** Every array of the store [w] other than those at [a] and [b] is as it
    was in the store [w']. *)
Definition unchanged_except (a b : ref) (w w' : world) : Prop :=
  (length (heap w) <= length (heap w'))%nat /\
  forall r, (r < length (heap w))%nat -> r <> a -> r <> b ->
    nth r (heap w') arr0 = nth r (heap w) arr0.

(** The three lines of the progress report of epoch i. *)
Definition progress_lines (i : nat) (report : R * R) : list line :=
  [("Epoch: {}"%string, [PInt (Z.of_nat (i + 1))]);
   ("Loss: {}"%string, [PFloat (fst report)]);
   ("Training Accuracy: {}"%string, [PFloat (snd report)])].

Definition progress_report (print_progress : bool) (start : nat)
    (reports : list (R * R)) : list line :=
  if print_progress
  then concat (map (fun ir => progress_lines (fst ir) (snd ir))
                   (combine (seq start (length reports)) reports))
  else [].

Lemma unchanged_except_refl a b w : unchanged_except a b w w.
Proof. split; [lia|reflexivity]. Qed.

Lemma unchanged_except_trans a b w0 w1' w2' :
  unchanged_except a b w0 w1' -> unchanged_except a b w1' w2' ->
  unchanged_except a b w0 w2'.
Proof.
  intros [L1 H1] [L2 H2]. split; [lia|].
  intros r Hr Ha Hb. rewrite H2 by (try assumption; lia). apply H1; assumption.
Qed.

Lemma unchanged_except_extend a b hp o L o' :
  unchanged_except a b (mkworld hp o) (mkworld (hp ++ L) o').
Proof.
  split; cbn [heap]; [rewrite length_app; lia|].
  intros r Hr _ _. apply nth_heap_old. exact Hr.
Qed.

Lemma fit_minibatch_effects N f h C X X_data y_enc idx s w :
  fit_inv N f h C X X_data y_enc s w -> batch_ok N idx -> (0 < C)%nat ->
  exists s' w',
    fit_minibatch X_data y_enc idx s w = Ok (s', w') /\
    fit_inv N f h C X X_data y_enc s' w' /\
    v_self s' = v_self s /\ cost s' <> None /\ stdout w' = stdout w /\
    unchanged_except (w1 (v_self s)) (w2 (v_self s)) w w'.
Proof.
  intros Hinv Hb HC.
  destruct (fit_minibatch_step Hinv Hb HC)
    as [s' [w' [g1 [g2 [E [Hinv' [Es [Hc [Eo _]]]]]]]]].
  exists s', w'. repeat (split; [assumption|]).
  destruct (fit_minibatch_ok Hinv Hb HC)
    as [c [L [G1 [G2 [HL [_ [_ [_ [_ [_ [_ E']]]]]]]]]]].
  rewrite E' in E. injection E as _ <-.
  destruct Hinv as [HV _ _ _ _ _ _ _ _].
  unfold unchanged_except. cbn [heap]. split.
  - rewrite !length_upd, length_app. lia.
  - intros r Hr Ha Hb'.
    rewrite nth_upd_other by congruence. rewrite nth_upd_other by congruence.
    apply nth_heap_old. exact Hr.
Qed.

Lemma fit_batches_effects N f h C X X_data y_enc mini :
  (0 < C)%nat -> Forall (batch_ok N) mini ->
  forall s w,
    fit_inv N f h C X X_data y_enc s w ->
    exists s' w',
      for_ mini (fit_minibatch X_data y_enc) s w = Ok (s', w') /\
      fit_inv N f h C X X_data y_enc s' w' /\
      v_self s' = v_self s /\ stdout w' = stdout w /\
      (mini <> [] -> cost s' <> None) /\
      unchanged_except (w1 (v_self s)) (w2 (v_self s)) w w'.
Proof.
  intros HC Hm. induction Hm as [|idx mini Hb Hm IH]; intros s w Hinv.
  - exists s, w. split; [reflexivity|]. split; [assumption|].
    split; [reflexivity|]. split; [reflexivity|].
    split; [intros Hn; exfalso; apply Hn; reflexivity|apply unchanged_except_refl].
  - destruct (fit_minibatch_effects Hinv Hb HC)
      as [s1 [w1' [E [Hinv1 [Es [Hc [Eo Hu]]]]]]].
    destruct (IH s1 w1' Hinv1) as [s' [w' [E' [Hinv' [Es' [Eo' [Hc' Hu']]]]]]].
    exists s', w'. cbn [for_]. rewrite (@bind_eq _ _ _ _ _ _ E).
    split; [exact E'|]. split; [exact Hinv'|].
    split; [congruence|]. split; [congruence|]. split.
    + intros _. destruct mini as [|idx' mini'].
      * cbn [for_] in E'. unfold ret in E'. injection E' as <- <-. exact Hc.
      * apply Hc'. discriminate.
    + rewrite Es in Hu'. eapply unchanged_except_trans; eassumption.
Qed.

(** One epoch: what it changes and what it prints. *)
Lemma fit_epoch_effects N f h C X X_data y_enc y pp i s w :
  fit_inv N f h C X X_data y_enc s w ->
  1 + decay_rate (v_self s) * INR i <> 0 ->
  (1 <= minibatch_size (v_self s) <= N)%nat -> length y = N -> (0 < C)%nat ->
  exists s' w' report,
    fit_epoch X y X_data y_enc y pp i s w = Ok (s', w') /\
    fit_inv N f h C X X_data y_enc s' w' /\
    v_self s' = set_learning_rate (v_self s)
                  (learning_rate (v_self s) / (1 + decay_rate (v_self s) * INR i)) /\
    unchanged_except (w1 (v_self s)) (w2 (v_self s)) w w' /\
    stdout w' = stdout w ++ (if pp then progress_lines i report else []).
Proof.
  intros Hinv Hd Hk Hy HC.
  destruct (@array_split_range_ok N (minibatch_size (v_self s)) Hk)
    as [mini [Em [Hne Hm]]].
  unfold fit_epoch. rewrite (Reqb_false Hd). rewrite bind_ret.
  cbn [minibatch_size set_learning_rate]. rewrite Hy, Em, bind_lift_ok.
  match goal with
  | |- context [for_ mini ?body ?s0] =>
      destruct (@fit_batches_effects N f h C X X_data y_enc mini HC Hm s0 w)
        as [s1 [w1' [E1 [Hinv1 [Es1 [Eo1 [Hc1 Hu1]]]]]]];
        [apply fit_inv_self; [reflexivity|reflexivity|exact Hinv]|]
  end.
  rewrite (@bind_eq _ _ _ _ _ _ E1). cbv beta iota.
  cbn [v_self w1 w2] in Es1, Hu1.
  rewrite Nat.mod_1_r. cbn [Nat.eqb]. rewrite andb_true_r.
  destruct pp.
  - specialize (Hc1 Hne). destruct (cost s1) as [c|] eqn:Ec; [|congruence].
    run.
    match goal with
    | |- context [bind (linalg_norm ?l) _ ?w0] =>
        destruct (linalg_norm_ok l w0) as [r1 En1]
    end.
    rewrite (@bind_eq _ _ _ _ _ _ En1). cbv beta iota.
    match goal with
    | |- context [bind (linalg_norm ?l) _ ?w0] =>
        destruct (linalg_norm_ok l w0) as [r2 En2]
    end.
    rewrite (@bind_eq _ _ _ _ _ _ En2). cbv beta iota.
    destruct w1' as [h1 o1].
    match goal with
    | |- context [bind (accuracy _ _ _) _ ?w0] =>
        destruct (@accuracy_ok N f h C X X_data y_enc s1 w0 y)
          as [a [L Ea]];
          [eapply fit_inv_stdout; exact Hinv1| lia | exact HC | exact Hy |]
    end.
    rewrite (@bind_eq _ _ _ _ _ _ Ea). cbv beta iota. run.
    exists s1. eexists. exists (c, a).
    split; [reflexivity|]. split; [eapply fit_inv_extend; exact Hinv1|].
    split; [exact Es1|]. split.
    + eapply unchanged_except_trans; [exact Hu1|apply unchanged_except_extend].
    + cbn [stdout] in *. rewrite Eo1. unfold progress_lines. cbn [fst snd].
      rewrite <- ?app_assoc. reflexivity.
  - exists s1, w1', (0, 0). split; [reflexivity|]. split; [assumption|].
    split; [assumption|]. split; [assumption|].
    rewrite app_nil_r. exact Eo1.
Qed.

Lemma progress_report_cons pp start r rs :
  progress_report pp start (r :: rs) =
  (if pp then progress_lines start r else []) ++ progress_report pp (S start) rs.
Proof. unfold progress_report. destruct pp; reflexivity. Qed.

Lemma fit_epochs_effects N f h C X X_data y_enc y pp n :
  forall start s w,
    fit_inv N f h C X X_data y_enc s w ->
    (forall k, (start <= k < start + n)%nat ->
               1 + decay_rate (v_self s) * INR k <> 0) ->
    (1 <= minibatch_size (v_self s) <= N)%nat -> length y = N -> (0 < C)%nat ->
    exists s' w' reports,
      for_ (seq start n) (fit_epoch X y X_data y_enc y pp) s w = Ok (s', w') /\
      fit_inv N f h C X X_data y_enc s' w' /\
      w1 (v_self s') = w1 (v_self s) /\ w2 (v_self s') = w2 (v_self s) /\
      unchanged_except (w1 (v_self s)) (w2 (v_self s)) w w' /\
      length reports = n /\
      stdout w' = stdout w ++ progress_report pp start reports.
Proof.
  induction n as [|n IH]; intros start s w Hinv Hd Hk Hy HC.
  - exists s, w, []. cbn [seq for_].
    split; [reflexivity|]. split; [exact Hinv|].
    split; [reflexivity|]. split; [reflexivity|].
    split; [apply unchanged_except_refl|]. split; [reflexivity|].
    unfold progress_report. destruct pp; cbn; rewrite app_nil_r; reflexivity.
  - assert (Hf : 1 + decay_rate (v_self s) * INR start <> 0) by (apply Hd; lia).
    destruct (@fit_epoch_effects N f h C X X_data y_enc y pp start s w Hinv
                Hf Hk Hy HC) as [s1 [w1' [r [E1 [Hinv1 [Es1 [Hu1 Eo1]]]]]]].
    assert (Hd1 : forall k, (S start <= k < S start + n)%nat ->
                            1 + decay_rate (v_self s1) * INR k <> 0).
    { intros k Hr. rewrite Es1. cbn [decay_rate set_learning_rate]. apply Hd. lia. }
    destruct (IH (S start) s1 w1' Hinv1 Hd1)
      as [s' [w' [rs [E' [Hinv' [Ew1 [Ew2 [Hu' [Hl Eo']]]]]]]]];
      try (rewrite Es1; cbn [decay_rate minibatch_size set_learning_rate]; assumption);
      try assumption.
    rewrite Es1 in Ew1, Ew2, Hu'. cbn [w1 w2 set_learning_rate] in Ew1, Ew2, Hu'.
    exists s', w', (r :: rs). cbn [seq for_]. rewrite (@bind_eq _ _ _ _ _ _ E1).
    split; [exact E'|]. split; [exact Hinv'|].
    split; [exact Ew1|]. split; [exact Ew2|].
    split; [eapply unchanged_except_trans; eassumption|].
    split; [cbn [length]; lia|].
    rewrite Eo', Eo1, progress_report_cons, <- app_assoc. reflexivity.
Qed.

(** X20.  [fit] trains in place and on a copy of X: on a well-shaped
    training set and for decay_rate >= 0 (no factor 1 + decay_rate * i is
    zero then, in exact arithmetic as in binary64) it returns an instance
    with the same two weight
    references, the weight arrays keep their shapes, and every other array
    that was in the store, X included, is as it was.  It prints
    "fitting...now, please wait..." and then, with [print_progress], three
    lines per epoch ("Epoch: i + 1", "Loss: ...", "Training Accuracy: ...");
    without it, nothing more. *)
Theorem fit_changes_only_the_weights :
  forall self X y print_progress w N f h C,
    (X < length (heap w))%nat -> (w1 self < length (heap w))%nat ->
    (w2 self < length (heap w))%nat ->
    w1 self <> w2 self -> X <> w1 self -> X <> w2 self ->
    nrows (nth X (heap w) arr0) = N /\ ncols (nth X (heap w) arr0) = f ->
    nrows (nth (w1 self) (heap w) arr0) = h /\
    ncols (nth (w1 self) (heap w) arr0) = (f + 1)%nat ->
    nrows (nth (w2 self) (heap w) arr0) = C /\
    ncols (nth (w2 self) (heap w) arr0) = (h + 1)%nat ->
    n_output self = C -> length y = N ->
    (forall k, In k y -> (- Z.of_nat C <= k < Z.of_nat C)%Z) ->
    (1 <= minibatch_size self <= N)%nat -> (0 < C)%nat ->
    0 <= decay_rate self ->
    exists self' w' reports,
      fit self X y print_progress w = Ok (self', w') /\
      w1 self' = w1 self /\ w2 self' = w2 self /\
      (nrows (nth (w1 self) (heap w') arr0) = h /\
       ncols (nth (w1 self) (heap w') arr0) = (f + 1)%nat) /\
      (nrows (nth (w2 self) (heap w') arr0) = C /\
       ncols (nth (w2 self) (heap w') arr0) = (h + 1)%nat) /\
      nth X (heap w') arr0 = nth X (heap w) arr0 /\
      (forall r, (r < length (heap w))%nat -> r <> w1 self -> r <> w2 self ->
         nth r (heap w') arr0 = nth r (heap w) arr0) /\
      length reports = epochs self /\
      stdout w' = stdout w ++ [("fitting...now, please wait..."%string, [])]
                           ++ progress_report print_progress 0 reports.
Proof.
  intros self X y pp w N f h C VX VW1 VW2 D12 DX1 DX2 SX SW1 SW2 EC Hy Hlab Hk HC Hd0.
  assert (Hd : forall k, (k < epochs self)%nat -> 1 + decay_rate self * INR k <> 0)
    by (intros k _; apply decay_factor_nonzero; exact Hd0).
  destruct (@fit_setup_ok self X y w N f h C VX VW1 VW2 D12 DX1 DX2 SX SW1 SW2
              EC Hy Hlab) as [Es Hinv].
  unfold fit. rewrite (@bind_eq _ _ _ _ _ _ Es). cbv beta iota.
  match type of Hinv with
  | fit_inv _ _ _ _ _ ?xd ?ye ?s0 ?w0 =>
      destruct (@fit_epochs_effects N f h C X xd ye y pp (epochs self) 0%nat s0 w0
                  Hinv ltac:(intros k Hr; apply Hd; lia) Hk Hy HC)
        as [s' [w' [rs [E' [Hinv' [Ew1 [Ew2 [[Hlen Hu] [Hl Eo]]]]]]]]]
  end.
  rewrite (@bind_eq _ _ _ _ _ _ E'). cbv beta iota.
  cbn [v_self heap stdout] in Ew1, Ew2, Hu, Hlen, Eo.
  exists (v_self s'), w', rs. split; [reflexivity|].
  split; [exact Ew1|]. split; [exact Ew2|].
  destruct Hinv' as [_ _ _ _ _ SW1' SW2' _ _]. rewrite Ew1 in SW1'. rewrite Ew2 in SW2'.
  split; [exact SW1'|]. split; [exact SW2'|].
  assert (Hold : forall r, (r < length (heap w))%nat -> r <> w1 self -> r <> w2 self ->
                   nth r (heap w') arr0 = nth r (heap w) arr0).
  { intros r Hr H1 H2. rewrite Hu by (try assumption; rewrite length_app; lia).
    apply nth_heap_old. exact Hr. }
  split; [apply Hold; assumption|]. split; [exact Hold|].
  split; [exact Hl|]. rewrite Eo, <- app_assoc. reflexivity.
Qed.

Lemma fit_changes_only_the_weights_witness :
  exists self' w' (reports : list (R * R)),
    fit (nn_fit 2 1 1 1) 0 y_two true world_fit = Ok (self', w') /\
    nth 0 (heap w') arr0 = X_two /\
    length (stdout w') = 7%nat /\ length reports = 2%nat.
Proof.
  destruct (@fit_changes_only_the_weights (nn_fit 2 1 1 1) 0%nat y_two true
              world_fit 2%nat 1%nat 1%nat 2%nat)
    as [self' [w' [rs [E [_ [_ [_ [_ [HX [_ [Hl Eo]]]]]]]]]]]; try concrete_side.
  - exact y_two_in_range.
  - cbn; lia.
  - cbn. lra.
  - exists self', w', rs. split; [exact E|]. split; [exact HX|].
    split; [|exact Hl]. rewrite Eo.
    destruct rs as [|r1 [|r2 [|r3 rs]]]; try discriminate Hl. reflexivity.
Defined.
